(** * AgenticReader: chunking, summarisation, exploration tools and controller

    A shallow embedding of the document exploration engine
    (reader/htmlToMarkdownTree.ts, reader/agenticReaderTools.ts,
    reader/agenticReader.ts and the benchmark script) together with the
    properties its specification states about it.

    Conventions of the embedding:
    - a JavaScript [number] that holds a position, a size or a count is a [Z];
    - a JavaScript string is a [string]: a sequence of code units below
      256, that is, a text in the Latin-1 range U+0000 to U+00FF, on which
      [toLowerCase] replaces unit by unit; the one code unit whose lower
      case is longer, U+0130, lies outside that range and is followed in
      the module [Wide];
    - a loop that the source does not bound structurally takes a [fuel]
      argument and answers [None] when the fuel runs out;
    - an awaited call to a collaborator (text generation, vision) is a value
      of type [Settled]: what the promise settled to. *)

From Stdlib Require Import ZArith Lia Ascii.
From Stdlib Require String.
From stdpp Require Import list strings pretty gmap.

Local Open Scope Z_scope.

(** ** JavaScript strings *)

Module JS.

Definition strLength (s : string) : Z := Z.of_nat (String.length s).

(** [String.prototype.slice] resolves each bound relative to the length:
    a negative bound counts from the end, and both are clamped. *)
Definition relIndex (len k : Z) : Z :=
  if k <? 0 then Z.max (len + k) 0 else Z.min k len.

Definition slice (s : string) (start finish : Z) : string :=
  let len := strLength s in
  let from := relIndex len start in
  let to := relIndex len finish in
  String.substring (Z.to_nat from) (Z.to_nat (to - from)) s.

(** [String.prototype.indexOf(search, position)]: the position is clamped
    to [0, length]; the answer is [-1] when there is no occurrence. *)
Definition indexOf (s search : string) (position : Z) : Z :=
  let p := Z.min (Z.max position 0) (strLength s) in
  match String.index (Z.to_nat p) search s with
  | Some m => Z.of_nat m
  | None => -1
  end.

(** The lower case of a code unit below 256: the capitals A to Z (65 to
    90) and the Latin-1 capitals U+00C0 to U+00DE (192 to 222) without the
    multiplication sign U+00D7 (215) move up by 32; the other units,
    U+00DF and U+00FF among them, stay. *)
Definition lowerChar (c : ascii) : ascii :=
  let n := nat_of_ascii c in
  if ((65 <=? n)%nat && (n <=? 90)%nat)
     || ((192 <=? n)%nat && (n <=? 222)%nat && negb (n =? 215)%nat)
  then ascii_of_nat (n + 32) else c.

Fixpoint toLowerCase (s : string) : string :=
  match s with
  | EmptyString => EmptyString
  | String c s' => String (lowerChar c) (toLowerCase s')
  end.

(** A template literal renders an integer in decimal. *)
Definition show (n : Z) : string := pretty n.

End JS.

(** ** Outcome of an awaited collaborator call *)

Inductive Settled (A : Type) : Type :=
| Fulfilled (value : A)
| Rejected (message : string).
Arguments Fulfilled {A} value.
Arguments Rejected {A} message.

(** ** Chunker (htmlToMarkdownChunks) *)

Record MarkdownChunk : Type := mkChunk {
  content : string;
  chunkIndex : Z;
  startChar : Z;
  endChar : Z;
  totalChunks : Z
}.

Record MarkdownChunkWithSummary : Type := mkSummarised {
  chunk : MarkdownChunk;
  summary : string
}.

Module Chunker.
Import JS.

(** The [for] loop of [htmlToMarkdownChunks]: [i] is the loop variable and
    [chunks] the array built so far. *)
Fixpoint chunkLoop (fuel : nat) (markdown : string) (chunkSize stepSize : Z)
    (i : Z) (chunks : list MarkdownChunk) : option (list MarkdownChunk) :=
  match fuel with
  | O => None
  | S fuel' =>
      if i <? strLength markdown then
        let startChar := i in
        let endChar := Z.min (i + chunkSize) (strLength markdown) in
        let content := slice markdown startChar endChar in
        let chunks' :=
          chunks ++ [mkChunk content (Z.of_nat (length chunks)) startChar endChar 0] in
        if endChar >=? strLength markdown then Some chunks'
        else chunkLoop fuel' markdown chunkSize stepSize (i + stepSize) chunks'
      else Some chunks
  end.

(** [chunks.forEach(chunk => chunk.totalChunks = totalChunks)] *)
Definition setTotalChunks (chunks : list MarkdownChunk) : list MarkdownChunk :=
  let total := Z.of_nat (length chunks) in
  map (fun c => mkChunk (content c) (chunkIndex c) (startChar c) (endChar c) total)
      chunks.

(** The body of [htmlToMarkdownChunks] once the HTML is converted. *)
Definition chunkMarkdown (fuel : nat) (markdown : string) (chunkSize overlap : Z)
    : option (list MarkdownChunk) :=
  if strLength markdown <=? chunkSize then
    Some [mkChunk markdown 0 0 (strLength markdown) 1]
  else
    let stepSize := chunkSize - overlap in
    match chunkLoop fuel markdown chunkSize stepSize 0 [] with
    | Some chunks => Some (setTotalChunks chunks)
    | None => None
    end.

Section WithTurndown.
(** The HTML-to-Markdown conversion is the turndown library's. *)
Variable turndown : string -> string.

Definition htmlToMarkdown (html : string) : string := turndown html.

Definition htmlToMarkdownChunks (fuel : nat) (html : string)
    (chunkSize overlap : option Z) : option (list MarkdownChunk) :=
  chunkMarkdown fuel (turndown html) (default 5000 chunkSize) (default 1000 overlap).
End WithTurndown.

(** What the loop appends when it starts at [i]: windows of width
    [chunkSize] every [stepSize] characters, the last one clipped to the
    end of the text. *)
Inductive windows (markdown : string) (chunkSize stepSize : Z)
    : Z -> nat -> list MarkdownChunk -> Prop :=
| windows_last i k :
    strLength markdown <= i + chunkSize ->
    windows markdown chunkSize stepSize i k
      [mkChunk (slice markdown i (strLength markdown)) (Z.of_nat k) i
               (strLength markdown) 0]
| windows_next i k rest :
    i + chunkSize < strLength markdown ->
    windows markdown chunkSize stepSize (i + stepSize) (S k) rest ->
    windows markdown chunkSize stepSize i k
      (mkChunk (slice markdown i (i + chunkSize)) (Z.of_nat k) i (i + chunkSize) 0
         :: rest).

End Chunker.

(** ** Exploration tools (createAgenticReaderTools) *)

Record Stats : Type := mkStats {
  tool_calls : Z;
  content_reads : Z;
  figure_analyses : Z;
  search_iterations : Z
}.

(** The [data] argument of [emitEvent], one constructor per shape. *)
Inductive Payload : Type :=
| StatusData (stage message : string) (documentLength : option Z) (stats : option Stats)
| ReadContentCall (startPosition endPosition : Z)
| ReadFigureCall (imageUrl query : string)
| ReadTableCall (imageUrl : string)
| SearchContentCall (searchText : string) (maxResults : Z)
| ContentReadData (startPosition endPosition contentLength : Z)
| FigureAnalyzedData (imageUrl query result : string) (analysisLength : Z)
| TableExtractedData (imageUrl : string) (htmlLength : Z)
| SearchCompleteData (searchText : string) (resultsFound : Z)
| AnswerData (answer : string)
| MetadataData (processing_time_ms : Z) (stats : Stats)
| CompleteData (message : string)
| ErrorData (message : string).

Record Event : Type := mkEvent { event : string; data : Payload }.

Module Tools.
Import JS.

(** The part of [AgenticReaderToolsContext] that the tools mutate. Both
    members are optional in the source; [None] is an absent member. *)
Record Context : Type := mkContext {
  stats : option Stats;
  emitted : option (list Event)
}.

(** Tools run in a state monad over the context. *)
Definition M (A : Type) : Type := Context -> A * Context.

Definition ret {A} (a : A) : M A := fun ctx => (a, ctx).

Definition bind {A B} (m : M A) (k : A -> M B) : M B :=
  fun ctx => let (a, ctx') := m ctx in k a ctx'.

Notation "m ;; k" := (bind m (fun _ => k))
  (at level 100, k at level 200, right associativity).
Notation "x <- m ;; k" := (bind m (fun x => k))
  (at level 100, m at next level, k at level 200, right associativity).

(** [if (stats) { ... }] *)
Definition withStats (f : Stats -> Stats) : M unit :=
  fun ctx => (tt, mkContext (f <$> stats ctx) (emitted ctx)).

(** [if (emitEvent) { emitEvent(name, data) }] *)
Definition emitEvent (name : string) (d : Payload) : M unit :=
  fun ctx => (tt, mkContext (stats ctx) ((fun evs => evs ++ [mkEvent name d]) <$> emitted ctx)).

Definition countToolCall (s : Stats) : Stats :=
  mkStats (tool_calls s + 1) (content_reads s) (figure_analyses s) (search_iterations s).
Definition countContentRead (s : Stats) : Stats :=
  mkStats (tool_calls s) (content_reads s + 1) (figure_analyses s) (search_iterations s).
Definition countFigureAnalysis (s : Stats) : Stats :=
  mkStats (tool_calls s) (content_reads s) (figure_analyses s + 1) (search_iterations s).

(** *** readContent *)

Record ReadMetadata : Type := mkReadMetadata {
  startPosition : Z;
  endPosition : Z;
  contentLength : Z;
  totalDocumentLength : Z;
  hasMoreBefore : bool;
  hasMoreAfter : bool
}.

Inductive ReadResult : Type :=
| ReadFailure (error : string)
| ReadSuccess (content : string) (metadata : ReadMetadata).

Definition invalidStart (startPosition len : Z) : string :=
  "Invalid startPosition " +:+ show startPosition +:+ ". Document length is "
    +:+ show len +:+ " characters.".

Definition invalidEnd (endPosition len : Z) : string :=
  "Invalid endPosition " +:+ show endPosition +:+ ". Document length is "
    +:+ show len +:+ " characters.".

Definition notOrdered (startPosition endPosition : Z) : string :=
  "startPosition (" +:+ show startPosition +:+ ") must be less than endPosition ("
    +:+ show endPosition +:+ ").".

Definition readContent (fullContent : string) (startPosition endPosition : Z)
    : M ReadResult :=
  withStats (fun s => countContentRead (countToolCall s)) ;;
  emitEvent "tool_call" (ReadContentCall startPosition endPosition) ;;
  if (startPosition <? 0) || (startPosition >? strLength fullContent) then
    ret (ReadFailure (invalidStart startPosition (strLength fullContent)))
  else if (endPosition <? 0) || (endPosition >? strLength fullContent) then
    ret (ReadFailure (invalidEnd endPosition (strLength fullContent)))
  else if startPosition >=? endPosition then
    ret (ReadFailure (notOrdered startPosition endPosition))
  else
    let content := slice fullContent startPosition endPosition in
    emitEvent "content_read"
      (ContentReadData startPosition endPosition (strLength content)) ;;
    ret (ReadSuccess content
           (mkReadMetadata startPosition endPosition (strLength content)
              (strLength fullContent) (startPosition >? 0)
              (endPosition <? strLength fullContent))).

(** *** readFigure and readTable

    [reply] is what the awaited vision call settled to. *)

Inductive FigureResult : Type :=
| FigureFailure (error : string)
| FigureSuccess (imageUrl query analysis : string).

Definition readFigure (imageUrl query : string) (reply : Settled string)
    : M FigureResult :=
  withStats (fun s => countFigureAnalysis (countToolCall s)) ;;
  emitEvent "tool_call" (ReadFigureCall imageUrl query) ;;
  match reply with
  | Fulfilled text =>
      emitEvent "figure_analyzed"
        (FigureAnalyzedData imageUrl query text (strLength text)) ;;
      ret (FigureSuccess imageUrl query text)
  | Rejected message =>
      ret (FigureFailure ("Failed to analyze figure: " +:+ message))
  end.

Inductive TableResult : Type :=
| TableFailure (error : string)
| TableSuccess (imageUrl tableHtml : string).

Definition readTable (imageUrl : string) (reply : Settled string) : M TableResult :=
  withStats countToolCall ;;
  emitEvent "tool_call" (ReadTableCall imageUrl) ;;
  match reply with
  | Fulfilled text =>
      emitEvent "table_extracted" (TableExtractedData imageUrl (strLength text)) ;;
      ret (TableSuccess imageUrl text)
  | Rejected message =>
      ret (TableFailure ("Failed to extract table: " +:+ message))
  end.

(** *** searchContent *)

Record SearchHit : Type := mkHit { position : Z; context : string }.

Record SearchResult : Type := mkSearchResult {
  success : bool;
  searchText : string;
  resultsFound : Z;
  results : list SearchHit;
  hasMore : bool
}.

(** The [while] loop; it answers the hits and the final [currentPos]. *)
Fixpoint searchLoop (fuel : nat) (fullContent searchText searchLower : string)
    (maxResults currentPos : Z) (results : list SearchHit)
    : option (list SearchHit * Z) :=
  match fuel with
  | O => None
  | S fuel' =>
      if (Z.of_nat (length results) <? maxResults)
         && (currentPos <? strLength fullContent) then
        let foundPos := indexOf (toLowerCase fullContent) searchLower currentPos in
        if foundPos =? -1 then Some (results, currentPos)
        else
          let contextStart := Z.max 0 (foundPos - 50) in
          let contextEnd :=
            Z.min (strLength fullContent) (foundPos + strLength searchText + 50) in
          let context := slice fullContent contextStart contextEnd in
          searchLoop fuel' fullContent searchText searchLower maxResults
            (foundPos + strLength searchText)
            (results ++ [mkHit foundPos ("..." +:+ context +:+ "...")])
      else Some (results, currentPos)
  end.

Definition searchContent (fuel : nat) (fullContent searchText : string)
    (maxResults : option Z) : M (option SearchResult) :=
  let maxResults := default 5 maxResults in
  withStats countToolCall ;;
  emitEvent "tool_call" (SearchContentCall searchText maxResults) ;;
  let searchLower := toLowerCase searchText in
  match searchLoop fuel fullContent searchText searchLower maxResults 0 [] with
  | None => ret None
  | Some (results, currentPos) =>
      emitEvent "search_complete"
        (SearchCompleteData searchText (Z.of_nat (length results))) ;;
      ret (Some (mkSearchResult true searchText (Z.of_nat (length results)) results
                   ((currentPos <? strLength fullContent)
                    && negb (indexOf (toLowerCase fullContent) searchLower currentPos
                             =? -1))))
  end.

(** The loop adds one hit per iteration, so this much fuel is enough. *)
Definition searchFuel (maxResults : option Z) : nat :=
  S (Z.to_nat (default 5%Z maxResults)).

(** *** Dispatch

    A call the reasoning model makes, with the reply of the vision
    collaborator where the tool awaits one. *)
Inductive ToolCall : Type :=
| CallReadContent (startPosition endPosition : Z)
| CallReadFigure (imageUrl query : string) (reply : Settled string)
| CallReadTable (imageUrl : string) (reply : Settled string)
| CallSearchContent (searchText : string) (maxResults : option Z).

Definition execute (fullContent : string) (call : ToolCall) : M unit :=
  match call with
  | CallReadContent s e => readContent fullContent s e ;; ret tt
  | CallReadFigure url q reply => readFigure url q reply ;; ret tt
  | CallReadTable url reply => readTable url reply ;; ret tt
  | CallSearchContent text m =>
      searchContent (searchFuel m) fullContent text m ;; ret tt
  end.

Fixpoint executeAll (fullContent : string) (calls : list ToolCall) : M unit :=
  match calls with
  | [] => ret tt
  | call :: rest => execute fullContent call ;; executeAll fullContent rest
  end.

(** *** Vocabulary for the search properties *)

(** [searchText] occurs at position [p] of [fullContent], case folded. *)
Definition occursAt (fullContent searchText : string) (p : Z) : Prop :=
  0 <= p
  /\ toLowerCase (String.substring (Z.to_nat p) (String.length searchText) fullContent)
     = toLowerCase searchText.

(** The context string built for a hit at [p]. *)
Definition contextAround (fullContent searchText : string) (p : Z) : string :=
  "..." +:+ slice fullContent (Z.max 0 (p - 50))
              (Z.min (strLength fullContent) (p + strLength searchText + 50))
        +:+ "...".

(** Where the scan resumes after the hits returned so far. *)
Definition resumeAt (searchText : string) (hits : list SearchHit) : Z :=
  match last hits with
  | Some h => position h + strLength searchText
  | None => 0
  end.

(** [scan from hits final]: scanning from [from], the loop appends [hits],
    each the first occurrence at or after the point where the previous one
    ended, and leaves [currentPos = final]. *)
Inductive scan (fullContent searchText : string) : Z -> list SearchHit -> Z -> Prop :=
| scan_stop from : scan fullContent searchText from [] from
| scan_hit from p rest final :
    from <= p ->
    occursAt fullContent searchText p ->
    (forall q, from <= q < p -> ~ occursAt fullContent searchText q) ->
    scan fullContent searchText (p + strLength searchText) rest final ->
    scan fullContent searchText from
      (mkHit p (contextAround fullContent searchText p) :: rest) final.

(** The document of the search example: the phrase at positions 120 and
    980, once in lower case and once capitalised. *)
Definition filler (n : nat) : string :=
  String.string_of_list_ascii (replicate n "x"%char).

Definition exampleDocument : string :=
  filler 120 +:+ "quantum yield" +:+ filler 847 +:+ "Quantum Yield" +:+ filler 100.

End Tools.

(** ** searchContent on a text with U+0130

    [String.prototype.toLowerCase] replaces the code unit U+0130 (capital I
    with dot above) by the two code units U+0069 U+0307, so the lower-cased
    document can be longer than the document. This module follows the scan
    of [searchContent] on texts over the Latin-1 code units and these two;
    the counters and events are those of [Tools.searchContent]. *)

Module Wide.

Inductive CodeUnit : Type :=
| Latin (c : ascii)
| CapitalIDot
| CombiningDot.

Definition Text : Type := list CodeUnit.

Definition sameUnit (u v : CodeUnit) : bool :=
  match u, v with
  | Latin a, Latin b => Ascii.eqb a b
  | CapitalIDot, CapitalIDot => true
  | CombiningDot, CombiningDot => true
  | _, _ => false
  end.

Definition lowerUnit (u : CodeUnit) : Text :=
  match u with
  | Latin c => [Latin (JS.lowerChar c)]
  | CapitalIDot => [Latin "i"; CombiningDot]
  | CombiningDot => [CombiningDot]
  end.

Definition toLowerCase (t : Text) : Text := List.flat_map lowerUnit t.

Definition strLength (t : Text) : Z := Z.of_nat (length t).

Definition slice (t : Text) (start finish : Z) : Text :=
  let len := strLength t in
  let from := JS.relIndex len start in
  let to := JS.relIndex len finish in
  take (Z.to_nat (to - from)) (drop (Z.to_nat from) t).

Fixpoint startsWith (search t : Text) : bool :=
  match search, t with
  | [], _ => true
  | _ :: _, [] => false
  | u :: search', v :: t' => sameUnit u v && startsWith search' t'
  end.

(** The first index at or after [here] at which [search] begins, [t]
    being the text from [here] on. *)
Fixpoint findFrom (search t : Text) (here : nat) {struct t} : option nat :=
  if startsWith search t then Some here
  else
    match t with
    | [] => None
    | _ :: t' => findFrom search t' (S here)
    end.

Definition indexOf (t search : Text) (position : Z) : Z :=
  let p := Z.to_nat (Z.min (Z.max position 0) (strLength t)) in
  match findFrom search (drop p t) p with
  | Some m => Z.of_nat m
  | None => -1
  end.

Record SearchHit : Type := mkHit { position : Z; context : Text }.

Record SearchResult : Type := mkSearchResult {
  success : bool;
  searchText : Text;
  resultsFound : Z;
  results : list SearchHit;
  hasMore : bool
}.

Definition dots : Text := [Latin "."; Latin "."; Latin "."].

Fixpoint searchLoop (fuel : nat) (fullContent searchText searchLower : Text)
    (maxResults currentPos : Z) (results : list SearchHit)
    : option (list SearchHit * Z) :=
  match fuel with
  | O => None
  | S fuel' =>
      if (Z.of_nat (length results) <? maxResults)
         && (currentPos <? strLength fullContent) then
        let foundPos := indexOf (toLowerCase fullContent) searchLower currentPos in
        if foundPos =? -1 then Some (results, currentPos)
        else
          let contextStart := Z.max 0 (foundPos - 50) in
          let contextEnd :=
            Z.min (strLength fullContent) (foundPos + strLength searchText + 50) in
          let context := slice fullContent contextStart contextEnd in
          searchLoop fuel' fullContent searchText searchLower maxResults
            (foundPos + strLength searchText)
            (results ++ [mkHit foundPos (dots ++ context ++ dots)])
      else Some (results, currentPos)
  end.

Definition searchContent (fuel : nat) (fullContent searchText : Text)
    (maxResults : option Z) : option SearchResult :=
  let maxResults := default 5 maxResults in
  let searchLower := toLowerCase searchText in
  match searchLoop fuel fullContent searchText searchLower maxResults 0 [] with
  | None => None
  | Some (results, currentPos) =>
      Some (mkSearchResult true searchText (Z.of_nat (length results)) results
              ((currentPos <? strLength fullContent)
               && negb (indexOf (toLowerCase fullContent) searchLower currentPos
                        =? -1)))
  end.

(** The document U+0130 U+0130 a a: four code units, the letter a at
    positions 2 and 3; its lower case has six. *)
Definition dottedDocument : Text := [CapitalIDot; CapitalIDot; Latin "a"; Latin "a"].

End Wide.

(** ** Exploration controller (agenticReaderWithEvents) *)

Module Controller.
Import JS Tools.

Record AgenticReaderOptions : Type := mkOptions {
  max_iterations : option Z;
  model : option string;
  include_metadata : option bool
}.

(** The arguments of the top-level [generateText] call. *)
Record GenerateRequest : Type := mkRequest {
  requestModel : string;
  system : string;
  prompt : string;
  stepLimit : option Z
}.

(** A reasoning session as the controller observes it: the tool calls the
    model made, in order, and what the awaited [generateText] settled to
    (final text and number of steps). *)
Record Reasoning : Type := mkReasoning {
  toolCalls : list ToolCall;
  settled : Settled (string * nat)
}.

Definition quote : string := String (ascii_of_nat 34) EmptyString.
Definition newline : string := String (ascii_of_nat 10) EmptyString.

Definition chunkPreview (total : nat) (idx : nat) (c : MarkdownChunkWithSummary)
    : string :=
  "Chunk " +:+ show (Z.of_nat idx + 1) +:+ "/" +:+ show (Z.of_nat total)
    +:+ " (chars " +:+ show (startChar (chunk c)) +:+ "-"
    +:+ show (endChar (chunk c)) +:+ "):" +:+ newline
    +:+ "Summary: " +:+ summary c.

Definition chunksPreview (chunksWithSummaries : list MarkdownChunkWithSummary)
    : string :=
  String.concat (newline +:+ newline)
    (imap (chunkPreview (length chunksWithSummaries)) chunksWithSummaries).

Definition systemPrompt (question : string)
    (chunksWithSummaries : list MarkdownChunkWithSummary) : string :=
  "You are an intelligent document reading agent designed to answer questions by exploring a document strategically.

QUESTION TO ANSWER: " +:+ quote +:+ question +:+ quote +:+ "

YOUR TASK:
Explore the document intelligently to find information that answers the user's question. You have the following tools:

- **readContent**: Read content at a specific position (returns -100 to +500 characters around the position)
- **readTable**: Convert table into html by the url of its image
- **readFigure**: Analyze figures  using visual AI by providing an image URL and query
- **searchContent**: Search the position of a specific text in the document

STRATEGY:
- Use readContent to explore promising chunks in whole
- If you find image URLs in the content and need to analyze them, use readFigure with the URL

DOCUMENT CHUNKS AND SUMMARIES:
Below are summaries of different sections of the document to help you navigate. You should use readContent to read the full content of the most relevant chunks based on these summaries.

" +:+ chunksPreview chunksWithSummaries +:+ "

When you're ready to provide the final answer, include it in your last response with clear explanations and citations.".

Definition userPrompt (question : string) : string :=
  "Begin exploring the document to answer the question: " +:+ quote +:+ question
    +:+ quote +:+ ". Start by getting document info and searching for relevant content.".

(** [prepareStep]: [None] is the empty object, which leaves the messages
    of the step as they are. *)
Definition prepareStep {Message : Type} (messages : list Message)
    : option (list Message) :=
  if 20 <? Z.of_nat (length messages) then
    Some (option_list (head messages) ++ drop (length messages - 20) messages)
  else None.

(** The messages the next reasoning call receives. *)
Definition messagesForStep {Message : Type} (messages : list Message) : list Message :=
  default messages (prepareStep messages).

Definition setSearchIterations (n : Z) (s : Stats) : Stats :=
  mkStats (tool_calls s) (content_reads s) (figure_analyses s) n.

Definition currentStats : M Stats :=
  fun ctx => (default (mkStats 0 0 0 0) (stats ctx), ctx).

Section WithTransport.
(** The text-generation collaborator, with the tools bound to it. *)
Variable generateText : GenerateRequest -> Reasoning.

(** The events the sink receives, in order. [startTime] and [finishTime]
    are the two readings of [Date.now()]. *)
Definition agenticReaderWithEvents (question fullContent : string)
    (chunksWithSummaries : list MarkdownChunkWithSummary)
    (options : AgenticReaderOptions) (startTime finishTime : Z) : list Event :=
  let model := default "gpt-5-mini" (model options) in
  let include_metadata := default false (include_metadata options) in
  let session : M unit :=
    emitEvent "status"
      (StatusData "starting" "Initializing agentic reader..." None None) ;;
    emitEvent "status"
      (StatusData "document_loaded"
         ("Document loaded: " +:+ show (strLength fullContent) +:+ " characters")
         (Some (strLength fullContent)) None) ;;
    emitEvent "status"
      (StatusData "exploring" "Agent is exploring the document..." None None) ;;
    let result :=
      generateText
        (mkRequest model (systemPrompt question chunksWithSummaries)
           (userPrompt question) (max_iterations options)) in
    executeAll fullContent (toolCalls result) ;;
    match settled result with
    | Fulfilled (text, steps) =>
        withStats (setSearchIterations (Z.of_nat steps)) ;;
        stats <- currentStats ;;
        emitEvent "status"
          (StatusData "exploration_complete"
             ("Agent completed exploration in " +:+ show (Z.of_nat steps) +:+ " steps")
             None (Some stats)) ;;
        emitEvent "answer" (AnswerData text) ;;
        (if include_metadata then
           emitEvent "metadata" (MetadataData (finishTime - startTime) stats)
         else ret tt) ;;
        emitEvent "complete" (CompleteData "Agentic reading completed successfully")
    | Rejected message =>
        emitEvent "error"
          (ErrorData (if String.eqb message "" then "An error occurred during reading"
                      else message))
    end in
  default [] (emitted (snd (session (mkContext (Some (mkStats 0 0 0 0)) (Some []))))).
End WithTransport.

Definition isAnswer (e : Event) : bool := String.eqb (event e) "answer".
Definition isError (e : Event) : bool := String.eqb (event e) "error".

Definition countEvents (p : Event -> bool) (evs : list Event) : nat :=
  length (filter (fun e => p e = true) evs).

(** An event that does not end a session. *)
Definition ongoing (e : Event) : Prop := isAnswer e = false /\ isError e = false.

(** A computation that only appends events that do not end a session. *)
Definition quiet {A} (m : M A) : Prop :=
  forall ctx, exists new,
    emitted (snd (m ctx)) = (fun evs => evs ++ new) <$> emitted ctx
    /\ Forall ongoing new.

End Controller.

(** ** Summarizer (generateChunkSummaries) *)

Module Summarizer.
Import JS.

(** An entry of [queue]: [{ chunk, index }]. *)
Definition Item : Type := MarkdownChunk * nat.

(** A worker is suspended on the [generateText] call of an item, or has
    left its [while] loop. *)
Inductive Worker : Type :=
| Awaiting (item : Item)
| Finished.

(** The variables the workers share. A [None] in [results] is a slot of
    [new Array(chunks.length)] that nothing was assigned to. *)
Record Pool : Type := mkPool {
  queue : list Item;
  results : list (option MarkdownChunkWithSummary);
  workers : list Worker;
  completed : nat
}.

Definition summaryPrompt (c : MarkdownChunk) : string :=
  "Summarize the following markdown content in 50 words. Focus on the main topics and key information. Pay special attention to and prioritize summarizing any figures, tables, charts, or data visualizations - describe what they show and their key findings:

" +:+ content c.

(** A worker runs up to its next [await]: it shifts the next item off the
    queue and issues the call, or finds the queue empty and returns. *)
Definition pull (queue : list Item) : Worker * list Item :=
  match queue with
  | item :: rest => (Awaiting item, rest)
  | [] => (Finished, [])
  end.

(** The [for] loop that creates the workers; each one runs to its first
    [await] as soon as it is created. *)
Fixpoint startWorkers (count : nat) (p : Pool) : Pool :=
  match count with
  | O => p
  | S count' =>
      let (w, queue') := pull (queue p) in
      startWorkers count'
        (mkPool queue' (results p) (workers p ++ [w]) (completed p))
  end.

Definition initialPool (chunks : list MarkdownChunk) (maxConcurrency : Z) : Pool :=
  startWorkers
    (Z.to_nat (Z.min maxConcurrency (Z.of_nat (length chunks))))
    (mkPool (imap (fun index chunk => (chunk, index)) chunks)
            (replicate (length chunks) None) [] 0).

Definition isAwaiting (w : Worker) : bool :=
  match w with Awaiting _ => true | Finished => false end.

Fixpoint firstAwaiting (ws : list Worker) : option nat :=
  match ws with
  | [] => None
  | w :: ws' => if isAwaiting w then Some O else S <$> firstAwaiting ws'
  end.

(** Which pending call settles next: the worker the schedule names if it
    is suspended, otherwise the first suspended one; [None] when every
    worker has returned. *)
Definition nextWorker (choice : nat) (ws : list Worker) : option nat :=
  match ws !! choice with
  | Some (Awaiting _) => Some choice
  | _ => firstAwaiting ws
  end.

Section WithTransport.
(** The text-generation collaborator. Replies may differ from call to
    call, so the reply is a function of the slot the call is for as
    well as of the model name and the prompt. *)
Variable generateText : nat -> string -> string -> Settled string.
Variable modelName : string.

(** The pending call of worker [w] settles. On success [generateSummary]
    assigns the slot and the worker goes round its loop; on failure the
    worker's promise, and with it [Promise.all], rejects. *)
Definition settle (w : nat) (p : Pool) : option (Settled Pool) :=
  match workers p !! w with
  | Some (Awaiting (chunk, index)) =>
      match generateText index modelName (summaryPrompt chunk) with
      | Fulfilled text =>
          let results' := <[index := Some (mkSummarised chunk text)]> (results p) in
          let (w', queue') := pull (queue p) in
          Some (Fulfilled
                  (mkPool queue' results' (<[w := w']> (workers p))
                          (S (completed p))))
      | Rejected message => Some (Rejected message)
      end
  | _ => None
  end.

(** [await Promise.all(workers)] under a completion order [schedule]. *)
Fixpoint awaitAll (fuel : nat) (schedule : list nat) (p : Pool)
    : option (Settled (list (option MarkdownChunkWithSummary))) :=
  match fuel with
  | O => None
  | S fuel' =>
      match nextWorker (hd O schedule) (workers p) with
      | None => Some (Fulfilled (results p))
      | Some w =>
          match settle w p with
          | Some (Fulfilled p') => awaitAll fuel' (tl schedule) p'
          | Some (Rejected message) => Some (Rejected message)
          | None => None
          end
      end
  end.

Definition generateChunkSummaries (fuel : nat) (schedule : list nat)
    (chunks : list MarkdownChunk) (fullContent : string) (maxConcurrency : option Z)
    : option (Settled (list (option MarkdownChunkWithSummary))) :=
  awaitAll fuel schedule (initialPool chunks (default 10 maxConcurrency)).

(** *** Vocabulary for the summarizer properties *)

(** The text of a reply; a failed call has none. *)
Definition textOf (reply : Settled string) : string :=
  match reply with Fulfilled text => text | Rejected _ => "" end.

(** Every slot holds its chunk with the summary generated for it. *)
Definition summarised (chunks : list MarkdownChunk)
    : list (option MarkdownChunkWithSummary) :=
  imap (fun index chunk =>
          Some (mkSummarised chunk
                  (textOf (generateText index modelName (summaryPrompt chunk)))))
       chunks.

(** An item whose call has not settled: still queued, or awaited. *)
Definition unsettled (p : Pool) (item : Item) : Prop :=
  item ∈ queue p \/ Awaiting item ∈ workers p.

(** What holds of the shared variables between two steps, for the
    input [chunks]. *)
Record consistent (chunks : list MarkdownChunk) (p : Pool) : Prop := {
  consistent_length : length (results p) = length chunks;
  consistent_items :
    forall c i, unsettled p (c, i) -> chunks !! i = Some c;
  consistent_slots :
    forall i c, chunks !! i = Some c ->
      unsettled p (c, i)
      \/ exists text,
           generateText i modelName (summaryPrompt c) = Fulfilled text
           /\ results p !! i = Some (Some (mkSummarised c text));
  consistent_queue :
    queue p <> [] -> Forall (fun w => isAwaiting w = true) (workers p)
}.
End WithTransport.

(** The number of calls that have not settled yet. *)
Definition awaiting (ws : list Worker) : nat :=
  length (filter (fun w => isAwaiting w = true) ws).

Definition pending (p : Pool) : nat := (length (queue p) + awaiting (workers p))%nat.

(** Three chunks and two transports for the examples: one that answers
    every call, one that fails the call for slot 1. *)
Definition exampleChunks : list MarkdownChunk :=
  [mkChunk "alpha" 0 0 5 3; mkChunk "beta" 1 4 8 3; mkChunk "gamma" 2 7 12 3].

Definition steadyTransport (index : nat) (model prompt : string) : Settled string :=
  Fulfilled ("summary of slot " +:+ pretty index).

Definition flakyTransport (index : nat) (model prompt : string) : Settled string :=
  if (index =? 1)%nat then Rejected "rate limited"
  else steadyTransport index model prompt.

End Summarizer.

(** ** Benchmark (compareNumerical) *)

Module Benchmark.

(** The operations on JavaScript numbers (IEEE doubles) that the
    comparison uses. *)
Class JSNumber (number : Type) : Type := {
  parseFloat : string -> number;
  isNaN : number -> bool;
  sub : number -> number -> number;
  div : number -> number -> number;
  abs : number -> number;
  le : number -> number -> bool;
  oneTenth : number;
  oneHundredth : number
}.

Record Comparison (number : Type) : Type := mkComparison {
  match_ : bool;
  error : option number
}.
Arguments mkComparison {number} match_ error.
Arguments match_ {number} c.
Arguments error {number} c.

Section WithNumbers.
Context {number : Type} `{JSNumber number}.

Definition compareNumerical (extracted groundTruth : string)
    (tolerance : option number) : Comparison number :=
  let tolerance := default oneTenth tolerance in
  if String.eqb groundTruth "" then mkComparison true None
  else
    let extractedNum := parseFloat extracted in
    let groundTruthNum := parseFloat groundTruth in
    if isNaN extractedNum && negb (isNaN groundTruthNum) then
      mkComparison false None
    else
      let error := sub extractedNum groundTruthNum in
      let match_ :=
        le (abs error) tolerance
        || le (abs (div error groundTruthNum)) oneHundredth in
      mkComparison match_ (Some error).
End WithNumbers.

End Benchmark.

(** ** Putting chunks back together *)

Module Rejoin.
Import JS.

(** [s.slice(n)] *)
Definition sliceFrom (s : string) (n : Z) : string := slice s n (strLength s).

(** The first chunk followed by every later chunk without the [overlap]
    characters it shares with its predecessor. *)
Definition rejoin (overlap : Z) (chunks : list MarkdownChunk) : string :=
  match chunks with
  | [] => ""
  | c :: rest =>
      content c +:+ foldr (fun c' acc => sliceFrom (content c') overlap +:+ acc) "" rest
  end.

(** The number of windows of width [chunkSize] placed every [stepSize]
    characters that a text of [len] characters needs. *)
Definition windowCount (len chunkSize stepSize : Z) : Z :=
  if len <=? chunkSize then 1 else (len - chunkSize + stepSize - 1) / stepSize + 1.

End Rejoin.

(** ** Counting tool calls *)

Module Tally.
Import Tools.

Definition isReadContent (call : ToolCall) : bool :=
  match call with CallReadContent _ _ => true | _ => false end.

Definition isReadFigure (call : ToolCall) : bool :=
  match call with CallReadFigure _ _ _ => true | _ => false end.

Definition count (p : ToolCall -> bool) (calls : list ToolCall) : Z :=
  Z.of_nat (length (filter (fun call => p call = true) calls)).

Definition isToolCall (e : Event) : bool := String.eqb (event e) "tool_call".

(** The counters after [calls] have run, starting from [s]. *)
Definition tally (calls : list ToolCall) (s : Stats) : Stats :=
  mkStats (tool_calls s + Z.of_nat (length calls))
          (content_reads s + count isReadContent calls)
          (figure_analyses s + count isReadFigure calls)
          (search_iterations s).

(** A computation that appends events, [calls] of them tool_call events
    and at most [bound] in all. *)
Definition emitting {A} (m : M A) (calls bound : nat) : Prop :=
  forall ctx, exists new,
    emitted (snd (m ctx)) = (fun evs => evs ++ new) <$> emitted ctx
    /\ Controller.countEvents isToolCall new = calls
    /\ (length new <= bound)%nat.

End Tally.

(** ** States of the worker pool *)

Module PoolRun.
Import Summarizer.

Section WithTransport.
Variable generateText : nat -> string -> string -> Settled string.
Variable modelName : string.

(** The worker whose call is rejected leaves its loop by the exception: it
    pulls nothing more, and its item is neither completed nor queued. The
    queue, the slots and the other workers are as they were, and those
    workers go on pulling and calling although [Promise.all] has rejected. *)
Definition abandon (w : nat) (p : Pool) : Pool :=
  mkPool (queue p) (results p) (<[w := Finished]> (workers p)) (completed p).

(** The states the shared variables pass through, from [start], with the
    number of calls rejected so far: one more state for every call that
    settles, with a text or with a rejection. *)
Inductive reachable (start : Pool) : nat -> Pool -> Prop :=
| reachable_start : reachable start 0 start
| reachable_settle rejected p w p' :
    reachable start rejected p ->
    settle generateText modelName w p = Some (Fulfilled p') ->
    reachable start rejected p'
| reachable_reject rejected p w message :
    reachable start rejected p ->
    settle generateText modelName w p = Some (Rejected message) ->
    reachable start (S rejected) (abandon w p).

End WithTransport.
End PoolRun.

(** ** The whole preparation (htmlToMarkdownChunksWithSummaries) *)

Module Pipeline.

Record ChunkedDocument : Type := mkDocument {
  fullContent : string;
  chunks : list (option MarkdownChunkWithSummary)
}.

Section WithCollaborators.
Variable turndown : string -> string.
Variable generateText : nat -> string -> string -> Settled string.

Definition htmlToMarkdownChunksWithSummaries (fuel : nat) (schedule : list nat)
    (html : string) (chunkSize overlap : option Z) (modelName : option string)
    (maxConcurrency : option Z) : option (Settled ChunkedDocument) :=
  let chunkSize := default 5000 chunkSize in
  let overlap := default 1000 overlap in
  let modelName := default "gpt-5-mini" modelName in
  let maxConcurrency := default 10 maxConcurrency in
  let fullMarkdown := Chunker.htmlToMarkdown turndown html in
  match Chunker.htmlToMarkdownChunks turndown fuel html (Some chunkSize) (Some overlap) with
  | None => None
  | Some chunks =>
      match Summarizer.generateChunkSummaries generateText modelName fuel schedule
              chunks fullMarkdown (Some maxConcurrency) with
      | None => None
      | Some (Rejected message) => Some (Rejected message)
      | Some (Fulfilled chunksWithSummary) =>
          Some (Fulfilled (mkDocument fullMarkdown chunksWithSummary))
      end
  end.

End WithCollaborators.
End Pipeline.

(** ** Text operations used by the CSV code *)

Module Text.

Definition comma : ascii := ","%char.
Definition doubleQuote : ascii := ascii_of_nat 34.
Definition lineFeed : ascii := ascii_of_nat 10.

(** The white space and line terminators that [trim] removes, among the
    8-bit codes: tab to carriage return, space, no-break space. *)
Definition isSpace (c : ascii) : bool :=
  let n := nat_of_ascii c in
  ((9 <=? n)%nat && (n <=? 13)%nat) || (n =? 32)%nat || (n =? 160)%nat.

Fixpoint trimStart (s : string) : string :=
  match s with
  | String c s' => if isSpace c then trimStart s' else s
  | EmptyString => EmptyString
  end.

Fixpoint trimEnd (s : string) : string :=
  match s with
  | EmptyString => EmptyString
  | String c s' =>
      match trimEnd s' with
      | EmptyString => if isSpace c then EmptyString else String c EmptyString
      | t => String c t
      end
  end.

Definition trim (s : string) : string := trimEnd (trimStart s).

(** [s.split(sep)] for a separator of one character. *)
Fixpoint split (sep : ascii) (s : string) : list string :=
  match s with
  | EmptyString => [EmptyString]
  | String c s' =>
      if Ascii.eqb c sep then EmptyString :: split sep s'
      else
        match split sep s' with
        | part :: parts => String c part :: parts
        | [] => [String c EmptyString]
        end
  end.

(** [parts.join(sep)] *)
Definition join (sep : string) (parts : list string) : string :=
  String.concat sep parts.

(** [s.includes(search)] *)
Definition includes (s search : string) : bool :=
  negb (JS.indexOf s search 0 =? -1).

(** The global [replace] of [escapeCsvValue]: every double quote is doubled. *)
Fixpoint doubleQuotes (s : string) : string :=
  match s with
  | EmptyString => EmptyString
  | String c s' =>
      if Ascii.eqb c doubleQuote
      then String doubleQuote (String doubleQuote (doubleQuotes s'))
      else String c (doubleQuotes s')
  end.

(** Vocabulary: [s] without its double quotes, and whether [c] is one of
    the characters of [s]. *)
Fixpoint withoutQuotes (s : string) : string :=
  match s with
  | EmptyString => EmptyString
  | String c s' =>
      if Ascii.eqb c doubleQuote then withoutQuotes s' else String c (withoutQuotes s')
  end.

Fixpoint occurs (c : ascii) (s : string) : bool :=
  match s with
  | EmptyString => false
  | String c' s' => Ascii.eqb c' c || occurs c s'
  end.

(** Vocabulary: [s] does not begin, or end, with a character [trim] removes. *)
Definition startsClean (s : string) : Prop :=
  match s with String c _ => isSpace c = false | EmptyString => True end.

Fixpoint endsClean (s : string) : Prop :=
  match s with
  | EmptyString => True
  | String c EmptyString => isSpace c = false
  | String _ s' => endsClean s'
  end.

End Text.

(** ** Reading and writing CSV (parseCSV, parseCSVLine, convertToCSV) *)

Module Csv.
Import Text.

(** The loop of [parseCSVLine] over the characters of the line. *)
Fixpoint parseLoop (line : string) (values : list string) (current : string)
    (inQuotes : bool) : list string :=
  match line with
  | EmptyString => values ++ [trim current]
  | String char rest =>
      if Ascii.eqb char doubleQuote then parseLoop rest values current (negb inQuotes)
      else if Ascii.eqb char comma && negb inQuotes then
        parseLoop rest (values ++ [trim current]) "" inQuotes
      else parseLoop rest values (current +:+ String char "") inQuotes
  end.

Definition parseCSVLine (line : string) : list string := parseLoop line [] "" false.

(** [headers.forEach((header, index) => obj[header] = values[index] || '')].
    The map holds the members the object has of its own. The assignment to
    the name [__proto__] reaches the setter that [Object.prototype] has for
    it, which ignores a string: it adds no member. *)
Fixpoint assignCells (headers : list string) (index : nat) (values : list string)
    (obj : gmap string string) : gmap string string :=
  match headers with
  | [] => obj
  | header :: rest =>
      assignCells rest (S index) values
        (if String.eqb header "__proto__" then obj
         else <[header := default "" (values !! index)]> obj)
  end.

Definition parseCSV (content : string) : list (gmap string string) :=
  let lines := split lineFeed (trim content) in
  match lines with
  | [] => []
  | first :: rest =>
      let headers := trim <$> split comma first in
      foldl (fun results line =>
               if String.eqb (trim line) "" then results
               else results ++ [assignCells headers 0 (parseCSVLine line) ∅])
            [] rest
  end.

(** A value a member of an extracted row can hold. [JsOther] is a number,
    a boolean, an object or a function, given by whether it is truthy and
    by the text [String] gives for it: the number 0 is [JsOther false "0"],
    the number 450 is [JsOther true "450"]. *)
Inductive JsValue : Type :=
| JsUndefined
| JsNull
| JsString (s : string)
| JsOther (isTruthy : bool) (text : string).

Definition truthy (v : JsValue) : bool :=
  match v with
  | JsUndefined | JsNull => false
  | JsString s => negb (String.eqb s "")
  | JsOther isTruthy _ => isTruthy
  end.

(** [String(value)] *)
Definition toText (v : JsValue) : string :=
  match v with
  | JsUndefined => "undefined"
  | JsNull => "null"
  | JsString s => s
  | JsOther _ text => text
  end.

Definition escapeCsvValue (value : JsValue) : string :=
  let stringValue :=
    match value with
    | JsUndefined | JsNull => ""
    | _ => toText value
    end in
  if includes stringValue (String comma "")
     || includes stringValue (String doubleQuote "")
     || includes stringValue (String lineFeed "")
  then String doubleQuote "" +:+ doubleQuotes stringValue +:+ String doubleQuote ""
  else stringValue.

(** The names under which every plain object finds a member of
    [Object.prototype]: a function, or for [__proto__] the prototype. *)
Definition inheritedNames : list string :=
  ["constructor"; "hasOwnProperty"; "isPrototypeOf"; "propertyIsEnumerable";
   "toLocaleString"; "toString"; "valueOf"; "__proto__"; "__defineGetter__";
   "__defineSetter__"; "__lookupGetter__"; "__lookupSetter__"].

Section WithPrototype.
(** The text [String] gives for the inherited member of a name; its wording
    is the platform's. *)
Variable inheritedText : string -> string.

(** [row[key]] for a plain object whose own members are the map: a member
    of its own, else the inherited one, else [undefined]. *)
Definition member (row : gmap string JsValue) (key : string) : JsValue :=
  match row !! key with
  | Some value => value
  | None =>
      if bool_decide (key ∈ inheritedNames) then JsOther true (inheritedText key)
      else JsUndefined
  end.

(** [row[header] || ''] *)
Definition cellValue (row : gmap string JsValue) (header : string) : JsValue :=
  let value := member row header in
  if truthy value then value else JsString "".

Definition convertToCSV (rows : list (gmap string JsValue)) (headers : list string)
    : string :=
  let headerRow := join "," ((fun header => escapeCsvValue (JsString header)) <$> headers) in
  let dataRows :=
    (fun row => join "," ((fun header => escapeCsvValue (cellValue row header)) <$> headers))
      <$> rows in
  join (String lineFeed "") (headerRow :: dataRows).

(** The text of a cell as it is written, before escaping. *)
Definition cellText (row : gmap string JsValue) (header : string) : string :=
  toText (cellValue row header).

(** The line [convertToCSV] writes for one row. *)
Definition writtenLine (headers : list string) (row : gmap string JsValue) : string :=
  join "," ((fun header => escapeCsvValue (cellValue row header)) <$> headers).

End WithPrototype.

(** Vocabulary: a text without double quote or line feed and without white
    space around it; a header that is moreover non-empty and without comma. *)
Definition plainText (s : string) : Prop :=
  occurs doubleQuote s = false /\ occurs lineFeed s = false /\ trim s = s.

Definition plainHeader (h : string) : Prop :=
  h <> "" /\ occurs comma h = false /\ plainText h.

(** An extracted row with a label, the wavelength 450 and the quantum
    yield 0, and the wording of Node for an inherited function. *)
Definition exampleHeaders : list string := ["label"; "absorption_max_nm"; "quantum_yield"].

Definition exampleRow : gmap string JsValue :=
  <["label" := JsString "dye 1, in water"]>
    (<["absorption_max_nm" := JsOther true "450"]>
       (<["quantum_yield" := JsOther false "0"]> ∅)).

Definition nativeText (name : string) : string :=
  "function " +:+ name +:+ "() { [native code] }".

(** The object [parseCSV] builds from one line. *)
Definition parsedRow (headers : list string) (line : string) : gmap string string :=
  assignCells headers 0 (parseCSVLine line) ∅.

(** Vocabulary for the loop of [parseCSVLine]. *)

(** What holds of every value [parseCSVLine] returns. *)
Definition parsedValue (v : string) : Prop :=
  occurs doubleQuote v = false /\ trim v = v.

(** The first part of a split with [current] put in front of it. *)
Definition extendFirst (current : string) (parts : list string) : list string :=
  match parts with
  | part :: rest => (current +:+ part) :: rest
  | [] => [current]
  end.

End Csv.

(** ** Waiting for a parsing task (waitForParsingResult) *)

Module Mineru.

Inductive TaskState : Type := Done | Pending | Running | Failed | Converting.

(** The fields of the task response that the wait reads. *)
Record TaskData : Type := mkTaskData {
  state : TaskState;
  full_zip_url : option string;
  err_msg : option string
}.

Definition requestPeriod : Z := 2000.
Definition maxTimeToWait : Z := 10 * 60 * 1000.

Definition noUrlMessage : string := "Parsing completed but no result URL provided".
Definition timeoutMessage : string :=
  "Parsing timeout: exceeded maximum wait time of 10 minutes".

(** [value || fallback] for an optional string: absent and empty are falsy. *)
Definition orElse (value : option string) (fallback : string) : string :=
  match value with
  | Some s => if String.eqb s "" then fallback else s
  | None => fallback
  end.

Section WithApi.
(** What the task endpoint answers to the request number [k], counted
    from 0; a rejected request is a rejected [axios.get]. *)
Variable getTask : nat -> Settled TaskData.

Fixpoint waitLoop (fuel request : nat) (timeWaited : Z) : option (Settled string) :=
  match fuel with
  | O => None
  | S fuel' =>
      match getTask request with
      | Rejected message => Some (Rejected message)
      | Fulfilled data =>
          match state data with
          | Done =>
              match full_zip_url data with
              | Some url =>
                  if String.eqb url "" then Some (Rejected noUrlMessage)
                  else Some (Fulfilled url)
              | None => Some (Rejected noUrlMessage)
              end
          | Failed =>
              Some (Rejected ("Parsing failed: " +:+ orElse (err_msg data) "Unknown error"))
          | _ =>
              let timeWaited := timeWaited + requestPeriod in
              if maxTimeToWait <? timeWaited then Some (Rejected timeoutMessage)
              else waitLoop fuel' (S request) timeWaited
          end
      end
  end.

Definition waitForParsingResult (fuel : nat) : option (Settled string) :=
  waitLoop fuel 0 0.

End WithApi.

(** Vocabulary: what one response decides, if anything. *)
Definition verdict (response : Settled TaskData) : option (Settled string) :=
  match response with
  | Rejected message => Some (Rejected message)
  | Fulfilled data =>
      match state data with
      | Done =>
          match full_zip_url data with
          | Some url =>
              if String.eqb url "" then Some (Rejected noUrlMessage)
              else Some (Fulfilled url)
          | None => Some (Rejected noUrlMessage)
          end
      | Failed =>
          Some (Rejected ("Parsing failed: " +:+ orElse (err_msg data) "Unknown error"))
      | _ => None
      end
  end.

(** A task that is running for two requests and done at the third. *)
Definition exampleTask (k : nat) : Settled TaskData :=
  if (k <? 2)%nat then Fulfilled (mkTaskData Running None None)
  else Fulfilled (mkTaskData Done (Some "https://cdn.example/result.zip") None).

End Mineru.

(** ** Batch drivers (processHtmlJsonFile, processAllHtmlJsonFiles,
    runAgenticReader) *)

Module Batch.
Import Controller.

Definition tab : string := String (ascii_of_nat 9) EmptyString.

Definition question : string :=
  "Give a list of label" +:+ tab +:+ "Absorption max (nm)" +:+ tab
    +:+ "Emission max (nm)" +:+ tab +:+ "Lifetime (ns)" +:+ tab
    +:+ "Quantum yield for the compounds mentioned in the document.".

(** The question of [runAgenticReader] has two spaces after the last
    column name. *)
Definition readerQuestion : string :=
  "Give a list of label" +:+ tab +:+ "Absorption max (nm)" +:+ tab
    +:+ "Emission max (nm)" +:+ tab +:+ "Lifetime (ns)" +:+ tab
    +:+ "Quantum yield  for the compounds mentioned in the document.".

Definition options : AgenticReaderOptions :=
  mkOptions (Some 30) (Some "gpt-5") (Some true).

(** The sink of the drivers: [if (event === 'answer') answer = data.answer].
    Only answer payloads travel under that name. *)
Definition sink (answer : string) (e : Event) : string :=
  if String.eqb (event e) "answer" then
    match data e with
    | AnswerData text => text
    | _ => answer
    end
  else answer.

Definition capture (events : list Event) : string := foldl sink "" events.

(** What [processHtmlJsonFile] returns; [skipped] and [error] are absent
    members when [false] and [None]. *)
Record FileResult : Type := mkFileResult {
  success : bool;
  skipped : bool;
  error : option string;
  rowCount : option Z
}.

(** One [.html.json] file: whether its CSV exists already, the document it
    holds, and the two clock readings of its session. *)
Record FileInput : Type := mkFileInput {
  jsonPath : string;
  csvExists : bool;
  fullContent : string;
  chunks : list MarkdownChunkWithSummary;
  startTime : Z;
  finishTime : Z
}.

Section WithCollaborators.
Variable generateText : GenerateRequest -> Reasoning.
(** Writing the answer file of [jsonPath] and extracting its CSV: the row
    count, or the message of whichever of the two failed. *)
Variable extractToCSV : string -> string -> Settled Z.

Definition processHtmlJsonFile (file : FileInput) : FileResult :=
  if csvExists file then mkFileResult true true None None
  else
    let answer :=
      capture (agenticReaderWithEvents generateText question (fullContent file)
                 (chunks file) options (startTime file) (finishTime file)) in
    if negb (String.eqb answer "") then
      match extractToCSV (jsonPath file) answer with
      | Fulfilled rows => mkFileResult true false None (Some rows)
      | Rejected message => mkFileResult false false (Some message) None
      end
    else mkFileResult false false (Some "No answer was generated") None.

(** The three counts of the summary: successful, skipped, failed. *)
Definition processAllHtmlJsonFiles (files : list FileInput) : nat * nat * nat :=
  let results := processHtmlJsonFile <$> files in
  let successful := filter (fun r => success r && negb (skipped r) = true) results in
  let skippedFiles := filter (fun r => skipped r = true) results in
  let failed := filter (fun r => negb (success r) = true) results in
  (length successful, length skippedFiles, length failed).

(** [runAgenticReader]: the answer written to the answer file, if one is
    written. *)
Definition runAgenticReader (file : FileInput) : option string :=
  let answer :=
    capture (agenticReaderWithEvents generateText readerQuestion (fullContent file)
               (chunks file) options (startTime file) (finishTime file)) in
  if negb (String.eqb answer "") then Some answer else None.

End WithCollaborators.

End Batch.

(** ** Converting the dataset (convertDataset) *)

Module Dataset.

(** [convertDataset]: the counters after the loop over the PDF files. *)
Record Counters : Type := mkCounters { converted : Z; skipped : Z; failed : Z }.

Definition endsWith (s suffix : string) : bool :=
  (String.length suffix <=? String.length s)%nat
  && String.eqb
       (String.substring (String.length s - String.length suffix)
          (String.length suffix) s)
       suffix.

Section WithFiles.
(** Whether the [.html.json] file of a PDF exists, and the conversion. *)
Variable jsonExists : string -> bool.
Variable pdfToJSON : string -> Settled string.

Fixpoint convertLoop (pdfFiles : list string) (counters : Counters) : Counters :=
  match pdfFiles with
  | [] => counters
  | pdfFile :: rest =>
      if jsonExists pdfFile then
        convertLoop rest
          (mkCounters (converted counters) (skipped counters + 1) (failed counters))
      else
        match pdfToJSON pdfFile with
        | Fulfilled _ =>
            convertLoop rest
              (mkCounters (converted counters + 1) (skipped counters)
                 (failed counters))
        | Rejected _ =>
            convertLoop rest
              (mkCounters (converted counters) (skipped counters)
                 (failed counters + 1))
        end
  end.

Definition pdfFiles (files : list string) : list string :=
  filter (fun file => endsWith (JS.toLowerCase file) ".pdf" = true) files.

Definition convertDataset (files : list string) : Counters :=
  convertLoop (pdfFiles files) (mkCounters 0 0 0).

End WithFiles.
End Dataset.

(** ** Scoring extracted files (extractDOI, benchmarkFile) *)

Module Scoring.
Import Text.

Definition extractedSuffix : string := ".html_extracted.csv".

(** The characters the dot of a regular expression does not match, among
    the 8-bit codes: line feed and carriage return. *)
Definition isLineTerminator (c : ascii) : bool :=
  Ascii.eqb c lineFeed || Ascii.eqb c (ascii_of_nat 13).

Fixpoint anyChar (p : ascii -> bool) (s : string) : bool :=
  match s with
  | EmptyString => false
  | String c s' => p c || anyChar p s'
  end.

(** [s.replace(from, to)] for patterns of one character: the first
    occurrence only. *)
Fixpoint replaceFirst (from to : ascii) (s : string) : string :=
  match s with
  | EmptyString => EmptyString
  | String c s' =>
      if Ascii.eqb c from then String to s' else String c (replaceFirst from to s')
  end.

(** The group captured by [/^(.+)\.html_extracted\.csv$/], if the file name
    matches: a non-empty stem without line terminator before the suffix. *)
Definition matchExtracted (filename : string) : option string :=
  let n := String.length filename in
  let k := String.length extractedSuffix in
  let stem := String.substring 0 (n - k) filename in
  if (k <? n)%nat
     && String.eqb (String.substring (n - k) k filename) extractedSuffix
     && negb (anyChar isLineTerminator stem)
  then Some stem else None.

Definition extractDOI (filename : string) : string :=
  match matchExtracted filename with
  | None => ""
  | Some stem => replaceFirst "-" "/" stem
  end.

(** A member of a parsed row as a number is read from it: [parseFloat]
    turns an absent member into the text undefined first. *)
Definition field (entry : gmap string string) (key : string) : string :=
  default "undefined" (entry !! key).

(** [entry.link && entry.link.includes(doi) && entry[absorption] !== ''] *)
Definition relevant (doi : string) (entry : gmap string string) : bool :=
  match entry !! "link" with
  | Some link => negb (String.eqb link "") && includes link doi
  | None => false
  end
  && negb (bool_decide (entry !! "Absorption max (nm)" = Some "")).

Definition relevantGroundTruth (doi : string) (groundTruth : list (gmap string string))
    : list (gmap string string) :=
  List.filter (relevant doi) groundTruth.

Record MatchResult : Type := mkMatchResult {
  label : option string;
  absorption_match : bool;
  emission_match : bool;
  lifetime_match : bool;
  quantum_yield_match : bool;
  found_in_ground_truth : bool
}.

(** The result of [benchmarkFile] without its three ratios. *)
Record BenchmarkResult : Type := mkBenchmarkResult {
  doi : string;
  total_extracted : nat;
  total_ground_truth : nat;
  matched_entries : Z;
  matches : list MatchResult
}.

Section WithNumbers.
Context {number : Type} `{Benchmark.JSNumber number}.
Import Benchmark.

(** The predicate of [relevantGroundTruth.find]. *)
Definition sameAbsorption (extractedAbsorption : number) (gt : gmap string string)
    : bool :=
  let gtAbsorption := parseFloat (field gt "Absorption max (nm)") in
  if isNaN extractedAbsorption || isNaN gtAbsorption then false
  else
    let diff := abs (sub extractedAbsorption gtAbsorption) in
    let relativeDiff := abs (div diff gtAbsorption) in
    le diff oneTenth || le relativeDiff oneHundredth.

(** One turn of the loop over the extracted entries. *)
Definition scoreEntry (relevantGroundTruth : list (gmap string string))
    (state : Z * list MatchResult) (extracted : gmap string string)
    : Z * list MatchResult :=
  let '(matchedCount, matches) := state in
  let extractedAbsorption := parseFloat (field extracted "absorption_max_nm") in
  match List.find (sameAbsorption extractedAbsorption) relevantGroundTruth with
  | None =>
      (matchedCount,
       matches ++ [mkMatchResult (extracted !! "label") false false false false false])
  | Some groundTruthEntry =>
      let compare (mine theirs : string) :=
        compareNumerical (field extracted mine)
          (default "" (groundTruthEntry !! theirs)) None in
      let absComparison := compare "absorption_max_nm" "Absorption max (nm)" in
      let emiComparison := compare "emission_max_nm" "Emission max (nm)" in
      let lifetimeComparison := compare "lifetime_ns" "Lifetime (ns)" in
      let quantumYieldComparison := compare "quantum_yield" "Quantum yield" in
      let allMatch :=
        match_ absComparison && match_ emiComparison
        && match_ lifetimeComparison && match_ quantumYieldComparison in
      ((if allMatch then matchedCount + 1 else matchedCount),
       matches ++ [mkMatchResult (extracted !! "label") (match_ absComparison)
                     (match_ emiComparison) (match_ lifetimeComparison)
                     (match_ quantumYieldComparison) true])
  end.

Definition benchmarkFile (filename extractedContent : string)
    (groundTruth : list (gmap string string)) : BenchmarkResult :=
  let doi := extractDOI filename in
  let extractedData := Csv.parseCSV extractedContent in
  let relevantGroundTruth := relevantGroundTruth doi groundTruth in
  let '(matchedCount, matches) :=
    foldl (scoreEntry relevantGroundTruth) (0, []) extractedData in
  mkBenchmarkResult doi (length extractedData) (length relevantGroundTruth)
    matchedCount matches.

End WithNumbers.

(** Vocabulary: a result whose four comparisons all hold. *)
Definition allMatch (m : MatchResult) : bool :=
  absorption_match m && emission_match m && lifetime_match m && quantum_yield_match m.

(** What the loop of [benchmarkFile] keeps true of its two variables. *)
Definition scored (state : Z * list MatchResult) : Prop :=
  state.1 = Z.of_nat (length (filter (fun m => allMatch m = true) state.2))
  /\ Forall (fun m => found_in_ground_truth m = false -> allMatch m = false
                      /\ absorption_match m = false /\ emission_match m = false
                      /\ lifetime_match m = false /\ quantum_yield_match m = false)
       state.2.

End Scoring.

(** * Properties *)

(** ** Facts about the string operations *)

Section StringFacts.
Import JS.

Lemma length_toLowerCase s : String.length (toLowerCase s) = String.length s.
Proof. induction s as [|c s IH]; simpl; congruence. Qed.

Lemma length_append s t :
  String.length (s +:+ t) = (String.length s + String.length t)%nat.
Proof. induction s as [|c s IH]; simpl; [done|]. by rewrite IH. Qed.

Lemma length_substring n m s :
  String.length (String.substring n m s) = (m `min` (String.length s - n))%nat.
Proof.
  revert n m; induction s as [|c s IH]; intros [|n] [|m]; simpl; try lia.
  - rewrite IH. lia.
  - rewrite IH. lia.
  - rewrite IH. simpl. lia.
Qed.

Lemma substring_all s : String.substring 0 (String.length s) s = s.
Proof. induction s as [|c s IH]; simpl; congruence. Qed.

Lemma toLowerCase_substring n m s :
  toLowerCase (String.substring n m s) = String.substring n m (toLowerCase s).
Proof.
  revert n m; induction s as [|c s IH]; intros [|n] [|m]; simpl;
    rewrite ?IH; done.
Qed.

Lemma length_nonempty s : s <> "" -> (0 < String.length s)%nat.
Proof. destruct s; [done|simpl; lia]. Qed.

Lemma toLowerCase_nonempty s : s <> "" -> toLowerCase s <> "".
Proof. destruct s; [done|discriminate]. Qed.

Lemma length_toLowerCase_Z s : strLength (toLowerCase s) = strLength s.
Proof. unfold strLength. by rewrite length_toLowerCase. Qed.

Lemma strLength_nonneg s : 0 <= strLength s.
Proof. unfold strLength. lia. Qed.

Lemma slice_whole s : slice s 0 (strLength s) = s.
Proof.
  unfold slice, relIndex. pose proof (strLength_nonneg s).
  replace (0 <? 0) with false by done.
  destruct (strLength s <? 0) eqn:E; [lia|].
  rewrite Z.min_l, Z.min_id, Z.sub_0_r by lia.
  unfold strLength. rewrite Nat2Z.id. simpl. apply substring_all.
Qed.

Lemma slice_inside s a b :
  0 <= a -> a <= b -> b <= strLength s ->
  slice s a b = String.substring (Z.to_nat a) (Z.to_nat (b - a)) s.
Proof.
  intros Ha Hab Hb. unfold slice, relIndex.
  destruct (a <? 0) eqn:E1; [lia|]. destruct (b <? 0) eqn:E2; [lia|].
  by rewrite !Z.min_l by lia.
Qed.

Lemma strLength_slice s a b :
  0 <= a -> a <= b -> b <= strLength s -> strLength (slice s a b) = b - a.
Proof.
  intros Ha Hab Hb. rewrite slice_inside by done.
  unfold strLength in *. rewrite length_substring. lia.
Qed.

Lemma index_ge n s1 s2 m : String.index n s1 s2 = Some m -> (n <= m)%nat.
Proof.
  revert n m; induction s2 as [|c s2 IH]; intros [|n] m; simpl; try lia.
  - discriminate.
  - destruct (String.index n s1 s2) as [k|] eqn:E; [|discriminate].
    intros [= <-]. apply IH in E. lia.
Qed.

End StringFacts.

(** ** Chunker *)

Section ChunkerFacts.
Import JS Chunker.

Variable markdown : string.
Variables chunkSize stepSize : Z.

Lemma chunkLoop_windows fuel : forall i acc,
  0 < stepSize -> stepSize <= chunkSize -> 0 <= i < strLength markdown ->
  (Z.to_nat (strLength markdown - i) <= fuel)%nat ->
  exists new,
    chunkLoop fuel markdown chunkSize stepSize i acc = Some (acc ++ new)
    /\ windows markdown chunkSize stepSize i (length acc) new.
Proof.
  induction fuel as [|fuel IH]; intros i acc Hstep Hle Hi Hfuel; [lia|].
  simpl. destruct (i <? strLength markdown) eqn:Ei; [|lia].
  destruct (Z.min (i + chunkSize) (strLength markdown) >=? strLength markdown) eqn:Ee.
  - rewrite Z.min_r by lia. eexists. split; [done|]. apply windows_last. lia.
  - rewrite Z.min_l by lia.
    destruct (IH (i + stepSize)
                (acc ++ [mkChunk (slice markdown i (i + chunkSize))
                                 (Z.of_nat (length acc)) i (i + chunkSize) 0]))
      as (new & Hrun & Hwin); [done|done|lia|lia|].
    rewrite Hrun, <- app_assoc. eexists. split; [done|].
    apply windows_next; [lia|].
    rewrite length_app in Hwin. simpl in Hwin.
    by replace (S (length acc)) with (length acc + 1)%nat by lia.
Qed.

Lemma windows_head i k new :
  windows markdown chunkSize stepSize i k new ->
  exists c rest, new = c :: rest /\ startChar c = i.
Proof. destruct 1; eauto. Qed.

Lemma windows_cover i k new :
  stepSize <= chunkSize ->
  windows markdown chunkSize stepSize i k new ->
  forall p, i <= p < strLength markdown ->
    exists c, c ∈ new /\ startChar c <= p < endChar c.
Proof.
  intros Hle. induction 1 as [i k Hlast|i k rest Hmore Hrest IH]; intros p Hp.
  - eexists. split; [apply list_elem_of_here|]. simpl. lia.
  - destruct (Z.lt_ge_cases p (i + chunkSize)) as [Hin|Hout].
    + eexists. split; [apply list_elem_of_here|]. simpl. lia.
    + destruct (IH p) as (c & Hc & Hspan); [lia|].
      exists c. split; [by apply list_elem_of_further|done].
Qed.

Lemma windows_overlap i k new :
  windows markdown chunkSize stepSize i k new ->
  forall j c1 c2, new !! j = Some c1 -> new !! S j = Some c2 ->
    endChar c1 - startChar c2 = chunkSize - stepSize.
Proof.
  induction 1 as [i k Hlast|i k rest Hmore Hrest IH]; intros j c1 c2 H1 H2.
  - destruct j; discriminate.
  - destruct j as [|j].
    + apply windows_head in Hrest as (c & rest' & -> & Hstart).
      simpl in H1, H2. injection H1 as <-. injection H2 as <-. simpl. lia.
    + simpl in H1, H2. eauto.
Qed.

Lemma windows_fields i k new :
  0 <= i -> 0 < chunkSize -> 0 < stepSize ->
  windows markdown chunkSize stepSize i k new ->
  forall j c, new !! j = Some c ->
    chunkIndex c = Z.of_nat (k + j)
    /\ content c = slice markdown (startChar c) (endChar c)
    /\ 0 <= startChar c /\ endChar c <= strLength markdown.
Proof.
  intros Hi Hsize Hstep Hwin. revert Hi.
  induction Hwin as [i k Hlast|i k rest Hmore Hrest IH]; intros Hi j c Hj.
  - destruct j; [|done]. injection Hj as <-. simpl.
    repeat split; lia.
  - destruct j as [|j].
    + injection Hj as <-. simpl. repeat split; lia.
    + simpl in Hj. destruct (IH ltac:(lia) j c Hj) as (Hk & Hrest').
      split; [|done]. rewrite Hk. lia.
Qed.

End ChunkerFacts.

Lemma setTotalChunks_lookup chunks j :
  Chunker.setTotalChunks chunks !! j
  = (fun c => mkChunk (content c) (chunkIndex c) (startChar c) (endChar c)
                      (Z.of_nat (length chunks))) <$> chunks !! j.
Proof. unfold Chunker.setTotalChunks. apply list_lookup_fmap. Qed.

Lemma setTotalChunks_length chunks :
  length (Chunker.setTotalChunks chunks) = length chunks.
Proof. unfold Chunker.setTotalChunks. apply length_map. Qed.

Lemma windows_functional markdown chunkSize stepSize i k l1 l2 :
  Chunker.windows markdown chunkSize stepSize i k l1 ->
  Chunker.windows markdown chunkSize stepSize i k l2 -> l1 = l2.
Proof.
  intros H1; revert l2.
  induction H1 as [i k Hlast|i k rest Hmore Hrest IH]; intros l2 H2;
    inversion H2; subst; try lia; [done|].
  f_equal. by apply IH.
Qed.

(** With a non-positive step and a text longer than [chunkSize] the loop
    never reaches its exit: no amount of fuel yields a result. *)
Lemma chunkLoop_no_exit markdown chunkSize stepSize fuel : forall i acc,
  stepSize <= 0 -> i <= 0 -> 0 < JS.strLength markdown ->
  chunkSize < JS.strLength markdown ->
  Chunker.chunkLoop fuel markdown chunkSize stepSize i acc = None.
Proof.
  induction fuel as [|fuel IH]; intros i acc Hstep Hi Hlen Hsize; [done|].
  simpl. destruct (i <? JS.strLength markdown) eqn:Ei; [|lia].
  destruct (Z.min (i + chunkSize) (JS.strLength markdown) >=? JS.strLength markdown)
    eqn:Ee; [lia|].
  apply IH; lia.
Qed.

Lemma chunkMarkdown_never_returns markdown chunkSize overlap fuel :
  chunkSize <= overlap -> 0 < JS.strLength markdown ->
  chunkSize < JS.strLength markdown ->
  Chunker.chunkMarkdown fuel markdown chunkSize overlap = None.
Proof.
  intros Hcfg Hlen Hsize. unfold Chunker.chunkMarkdown.
  destruct (JS.strLength markdown <=? chunkSize) eqn:E; [lia|].
  rewrite chunkLoop_no_exit; [done|lia..].
Qed.

(** C1 (as amended). The chunker has no configuration check. When
    [chunkSize <= overlap] and the text is no longer than [chunkSize], it
    returns the single chunk that spans the whole text, whatever the fuel:
    the step size is never computed. *)
Theorem chunk_nonpositive_step_short_text (fuel : nat) (markdown : string)
    (chunkSize overlap : Z) :
  chunkSize <= overlap -> JS.strLength markdown <= chunkSize ->
  Chunker.chunkMarkdown fuel markdown chunkSize overlap
  = Some [mkChunk markdown 0 0 (JS.strLength markdown) 1].
Proof.
  intros _ Hshort. unfold Chunker.chunkMarkdown.
  destruct (JS.strLength markdown <=? chunkSize) eqn:E; [done|lia].
Qed.

Lemma chunk_nonpositive_step_short_text_witness :
  Chunker.chunkMarkdown 0 "abc" 5 10 = Some [mkChunk "abc" 0 0 (JS.strLength "abc") 1].
Proof. apply (chunk_nonpositive_step_short_text 0 "abc" 5 10); vm_compute; discriminate. Defined.

(** C1 (as stated) fails: with [chunkSize = 5 <= overlap = 10] the chunker
    returns a chunk for the text "abc" instead of failing. *)
Lemma chunk_nonpositive_step_accepted :
  5 <= 10 /\
  Chunker.htmlToMarkdownChunks (fun html => html) 100 "abc" (Some 5) (Some 10)
  = Some [mkChunk "abc" 0 0 3 1].
Proof. split; [lia|reflexivity]. Qed.

(** C3 (as amended). For [0 <= overlap < chunkSize] the chunker returns
    (given fuel for one iteration per character) a sequence whose spans
    cover [0, L); every two consecutive chunks, the final pair included,
    overlap by [chunkSize - stepSize] characters; every [totalChunks] is the
    length of the sequence; chunks are numbered by position and hold the
    text of their span; and a text no longer than [chunkSize] gives the one
    chunk [0, L) with [totalChunks = 1]. *)
Theorem chunk_coverage (markdown : string) (chunkSize overlap : Z) :
  0 <= overlap -> overlap < chunkSize ->
  exists chunks,
    (forall fuel, (String.length markdown <= fuel)%nat ->
       Chunker.chunkMarkdown fuel markdown chunkSize overlap = Some chunks)
    /\ (forall p, 0 <= p < JS.strLength markdown ->
          exists c, c ∈ chunks /\ startChar c <= p < endChar c)
    /\ (forall j c1 c2, chunks !! j = Some c1 -> chunks !! S j = Some c2 ->
          endChar c1 - startChar c2 = chunkSize - (chunkSize - overlap))
    /\ (forall c, c ∈ chunks -> totalChunks c = Z.of_nat (length chunks))
    /\ (forall j c, chunks !! j = Some c ->
          chunkIndex c = Z.of_nat j
          /\ content c = JS.slice markdown (startChar c) (endChar c)
          /\ 0 <= startChar c /\ endChar c <= JS.strLength markdown)
    /\ (JS.strLength markdown <= chunkSize ->
          chunks = [mkChunk markdown 0 0 (JS.strLength markdown) 1]).
Proof.
  intros Hov Hlt. pose proof (strLength_nonneg markdown) as Hlen.
  destruct (Z.le_gt_cases (JS.strLength markdown) chunkSize) as [Hshort|Hlong].
  - exists [mkChunk markdown 0 0 (JS.strLength markdown) 1].
    split; [|split; [|split; [|split; [|split]]]].
    + intros fuel _. unfold Chunker.chunkMarkdown.
      destruct (JS.strLength markdown <=? chunkSize) eqn:E; [done|lia].
    + intros p Hp. eexists. split; [apply list_elem_of_here|]. simpl. lia.
    + intros [|j] c1 c2 H1 H2; discriminate.
    + intros c Hc. apply list_elem_of_singleton in Hc as ->. done.
    + intros [|j] c Hj; [|done]. injection Hj as <-. simpl.
      rewrite slice_whole. repeat split; lia.
    + done.
  - destruct (chunkLoop_windows markdown chunkSize (chunkSize - overlap)
                (String.length markdown) 0 [])
      as (new & Hrun & Hwin); [lia|lia|lia|unfold JS.strLength; lia|].
    simpl in Hrun, Hwin.
    exists (Chunker.setTotalChunks new).
    split; [|split; [|split; [|split; [|split]]]].
    + intros fuel Hfuel. unfold Chunker.chunkMarkdown.
      destruct (JS.strLength markdown <=? chunkSize) eqn:E; [lia|].
      destruct (chunkLoop_windows markdown chunkSize (chunkSize - overlap) fuel 0 [])
        as (new' & Hrun' & Hwin'); [lia|lia|lia|unfold JS.strLength; lia|].
      simpl in Hrun', Hwin'. rewrite Hrun'.
      by rewrite (windows_functional _ _ _ _ _ _ _ Hwin' Hwin).
    + intros p Hp.
      destruct (windows_cover markdown chunkSize (chunkSize - overlap) 0 0%nat new
                  ltac:(lia) Hwin p Hp) as (c & Hc & Hspan).
      exists (mkChunk (content c) (chunkIndex c) (startChar c) (endChar c)
                      (Z.of_nat (length new))).
      split; [|done]. unfold Chunker.setTotalChunks.
      apply list_elem_of_fmap. by exists c.
    + intros j c1 c2 H1 H2. rewrite setTotalChunks_lookup in H1, H2.
      destruct (new !! j) as [d1|] eqn:E1; [|done].
      destruct (new !! S j) as [d2|] eqn:E2; [|done].
      injection H1 as <-. injection H2 as <-. simpl.
      rewrite (windows_overlap _ _ _ _ _ _ Hwin j d1 d2 E1 E2). lia.
    + intros c Hc. unfold Chunker.setTotalChunks in *.
      apply list_elem_of_fmap in Hc as (d & -> & _). simpl.
      by rewrite length_map.
    + intros j c Hj. rewrite setTotalChunks_lookup in Hj.
      destruct (new !! j) as [d|] eqn:E; [|done]. injection Hj as <-. simpl.
      exact (windows_fields markdown chunkSize (chunkSize - overlap) 0 0%nat new
               ltac:(lia) ltac:(lia) ltac:(lia) Hwin j d E).
    + lia.
Qed.

Lemma chunk_coverage_witness :
  exists chunks,
    (forall fuel, (String.length "xxxxxxxxxxxx" <= fuel)%nat ->
       Chunker.chunkMarkdown fuel "xxxxxxxxxxxx" 5 1 = Some chunks)
    /\ (forall p, 0 <= p < JS.strLength "xxxxxxxxxxxx" ->
          exists c, c ∈ chunks /\ startChar c <= p < endChar c)
    /\ (forall j c1 c2, chunks !! j = Some c1 -> chunks !! S j = Some c2 ->
          endChar c1 - startChar c2 = 5 - (5 - 1))
    /\ (forall c, c ∈ chunks -> totalChunks c = Z.of_nat (length chunks))
    /\ (forall j c, chunks !! j = Some c ->
          chunkIndex c = Z.of_nat j
          /\ content c = JS.slice "xxxxxxxxxxxx" (startChar c) (endChar c)
          /\ 0 <= startChar c /\ endChar c <= JS.strLength "xxxxxxxxxxxx")
    /\ (JS.strLength "xxxxxxxxxxxx" <= 5 ->
          chunks = [mkChunk "xxxxxxxxxxxx" 0 0 (JS.strLength "xxxxxxxxxxxx") 1]).
Proof. apply (chunk_coverage "xxxxxxxxxxxx" 5 1); lia. Defined.

(** C3 (as stated) fails for a negative overlap, which satisfies
    [overlap < chunkSize]: with [chunkSize = 2] and [overlap = -1] the
    windows of "abcde" are [0,2) and [3,5), and position 2 is in neither. *)
Lemma chunk_coverage_negative_overlap :
  -1 < 2 /\
  exists chunks,
    Chunker.chunkMarkdown 5 "abcde" 2 (-1) = Some chunks
    /\ chunks = [mkChunk "ab" 0 0 2 2; mkChunk "de" 1 3 5 2]
    /\ 0 <= 2 < JS.strLength "abcde"
    /\ forall c, c ∈ chunks -> ~ (startChar c <= 2 < endChar c).
Proof.
  split; [lia|]. exists [mkChunk "ab" 0 0 2 2; mkChunk "de" 1 3 5 2].
  split; [reflexivity|]. split; [reflexivity|].
  split; [vm_compute; split; [discriminate|reflexivity]|].
  intros c Hc.
  apply elem_of_cons in Hc as [Hc|Hc]; [subst c; simpl; lia|].
  apply list_elem_of_singleton in Hc. subst c; simpl; lia.
Qed.

Example chunk_small_example :
  Chunker.chunkMarkdown 3 "xxxxxxxxxxxx" 5 1
  = Some [mkChunk "xxxxx" 0 0 5 3; mkChunk "xxxxx" 1 4 9 3; mkChunk "xxxx" 2 8 12 3].
Proof. reflexivity. Qed.

(** The example of the specification: 12000 characters, windows of 5000,
    overlap 1000. *)
Example chunk_spec_example :
  (fun c => (chunkIndex c, startChar c, endChar c, totalChunks c))
    <$> default [] (Chunker.chunkMarkdown 3 (Tools.filler (Z.to_nat 12000)) 5000 1000)
  = [(0, 0, 5000, 3); (1, 4000, 9000, 3); (2, 8000, 12000, 3)].
Proof. vm_compute. reflexivity. Qed.

(** ** readContent *)

(** Discharges the first range check of [readContent] that is still in the
    goal when the position is known to lie in the document. *)
Ltac within_bounds :=
  match goal with
  | |- context [(?a <? 0) || (?a >? ?b)] =>
      replace ((a <? 0) || (a >? b)) with false
        by (symmetry; apply orb_false_iff; split; lia)
  end.

(** C4 (as amended). [readContent] never throws; its result is decided by
    three checks in order. A start or an end outside [0, L] gives a failure
    whose message names the offending position and the document length [L].
    Positions inside [0, L] with [endPosition <= startPosition] give a
    failure whose message names the two positions (and not the length).
    Otherwise the result is the substring [startPosition, endPosition) with
    [hasMoreBefore] true iff [startPosition > 0] and [hasMoreAfter] true iff
    [endPosition < L]; for a non-empty document [readContent 0 L] is the
    whole content with both flags false. *)
Theorem readContent_validation (fullContent : string) (s e : Z) (ctx : Tools.Context) :
  let L := JS.strLength fullContent in
  let result := fst (Tools.readContent fullContent s e ctx) in
  ((s < 0 \/ L < s) ->
     result = Tools.ReadFailure
       ("Invalid startPosition " +:+ JS.show s +:+ ". Document length is "
          +:+ JS.show L +:+ " characters."))
  /\ (0 <= s <= L -> (e < 0 \/ L < e) ->
     result = Tools.ReadFailure
       ("Invalid endPosition " +:+ JS.show e +:+ ". Document length is "
          +:+ JS.show L +:+ " characters."))
  /\ (0 <= s <= L -> 0 <= e <= L -> e <= s ->
     result = Tools.ReadFailure
       ("startPosition (" +:+ JS.show s +:+ ") must be less than endPosition ("
          +:+ JS.show e +:+ ")."))
  /\ (0 <= s -> s < e -> e <= L ->
     exists m,
       result = Tools.ReadSuccess
                  (String.substring (Z.to_nat s) (Z.to_nat (e - s)) fullContent) m
       /\ Tools.startPosition m = s /\ Tools.endPosition m = e
       /\ Tools.contentLength m = e - s /\ Tools.totalDocumentLength m = L
       /\ (Tools.hasMoreBefore m = true <-> 0 < s)
       /\ (Tools.hasMoreAfter m = true <-> e < L))
  /\ (s = 0 -> e = L -> 0 < L ->
     result = Tools.ReadSuccess fullContent (Tools.mkReadMetadata 0 L L L false false)).
Proof.
  intros L result. subst result. unfold Tools.readContent, Tools.bind. simpl.
  fold L. pose proof (strLength_nonneg fullContent) as HL. fold L in HL.
  split; [|split; [|split; [|split]]].
  - intros Hs. destruct ((s <? 0) || (s >? L)) eqn:E; [done|].
    apply orb_false_iff in E as [E1 E2]. lia.
  - intros Hs He. within_bounds.
    destruct ((e <? 0) || (e >? L)) eqn:E; [done|].
    apply orb_false_iff in E as [E1 E2]. lia.
  - intros Hs He Hord. do 2 within_bounds.
    destruct (s >=? e) eqn:E; [done|lia].
  - intros Hs Hord He. do 2 within_bounds.
    destruct (s >=? e) eqn:E; [lia|]. simpl.
    rewrite strLength_slice, slice_inside by lia.
    eexists. split; [done|]. simpl. repeat split; try done; lia.
  - intros -> -> Hpos. do 2 within_bounds.
    destruct (0 >=? L) eqn:E; [lia|]. simpl. unfold L.
    rewrite slice_whole. fold L. do 3 f_equal; lia.
Qed.

Lemma readContent_validation_witness :
  exists m,
    fst (Tools.readContent "abcdefghij" 2 5 (Tools.mkContext None None))
    = Tools.ReadSuccess
        (String.substring (Z.to_nat 2) (Z.to_nat (5 - 2)) "abcdefghij") m
    /\ Tools.startPosition m = 2 /\ Tools.endPosition m = 5
    /\ Tools.contentLength m = 5 - 2
    /\ Tools.totalDocumentLength m = JS.strLength "abcdefghij"
    /\ (Tools.hasMoreBefore m = true <-> 0 < 2)
    /\ (Tools.hasMoreAfter m = true <-> 5 < JS.strLength "abcdefghij").
Proof.
  apply (readContent_validation "abcdefghij" 2 5 (Tools.mkContext None None));
    [lia|lia|vm_compute; discriminate].
Defined.

(** C4 (as stated) fails: on a document of 10 characters [readContent 5 5]
    answers a failure whose message does not contain the document length. *)
Lemma readContent_order_failure_omits_length :
  exists message,
    fst (Tools.readContent "abcdefghij" 5 5 (Tools.mkContext None None))
    = Tools.ReadFailure message
    /\ message = "startPosition (5) must be less than endPosition (5)."
    /\ JS.indexOf message (JS.show (JS.strLength "abcdefghij")) 0 = -1.
Proof. eexists. split; [reflexivity|]. split; reflexivity. Qed.

(** ** searchContent *)

Section SearchFacts.
Import JS Tools.

Variables fullContent searchText : string.

Lemma occursAt_lower p :
  occursAt fullContent searchText p <->
  0 <= p /\ String.substring (Z.to_nat p) (String.length (toLowerCase searchText))
             (toLowerCase fullContent) = toLowerCase searchText.
Proof.
  unfold occursAt. by rewrite toLowerCase_substring, length_toLowerCase.
Qed.

Lemma occursAt_in_range p :
  searchText <> "" ->
  occursAt fullContent searchText p ->
  0 <= p /\ p + strLength searchText <= strLength fullContent.
Proof.
  intros Hne [Hp Heq]. split; [done|].
  apply (f_equal String.length) in Heq.
  rewrite !length_toLowerCase, length_substring in Heq.
  pose proof (length_nonempty searchText Hne). unfold strLength. lia.
Qed.

Lemma indexOf_found cur m :
  0 <= cur <= strLength fullContent ->
  String.index (Z.to_nat cur) (toLowerCase searchText) (toLowerCase fullContent)
    = Some m ->
  cur <= Z.of_nat m
  /\ occursAt fullContent searchText (Z.of_nat m)
  /\ forall q, cur <= q < Z.of_nat m -> ~ occursAt fullContent searchText q.
Proof.
  intros Hcur Hidx. split; [|split].
  - apply index_ge in Hidx. lia.
  - apply occursAt_lower. split; [lia|]. rewrite Nat2Z.id.
    by apply String.index_correct1 with (n := Z.to_nat cur).
  - intros q Hq Hocc. apply occursAt_lower in Hocc as [_ Hocc].
    revert Hocc.
    apply (String.index_correct2 _ _ _ _ Hidx); lia.
Qed.

Lemma indexOf_absent cur q :
  searchText <> "" -> 0 <= cur ->
  String.index (Z.to_nat cur) (toLowerCase searchText) (toLowerCase fullContent)
    = None ->
  cur <= q -> ~ occursAt fullContent searchText q.
Proof.
  intros Hne Hcur Hidx Hq Hocc. apply occursAt_lower in Hocc as [_ Hocc].
  revert Hocc.
  apply (String.index_correct3 _ _ _ _ Hidx); [by apply toLowerCase_nonempty|lia].
Qed.

Lemma searchLoop_scan maxResults fuel : forall cur acc,
  0 <= cur ->
  (Z.to_nat (maxResults - Z.of_nat (length acc)) < fuel)%nat ->
  exists new final,
    searchLoop fuel fullContent searchText (toLowerCase searchText) maxResults cur acc
      = Some (acc ++ new, final)
    /\ scan fullContent searchText cur new final
    /\ (length new <= Z.to_nat (maxResults - Z.of_nat (length acc)))%nat.
Proof.
  induction fuel as [|fuel IH]; intros cur acc Hcur Hfuel; [lia|].
  simpl.
  destruct ((Z.of_nat (length acc) <? maxResults) && (cur <? strLength fullContent))
    eqn:Hguard.
  - apply andb_true_iff in Hguard as [Hroom Hin].
    unfold indexOf. rewrite length_toLowerCase_Z.
    rewrite Z.max_l, Z.min_l by lia.
    destruct (String.index (Z.to_nat cur) (toLowerCase searchText)
                (toLowerCase fullContent)) as [m|] eqn:Hidx.
    + destruct (Z.eqb_spec (Z.of_nat m) (-1)) as [Hm|_]; [lia|].
      destruct (indexOf_found cur m ltac:(lia) Hidx) as (Hge & Hocc & Hfirst).
      destruct (IH (Z.of_nat m + strLength searchText)
                  (acc ++ [mkHit (Z.of_nat m)
                             (contextAround fullContent searchText (Z.of_nat m))]))
        as (new & final & Hrun & Hscan & Hlen).
      { unfold strLength. lia. }
      { rewrite length_app. simpl. lia. }
      unfold contextAround in Hrun at 1. rewrite Hrun, <- app_assoc.
      exists (mkHit (Z.of_nat m) (contextAround fullContent searchText (Z.of_nat m))
                :: new), final.
      split; [done|]. split; [by apply scan_hit|].
      rewrite length_app in Hlen. simpl in *. lia.
    + simpl. exists [], cur. rewrite app_nil_r.
      split; [done|]. split; [apply scan_stop|simpl; lia].
  - exists [], cur. rewrite app_nil_r.
    split; [done|]. split; [apply scan_stop|simpl; lia].
Qed.

End SearchFacts.

Section ScanFacts.
Import JS Tools.

Variables fullContent searchText : string.

Lemma scan_resume from hits final :
  scan fullContent searchText from hits final ->
  final = match last hits with
          | Some h => position h + strLength searchText
          | None => from
          end.
Proof.
  induction 1 as [from|from p rest final Hge Hocc Hfirst Hrest IH]; [done|].
  rewrite last_cons. destruct (last rest); done.
Qed.

Lemma scan_final_ge from hits final :
  scan fullContent searchText from hits final -> from <= final.
Proof.
  induction 1 as [from|from p rest final Hge Hocc Hfirst Hrest IH]; [lia|].
  pose proof (strLength_nonneg searchText). lia.
Qed.

Lemma scan_occurs from hits final :
  scan fullContent searchText from hits final ->
  forall h, h ∈ hits ->
    occursAt fullContent searchText (position h)
    /\ context h = contextAround fullContent searchText (position h).
Proof.
  induction 1 as [from|from p rest final Hge Hocc Hfirst Hrest IH]; intros h Hh.
  - by apply elem_of_nil in Hh.
  - apply elem_of_cons in Hh as [->|Hh]; [done|by apply IH].
Qed.

Lemma scan_first from hits final :
  scan fullContent searchText from hits final ->
  forall h, head hits = Some h ->
    from <= position h
    /\ forall q, from <= q < position h -> ~ occursAt fullContent searchText q.
Proof. destruct 1; intros h Hh; [done|]. injection Hh as <-. done. Qed.

Lemma scan_order from hits final :
  scan fullContent searchText from hits final ->
  forall j h1 h2, hits !! j = Some h1 -> hits !! S j = Some h2 ->
    position h1 + strLength searchText <= position h2
    /\ forall q, position h1 + strLength searchText <= q < position h2 ->
         ~ occursAt fullContent searchText q.
Proof.
  induction 1 as [from|from p rest final Hge Hocc Hfirst Hrest IH];
    intros j h1 h2 H1 H2; [done|].
  destruct j as [|j].
  - injection H1 as <-. simpl in *.
    apply (scan_first _ _ _ Hrest). by destruct rest.
  - simpl in H1, H2. eauto.
Qed.

(** The flag computed after the loop. *)
Lemma hasMore_spec cur :
  searchText <> "" -> 0 <= cur ->
  (cur <? strLength fullContent)
  && negb (indexOf (toLowerCase fullContent) (toLowerCase searchText) cur =? -1)
  = true
  <-> exists p, cur <= p /\ occursAt fullContent searchText p.
Proof.
  intros Hne Hcur. rewrite andb_true_iff, negb_true_iff. split.
  - intros [Hin Hidx]. unfold indexOf in Hidx.
    rewrite length_toLowerCase_Z, Z.max_l, Z.min_l in Hidx by lia.
    destruct (String.index (Z.to_nat cur) (toLowerCase searchText)
                (toLowerCase fullContent)) as [m|] eqn:E; [|done].
    destruct (indexOf_found fullContent searchText cur m ltac:(lia) E)
      as (Hge & Hocc & _).
    by exists (Z.of_nat m).
  - intros (p & Hp & Hocc).
    destruct (occursAt_in_range _ _ _ Hne Hocc) as [_ Hend].
    pose proof (length_nonempty searchText Hne) as Hlen.
    unfold strLength in Hend.
    assert (cur < strLength fullContent) as Hin by (unfold strLength; lia).
    split; [lia|]. unfold indexOf.
    rewrite length_toLowerCase_Z, Z.max_l, Z.min_l by lia.
    destruct (String.index (Z.to_nat cur) (toLowerCase searchText)
                (toLowerCase fullContent)) as [m|] eqn:E.
    + destruct (Z.eqb_spec (Z.of_nat m) (-1)); [lia|done].
    + by destruct (indexOf_absent fullContent searchText cur p Hne Hcur E Hp).
Qed.

End ScanFacts.

Lemma searchContent_scan fuel fullContent searchText (maxResults : option Z) ctx :
  (Z.to_nat (default 5%Z maxResults) < fuel)%nat ->
  exists hits final,
    Tools.scan fullContent searchText 0 hits final
    /\ (length hits <= Z.to_nat (default 5%Z maxResults))%nat
    /\ fst (Tools.searchContent fuel fullContent searchText maxResults ctx)
       = Some (Tools.mkSearchResult true searchText (Z.of_nat (length hits)) hits
                 ((final <? JS.strLength fullContent)
                  && negb (JS.indexOf (JS.toLowerCase fullContent)
                             (JS.toLowerCase searchText) final =? -1))).
Proof.
  intros Hfuel.
  destruct (searchLoop_scan fullContent searchText (default 5 maxResults) fuel 0 [])
    as (hits & final & Hrun & Hscan & Hlen); [lia|simpl; lia|].
  simpl in Hrun, Hlen. exists hits, final.
  split; [done|]. split; [lia|].
  unfold Tools.searchContent, Tools.bind. simpl. by rewrite Hrun.
Qed.

(** C5. The scan takes its positions from the lower-cased document and
    bounds them by the length of the document itself. In the document
    U+0130 U+0130 a a, whose lower case is two code units longer, the letter
    a stands at positions 2 and 3; the search for it answers one hit, at
    position 4, which is no position of the document, and [hasMore] false
    although the second a is not among the results. *)
Theorem searchContent_after_dotted_capital :
  Wide.searchContent 6 Wide.dottedDocument [Wide.Latin "a"] None
  = Some (Wide.mkSearchResult true [Wide.Latin "a"] 1
            [Wide.mkHit 4 (Wide.dots ++ Wide.dottedDocument ++ Wide.dots)] false)
  /\ Wide.strLength Wide.dottedDocument = 4
  /\ Wide.dottedDocument !! 2%nat = Some (Wide.Latin "a")
  /\ Wide.dottedDocument !! 3%nat = Some (Wide.Latin "a")
  /\ Wide.toLowerCase Wide.dottedDocument
     = [Wide.Latin "i"; Wide.CombiningDot; Wide.Latin "i"; Wide.CombiningDot;
        Wide.Latin "a"; Wide.Latin "a"].
Proof. repeat split; reflexivity. Qed.

Example searchContent_capped :
  fst (Tools.searchContent 3 "Yield, yield and YIELD" "yield" (Some 2)
         (Tools.mkContext None None))
  = Some (Tools.mkSearchResult true "yield" 2
            [Tools.mkHit 0 "...Yield, yield and YIELD...";
             Tools.mkHit 7 "...Yield, yield and YIELD..."] true).
Proof. reflexivity. Qed.

(** C6 (as amended). The context of a hit at position [p] is the text from
    [max 0 (p - 50)] to [min L (p + |searchText| + 50)] between two "..."
    markers: at most 50 characters before the match, the match itself, and
    at most 50 characters after it. When the match lies at least 50
    characters from both ends of the document the window is
    [|searchText| + 100] characters wide. *)
Theorem searchContent_context (fuel : nat) (fullContent searchText : string)
    (maxResults : option Z) (ctx : Tools.Context) :
  (Z.to_nat (default 5%Z maxResults) < fuel)%nat ->
  exists r,
    fst (Tools.searchContent fuel fullContent searchText maxResults ctx) = Some r
    /\ forall h, h ∈ Tools.results r ->
         let p := Tools.position h in
         let L := JS.strLength fullContent in
         let n := JS.strLength searchText in
         Tools.context h
           = "..." +:+ JS.slice fullContent (Z.max 0 (p - 50)) (Z.min L (p + n + 50))
                   +:+ "..."
         /\ (50 <= p -> p + n + 50 <= L ->
             Tools.context h
               = "..." +:+ String.substring (Z.to_nat (p - 50)) (Z.to_nat (n + 100))
                             fullContent +:+ "..."
             /\ JS.strLength (Tools.context h) = 3 + (50 + n + 50) + 3).
Proof.
  intros Hfuel.
  destruct (searchContent_scan fuel fullContent searchText maxResults ctx Hfuel)
    as (hits & final & Hscan & Hlen & Hres).
  eexists. split; [exact Hres|]. simpl. intros h Hh.
  destruct (scan_occurs _ _ _ _ _ Hscan h Hh) as [Hocc Hctx].
  split; [done|]. intros Hleft Hright.
  pose proof (strLength_nonneg searchText) as Hn.
  rewrite Hctx. unfold Tools.contextAround.
  rewrite Z.max_r, Z.min_r by lia.
  split.
  - rewrite slice_inside by lia. do 3 f_equal. lia.
  - unfold JS.strLength at 1. rewrite !length_append.
    fold (JS.strLength searchText).
    pose proof (strLength_slice fullContent (Tools.position h - 50)
                  (Tools.position h + JS.strLength searchText + 50)
                  ltac:(lia) ltac:(lia) ltac:(lia)) as Hslice.
    unfold JS.strLength in Hslice at 1. simpl. lia.
Qed.

Lemma searchContent_context_witness :
  exists r,
    fst (Tools.searchContent 6 Tools.exampleDocument "quantum yield" (Some 5)
           (Tools.mkContext None None)) = Some r
    /\ forall h, h ∈ Tools.results r ->
         let p := Tools.position h in
         let L := JS.strLength Tools.exampleDocument in
         let n := JS.strLength "quantum yield" in
         Tools.context h
           = "..." +:+ JS.slice Tools.exampleDocument (Z.max 0 (p - 50))
                         (Z.min L (p + n + 50)) +:+ "..."
         /\ (50 <= p -> p + n + 50 <= L ->
             Tools.context h
               = "..." +:+ String.substring (Z.to_nat (p - 50)) (Z.to_nat (n + 100))
                             Tools.exampleDocument +:+ "..."
             /\ JS.strLength (Tools.context h) = 3 + (50 + n + 50) + 3).
Proof.
  apply (searchContent_context 6 Tools.exampleDocument "quantum yield" (Some 5)
           (Tools.mkContext None None)).
  simpl. lia.
Defined.

(** C6 (as stated) fails on the example of the specification: the phrase
    "quantum yield" at positions 120 and 980, [maxResults = 5]. Both hits are
    returned and [hasMore] is false, but each context holds 113 characters
    between its markers (50 + 13 + 50), not 100. *)
Lemma searchContent_context_is_not_100_wide :
  exists r,
    fst (Tools.searchContent 6 Tools.exampleDocument "quantum yield" (Some 5)
           (Tools.mkContext None None)) = Some r
    /\ Tools.position <$> Tools.results r = [120; 980]
    /\ Tools.hasMore r = false
    /\ (fun h => JS.strLength (Tools.context h) - 3 - 3) <$> Tools.results r
       = [113; 113]
    /\ 113 <> 100.
Proof.
  eexists. split; [vm_compute; reflexivity|].
  split; [vm_compute; reflexivity|]. split; [vm_compute; reflexivity|].
  split; [vm_compute; reflexivity|lia].
Qed.

(** ** Exploration controller *)

(** C7. When the history holds more than 20 messages, the next reasoning
    call receives its first message followed by its last 20 messages, 21 in
    all, everything between them dropped; a history of at most 20 messages
    is passed on unchanged. *)
Theorem messagesForStep_truncates {Message : Type} (messages : list Message) :
  ((20 < length messages)%nat ->
     exists first older recent,
       messages = first :: older ++ recent
       /\ length recent = 20%nat
       /\ Controller.messagesForStep messages = first :: recent
       /\ length (Controller.messagesForStep messages) = 21%nat)
  /\ ((length messages <= 20)%nat -> Controller.messagesForStep messages = messages).
Proof.
  unfold Controller.messagesForStep, Controller.prepareStep. split.
  - intros Hlong. destruct (Z.ltb_spec 20 (Z.of_nat (length messages))); [|lia].
    destruct messages as [|first rest]; [simpl in Hlong; lia|].
    assert (length (first :: rest) - 20 = S (length rest - 20))%nat as ->
      by (simpl in *; lia).
    simpl in Hlong. simpl.
    exists first, (take (length rest - 20) rest), (drop (length rest - 20) rest).
    rewrite take_drop, length_drop. repeat split; lia.
  - intros Hshort. destruct (Z.ltb_spec 20 (Z.of_nat (length messages))); [lia|done].
Qed.

Lemma messagesForStep_truncates_witness :
  exists first older recent,
    seq 0 25 = first :: older ++ recent
    /\ length recent = 20%nat
    /\ Controller.messagesForStep (seq 0 25) = first :: recent
    /\ length (Controller.messagesForStep (seq 0 25)) = 21%nat.
Proof. apply (messagesForStep_truncates (seq 0 25)). rewrite length_seq. lia. Defined.

Example messagesForStep_after_25_turns :
  Controller.messagesForStep (seq 0 25) = 0%nat :: seq 5 20.
Proof. reflexivity. Qed.

Section Quiet.
Import Tools Controller.

Lemma quiet_ret {A} (a : A) : quiet (ret a).
Proof.
  intros ctx. exists []. split; [|constructor]. simpl.
  destruct (emitted ctx); simpl; by rewrite ?app_nil_r.
Qed.

Lemma quiet_bind {A B} (m : M A) (k : A -> M B) :
  quiet m -> (forall a, quiet (k a)) -> quiet (bind m k).
Proof.
  intros Hm Hk ctx. unfold bind.
  destruct (Hm ctx) as (new1 & E1 & F1).
  destruct (m ctx) as [a ctx1]. simpl in E1.
  destruct (Hk a ctx1) as (new2 & E2 & F2).
  exists (new1 ++ new2). split; [|by apply Forall_app].
  rewrite E2, E1. destruct (emitted ctx); simpl; by rewrite ?app_assoc.
Qed.

Lemma quiet_withStats f : quiet (withStats f).
Proof.
  intros ctx. exists []. split; [|constructor]. simpl.
  destruct (emitted ctx); simpl; by rewrite ?app_nil_r.
Qed.

Lemma quiet_emitEvent name d :
  String.eqb name "answer" = false -> String.eqb name "error" = false ->
  quiet (emitEvent name d).
Proof.
  intros Ha He ctx. exists [mkEvent name d]. split; [done|].
  repeat constructor; done.
Qed.

(** One step of a proof that a tool is quiet: peel a bind, or close a
    leaf. Every event name in the tools is a literal, so the side
    conditions of [quiet_emitEvent] compute. *)
Ltac quiet_step :=
  first [ apply quiet_ret
        | apply quiet_withStats
        | apply quiet_emitEvent; reflexivity
        | apply quiet_bind; [|intros ?] ].

Lemma quiet_readContent doc s e : quiet (readContent doc s e).
Proof. unfold readContent. repeat quiet_step. repeat case_match; repeat quiet_step. Qed.

Lemma quiet_readFigure url q reply : quiet (readFigure url q reply).
Proof. unfold readFigure. repeat quiet_step. destruct reply; repeat quiet_step. Qed.

Lemma quiet_readTable url reply : quiet (readTable url reply).
Proof. unfold readTable. repeat quiet_step. destruct reply; repeat quiet_step. Qed.

Lemma quiet_searchContent fuel doc text m : quiet (searchContent fuel doc text m).
Proof.
  unfold searchContent. repeat quiet_step.
  destruct (searchLoop _ _ _ _ _ _ _) as [[hits final]|]; repeat quiet_step.
Qed.

Lemma quiet_execute doc call : quiet (execute doc call).
Proof.
  destruct call; simpl;
    (apply quiet_bind; [|intros _; apply quiet_ret]);
    auto using quiet_readContent, quiet_readFigure, quiet_readTable,
               quiet_searchContent.
Qed.

Lemma quiet_executeAll doc calls : quiet (executeAll doc calls).
Proof.
  induction calls as [|call calls IH]; simpl; [apply quiet_ret|].
  apply quiet_bind; [apply quiet_execute|done].
Qed.

Lemma countEvents_app p evs1 evs2 :
  countEvents p (evs1 ++ evs2) = (countEvents p evs1 + countEvents p evs2)%nat.
Proof. unfold countEvents. by rewrite filter_app, length_app. Qed.

Lemma countEvents_ongoing evs :
  Forall ongoing evs -> countEvents isAnswer evs = 0%nat /\ countEvents isError evs = 0%nat.
Proof.
  unfold countEvents. induction 1 as [|e evs [Ha He] _ [IHa IHe]]; [done|].
  rewrite !filter_cons. split.
  - destruct (decide (isAnswer e = true)); [congruence|done].
  - destruct (decide (isError e = true)); [congruence|done].
Qed.

End Quiet.

Section Session.
Import Tools Controller.

Variable generateText : GenerateRequest -> Reasoning.

(** The events of a session: three status events, the events of the tool
    calls, and a tail that depends on how the reasoning call settled. *)
Lemma session_trace question fullContent chunks options startTime finishTime :
  exists toolEvents tail,
    agenticReaderWithEvents generateText question fullContent chunks options
      startTime finishTime
    = [mkEvent "status"
         (StatusData "starting" "Initializing agentic reader..." None None);
       mkEvent "status"
         (StatusData "document_loaded"
            ("Document loaded: " +:+ JS.show (JS.strLength fullContent)
               +:+ " characters")
            (Some (JS.strLength fullContent)) None);
       mkEvent "status"
         (StatusData "exploring" "Agent is exploring the document..." None None)]
      ++ toolEvents ++ tail
    /\ Forall ongoing toolEvents
    /\ match settled (generateText
                        (mkRequest (default "gpt-5-mini" (model options))
                           (systemPrompt question chunks) (userPrompt question)
                           (max_iterations options))) with
       | Fulfilled (text, steps) =>
           exists status stats,
             event status = "status"
             /\ tail = [status; mkEvent "answer" (AnswerData text)]
                       ++ (if default false (include_metadata options)
                           then [mkEvent "metadata"
                                   (MetadataData (finishTime - startTime) stats)]
                           else [])
                       ++ [mkEvent "complete"
                             (CompleteData "Agentic reading completed successfully")]
       | Rejected message =>
           tail = [mkEvent "error"
                     (ErrorData (if String.eqb message ""
                                 then "An error occurred during reading"
                                 else message))]
       end.
Proof.
  unfold agenticReaderWithEvents.
  set (result := generateText _).
  set (e1 := mkEvent "status" (StatusData "starting" _ _ _)).
  set (e2 := mkEvent "status" (StatusData "document_loaded" _ _ _)).
  set (e3 := mkEvent "status" (StatusData "exploring" _ _ _)).
  unfold bind at 1 2 3. simpl.
  unfold bind at 1.
  destruct (quiet_executeAll fullContent (toolCalls result)
              (mkContext (Some (mkStats 0 0 0 0)) (Some [e1; e2; e3])))
    as (toolEvents & Hemitted & Hongoing).
  destruct (executeAll fullContent (toolCalls result) _) as [[] ctx].
  simpl in Hemitted.
  exists toolEvents.
  destruct (settled result) as [[text steps]|message].
  - destruct (default false (include_metadata options)).
    + eexists. split; [|split; [done|]].
      * unfold bind, withStats, currentStats, emitEvent. simpl.
        rewrite Hemitted. simpl.
        rewrite <- !app_assoc. simpl. reflexivity.
      * do 2 eexists. split; [|simpl; reflexivity]. reflexivity.
    + eexists. split; [|split; [done|]].
      * unfold bind, withStats, currentStats, emitEvent, ret. simpl.
        rewrite Hemitted. simpl.
        rewrite <- !app_assoc. simpl. reflexivity.
      * exists (mkEvent "status"
                  (StatusData "exploration_complete"
                     ("Agent completed exploration in " +:+ JS.show (Z.of_nat steps)
                        +:+ " steps")
                     None
                     (Some (default (mkStats 0 0 0 0)
                              (setSearchIterations (Z.of_nat steps) <$> stats ctx))))),
               (mkStats 0 0 0 0).
        split; reflexivity.
  - eexists. split; [|split; [done|reflexivity]].
    unfold emitEvent. simpl. rewrite Hemitted. simpl. reflexivity.
Qed.

End Session.

(** C2. Whatever the reasoning call does (which tools it calls, what the
    vision collaborator replies, whether the call settles with a text or
    with a failure), the events a session emits hold exactly one [answer]
    and no [error] when the call returned, and exactly one [error] and no
    [answer] when it failed: one terminal event in all. *)
Theorem session_emits_one_terminal_event
    (generateText : Controller.GenerateRequest -> Controller.Reasoning)
    (question fullContent : string) (chunks : list MarkdownChunkWithSummary)
    (options : Controller.AgenticReaderOptions) (startTime finishTime : Z) :
  let events :=
    Controller.agenticReaderWithEvents generateText question fullContent chunks
      options startTime finishTime in
  let answers := Controller.countEvents Controller.isAnswer events in
  let errors := Controller.countEvents Controller.isError events in
  (answers + errors = 1)%nat
  /\ match Controller.settled
             (generateText
                (Controller.mkRequest
                   (default "gpt-5-mini" (Controller.model options))
                   (Controller.systemPrompt question chunks)
                   (Controller.userPrompt question)
                   (Controller.max_iterations options))) with
     | Fulfilled _ => answers = 1%nat /\ errors = 0%nat
     | Rejected _ => answers = 0%nat /\ errors = 1%nat
     end.
Proof.
  intros events answers errors. subst answers errors events.
  destruct (session_trace generateText question fullContent chunks options
              startTime finishTime) as (toolEvents & tail & -> & Hongoing & Htail).
  rewrite !countEvents_app.
  destruct (countEvents_ongoing toolEvents Hongoing) as [-> ->].
  destruct (Controller.settled _) as [[text steps]|message].
  - destruct Htail as (status & stats & Hstatus & ->).
    assert (Controller.countEvents Controller.isAnswer
              ([status; mkEvent "answer" (AnswerData text)]
               ++ (if default false (Controller.include_metadata options)
                   then [mkEvent "metadata" (MetadataData (finishTime - startTime) stats)]
                   else [])
               ++ [mkEvent "complete"
                     (CompleteData "Agentic reading completed successfully")])
            = 1%nat
            /\ Controller.countEvents Controller.isError
                 ([status; mkEvent "answer" (AnswerData text)]
                  ++ (if default false (Controller.include_metadata options)
                      then [mkEvent "metadata"
                              (MetadataData (finishTime - startTime) stats)]
                      else [])
                  ++ [mkEvent "complete"
                        (CompleteData "Agentic reading completed successfully")])
               = 0%nat) as [-> ->].
    { destruct status as [name payload]. simpl in Hstatus. subst name.
      destruct (default false (Controller.include_metadata options)); split; reflexivity. }
    split; [reflexivity|split; reflexivity].
  - subst tail. split; [reflexivity|split; reflexivity].
Qed.

(** A session that reads, fails to analyse a figure, searches and answers. *)
Example session_with_answer :
  Controller.agenticReaderWithEvents
    (fun _ => Controller.mkReasoning
                [Tools.CallReadContent 0 5;
                 Tools.CallReadFigure "fig.png" "axis?" (Rejected "timeout");
                 Tools.CallSearchContent "WORLD" None]
                (Fulfilled ("It is 42.", 3%nat)))
    "q" "hello world" [] (Controller.mkOptions (Some 3) None (Some true)) 100 250
  = [mkEvent "status"
       (StatusData "starting" "Initializing agentic reader..." None None);
     mkEvent "status"
       (StatusData "document_loaded" "Document loaded: 11 characters" (Some 11) None);
     mkEvent "status"
       (StatusData "exploring" "Agent is exploring the document..." None None);
     mkEvent "tool_call" (ReadContentCall 0 5);
     mkEvent "content_read" (ContentReadData 0 5 5);
     mkEvent "tool_call" (ReadFigureCall "fig.png" "axis?");
     mkEvent "tool_call" (SearchContentCall "WORLD" 5);
     mkEvent "search_complete" (SearchCompleteData "WORLD" 1);
     mkEvent "status"
       (StatusData "exploration_complete" "Agent completed exploration in 3 steps"
          None (Some (mkStats 3 1 1 3)));
     mkEvent "answer" (AnswerData "It is 42.");
     mkEvent "metadata" (MetadataData 150 (mkStats 3 1 1 3));
     mkEvent "complete" (CompleteData "Agentic reading completed successfully")].
Proof. reflexivity. Qed.

(** A session whose reasoning call fails after one tool call. *)
Example session_with_error :
  Controller.agenticReaderWithEvents
    (fun _ => Controller.mkReasoning [Tools.CallReadContent 0 50] (Rejected ""))
    "q" "hello world" [] (Controller.mkOptions (Some 3) None None) 100 250
  = [mkEvent "status"
       (StatusData "starting" "Initializing agentic reader..." None None);
     mkEvent "status"
       (StatusData "document_loaded" "Document loaded: 11 characters" (Some 11) None);
     mkEvent "status"
       (StatusData "exploring" "Agent is exploring the document..." None None);
     mkEvent "tool_call" (ReadContentCall 0 50);
     mkEvent "error" (ErrorData "An error occurred during reading")].
Proof. reflexivity. Qed.

(** ** Summarizer *)

Section WorkerFacts.
Import Summarizer.

Lemma firstAwaiting_Some ws w :
  firstAwaiting ws = Some w -> exists item, ws !! w = Some (Awaiting item).
Proof.
  revert w; induction ws as [|[item|] ws IH]; intros w; simpl; [done| |].
  - intros [= <-]. by exists item.
  - destruct (firstAwaiting ws) as [k|]; [|done].
    intros [= <-]. by apply IH.
Qed.

Lemma firstAwaiting_None ws :
  firstAwaiting ws = None -> Forall (fun w => w = Finished) ws.
Proof.
  induction ws as [|[item|] ws IH]; simpl; [constructor|done|].
  destruct (firstAwaiting ws); [done|]. intros _. constructor; auto.
Qed.

Lemma nextWorker_Some choice ws w :
  nextWorker choice ws = Some w -> exists item, ws !! w = Some (Awaiting item).
Proof.
  unfold nextWorker. destruct (ws !! choice) as [[item|]|] eqn:E;
    [|apply firstAwaiting_Some..].
  intros [= <-]. by exists item.
Qed.

Lemma nextWorker_None choice ws :
  nextWorker choice ws = None -> Forall (fun w => w = Finished) ws.
Proof.
  unfold nextWorker. destruct (ws !! choice) as [[item|]|];
    [done|apply firstAwaiting_None..].
Qed.

Lemma awaiting_insert ws w item w' :
  ws !! w = Some (Awaiting item) ->
  (awaiting (<[w := w']> ws) + 1
   = awaiting ws + (if isAwaiting w' then 1 else 0))%nat.
Proof.
  unfold awaiting. revert w; induction ws as [|v ws IH]; intros [|w] Hw; [done..| |].
  - injection Hw as ->. simpl. rewrite !filter_cons.
    destruct w'; simpl; repeat case_decide; simpl; try done; lia.
  - simpl in Hw. simpl. rewrite !filter_cons.
    specialize (IH w Hw). case_decide; simpl; lia.
Qed.

Lemma awaiting_app ws w :
  awaiting (ws ++ [w]) = (awaiting ws + (if isAwaiting w then 1 else 0))%nat.
Proof.
  unfold awaiting. rewrite filter_app, length_app, filter_cons, filter_nil.
  destruct w; simpl; repeat case_decide; simpl; try done; lia.
Qed.

Lemma startWorkers_pending count : forall p,
  pending (startWorkers count p) = pending p.
Proof.
  induction count as [|count IH]; intros p; [done|]. simpl.
  destruct (queue p) as [|item rest] eqn:E; simpl; rewrite IH;
    unfold pending; simpl; rewrite awaiting_app, E; simpl; lia.
Qed.

Lemma startWorkers_workers count : forall p,
  length (workers (startWorkers count p)) = (length (workers p) + count)%nat.
Proof.
  induction count as [|count IH]; intros p; simpl; [lia|].
  destruct (pull (queue p)) as [w queue']. rewrite IH. simpl.
  rewrite length_app. simpl. lia.
Qed.

Lemma elem_of_insert_inv {A} (l : list A) i x y :
  x ∈ <[i := y]> l -> x = y \/ x ∈ l.
Proof.
  intros Hx. apply list_elem_of_lookup in Hx as [j Hj].
  apply list_lookup_insert_Some in Hj as [(-> & -> & _)|[_ Hj]]; [by left|].
  right. by apply list_elem_of_lookup_2 with j.
Qed.

End WorkerFacts.

Section PoolFacts.
Import Summarizer.

Variable generateText : nat -> string -> string -> Settled string.
Variable modelName : string.
Variable chunks : list MarkdownChunk.

Abbreviation consistent := (consistent generateText modelName chunks).

Lemma consistent_initial :
  consistent (mkPool (imap (fun index chunk => (chunk, index)) chunks)
                     (replicate (length chunks) None) [] 0).
Proof.
  split; unfold unsettled; cbn [queue results workers].
  - apply length_replicate.
  - intros c i [Hq|Hw]; [|by apply elem_of_nil in Hw].
    apply list_elem_of_lookup in Hq as [j Hj].
    rewrite list_lookup_imap in Hj.
    destruct (chunks !! j) as [c'|] eqn:E; [|done].
    simpl in Hj. by injection Hj as -> ->.
  - intros i c Hc. left. left. apply list_elem_of_lookup. exists i.
    by rewrite list_lookup_imap, Hc.
  - constructor.
Qed.

Lemma consistent_startWorkers count : forall p,
  consistent p -> consistent (startWorkers count p).
Proof.
  induction count as [|count IH]; intros p [Hlen Hitems Hslots Hqueue]; [done|].
  simpl. destruct (queue p) as [|item rest] eqn:E; simpl; apply IH.
  - split; simpl; [done| | |done].
    + intros c i [Hq|Hw]; [by apply elem_of_nil in Hq|].
      apply elem_of_app in Hw as [Hw|Hw]; [apply Hitems; by right|].
      by apply list_elem_of_singleton in Hw.
    + intros i c Hc. destruct (Hslots i c Hc) as [[Hq|Hw]|Hdone]; [| |by right].
      * rewrite E in Hq. by apply elem_of_nil in Hq.
      * left. right. apply elem_of_app. by left.
  - split; simpl; [done| | |].
    + intros c i [Hq|Hw].
      * apply Hitems. left. rewrite E. by apply list_elem_of_further.
      * apply elem_of_app in Hw as [Hw|Hw]; [apply Hitems; by right|].
        apply list_elem_of_singleton in Hw. injection Hw as <-.
        apply Hitems. left. rewrite E. apply list_elem_of_here.
    + intros i c Hc. destruct (Hslots i c Hc) as [[Hq|Hw]|Hdone]; [| |by right].
      * rewrite E in Hq. apply elem_of_cons in Hq as [<-|Hq].
        -- left. right. apply elem_of_app. right. apply list_elem_of_here.
        -- left. by left.
      * left. right. apply elem_of_app. by left.
    + intros _. apply Forall_app. split; [|by repeat constructor].
      by apply Hqueue.
Qed.

Lemma consistent_settle w p p' :
  consistent p -> settle generateText modelName w p = Some (Fulfilled p') ->
  consistent p' /\ length (workers p') = length (workers p)
  /\ S (pending p') = pending p.
Proof.
  intros [Hlen Hitems Hslots Hqueue]. unfold settle.
  destruct (workers p !! w) as [[[c i]|]|] eqn:Hw; [|done..].
  destruct (generateText i modelName (summaryPrompt c)) as [text|] eqn:Hreply;
    [|done].
  assert (chunks !! i = Some c) as Hci.
  { apply Hitems. right. by apply list_elem_of_lookup_2 with w. }
  assert (i < length (results p))%nat as Hi.
  { rewrite Hlen. by apply lookup_lt_Some with c. }
  assert (w < length (workers p))%nat as Hwlt by by apply lookup_lt_Some in Hw.
  destruct (queue p) as [|item rest] eqn:E; simpl; intros [= <-];
    (split; [split; simpl|split; simpl]).
  - by rewrite length_insert.
  - intros c' j [Hq|Hin]; [by apply elem_of_nil in Hq|].
    apply elem_of_insert_inv in Hin as [?|Hin]; [done|]. apply Hitems. by right.
  - intros j c' Hj. destruct (decide (j = i)) as [->|Hne].
    + right. exists text. rewrite Hci in Hj. injection Hj as <-.
      split; [done|]. by rewrite list_lookup_insert_eq.
    + rewrite list_lookup_insert_ne by done.
      destruct (Hslots j c' Hj) as [[Hq|Hin]|Hdone]; [| |by right].
      * rewrite E in Hq. by apply elem_of_nil in Hq.
      * left. right. apply list_elem_of_lookup in Hin as [k Hk].
        apply list_elem_of_lookup. exists k. simpl.
        rewrite list_lookup_insert_ne; [done|]. intros <-. congruence.
  - done.
  - by rewrite length_insert.
  - unfold pending. simpl. rewrite E. simpl.
    pose proof (awaiting_insert (workers p) w (c, i) Finished Hw). simpl in *. lia.
  - by rewrite length_insert.
  - intros c' j [Hq|Hin].
    + apply Hitems. left. rewrite E. by apply list_elem_of_further.
    + apply elem_of_insert_inv in Hin as [Heq|Hin].
      * injection Heq as <-. apply Hitems. left. rewrite E. apply list_elem_of_here.
      * apply Hitems. by right.
  - intros j c' Hj. destruct (decide (j = i)) as [->|Hne].
    + right. exists text. rewrite Hci in Hj. injection Hj as <-.
      split; [done|]. by rewrite list_lookup_insert_eq.
    + rewrite list_lookup_insert_ne by done.
      destruct (Hslots j c' Hj) as [[Hq|Hin]|Hdone]; [| |by right].
      * rewrite E in Hq. apply elem_of_cons in Hq as [<-|Hq].
        -- left. right. apply list_elem_of_lookup. exists w. simpl.
           by rewrite list_lookup_insert_eq.
        -- left. by left.
      * left. right. apply list_elem_of_lookup in Hin as [k Hk].
        apply list_elem_of_lookup. exists k. simpl.
        rewrite list_lookup_insert_ne; [done|]. intros <-. congruence.
  - intros _. apply Forall_insert; [|done]. by apply Hqueue.
  - by rewrite length_insert.
  - unfold pending. simpl. rewrite E. simpl.
    pose proof (awaiting_insert (workers p) w (c, i) (Awaiting item) Hw).
    simpl in *. lia.
Qed.

Lemma settle_rejected w p message :
  consistent p -> settle generateText modelName w p = Some (Rejected message) ->
  exists i c, chunks !! i = Some c
              /\ generateText i modelName (summaryPrompt c) = Rejected message.
Proof.
  intros [_ Hitems _ _]. unfold settle.
  destruct (workers p !! w) as [[[c i]|]|] eqn:Hw; [|done..].
  destruct (generateText i modelName (summaryPrompt c)) as [text|msg] eqn:Hreply.
  - by destruct (pull (queue p)).
  - intros [= <-]. exists i, c. split; [|done].
    apply Hitems. right. by apply list_elem_of_lookup_2 with w.
Qed.

(** When no worker is suspended any more, every call has been answered
    and every slot is filled. *)
Lemma consistent_finished p :
  consistent p -> (workers p <> [] \/ chunks = []) ->
  Forall (fun w => w = Finished) (workers p) ->
  (forall i c, chunks !! i = Some c ->
     exists text, generateText i modelName (summaryPrompt c) = Fulfilled text)
  /\ results p = summarised generateText modelName chunks.
Proof.
  intros [Hlen Hitems Hslots Hqueue] Hsome Hfinished.
  assert (forall item, ~ unsettled p item) as Hnone.
  { intros item [Hq|Hw].
    - destruct Hsome as [Hws| ->].
      + destruct (workers p) as [|v ws] eqn:E; [done|].
        assert (queue p <> []) as Hne by (intros Heq; rewrite Heq in Hq;
                                          by apply elem_of_nil in Hq).
        specialize (Hqueue Hne).
        apply Forall_cons in Hqueue as [Hv _].
        apply Forall_cons in Hfinished as [-> _]. done.
      + destruct item as [c i].
        assert (([] : list MarkdownChunk) !! i = Some c) as Habs
          by (apply Hitems; by left).
        done.
    - rewrite Forall_forall in Hfinished. by specialize (Hfinished _ Hw). }
  split.
  - intros i c Hc. destruct (Hslots i c Hc) as [Hun|(text & Hreply & _)];
      [by destruct (Hnone (c, i))|by exists text].
  - apply list_eq. intros i. unfold summarised. rewrite list_lookup_imap.
    destruct (chunks !! i) as [c|] eqn:Hc; simpl.
    + destruct (Hslots i c Hc) as [Hun|(text & Hreply & Hslot)];
        [by destruct (Hnone (c, i))|].
      by rewrite Hslot, Hreply.
    + apply lookup_ge_None. rewrite Hlen. by apply lookup_ge_None.
Qed.

(** A run of the pool ends, whatever the completion order: with every
    slot filled when every call was answered, and rejected with the
    message of a failed call otherwise. *)
Lemma awaitAll_outcome fuel : forall schedule p,
  consistent p -> (workers p <> [] \/ chunks = []) ->
  (pending p < fuel)%nat ->
  ((forall i c, chunks !! i = Some c ->
      exists text, generateText i modelName (summaryPrompt c) = Fulfilled text)
   /\ awaitAll generateText modelName fuel schedule p
      = Some (Fulfilled (summarised generateText modelName chunks)))
  \/ exists i c message,
       chunks !! i = Some c
       /\ generateText i modelName (summaryPrompt c) = Rejected message
       /\ awaitAll generateText modelName fuel schedule p = Some (Rejected message).
Proof.
  induction fuel as [|fuel IH]; intros schedule p Hp Hsome Hfuel; [lia|].
  simpl. destruct (nextWorker (hd 0%nat schedule) (workers p)) as [w|] eqn:Hnext.
  - apply nextWorker_Some in Hnext as [[c i] Hw].
    destruct (settle generateText modelName w p) as [[p'|message]|] eqn:Hsettle.
    + destruct (consistent_settle w p p' Hp Hsettle) as (Hp' & Hws & Hpending).
      apply IH; [done| |lia].
      destruct Hsome as [Hne|?]; [left|by right].
      destruct (workers p), (workers p'); done.
    + right. destruct (settle_rejected w p message Hp Hsettle) as (j & c' & Hj & Hrej).
      by exists j, c', message.
    + unfold settle in Hsettle. rewrite Hw in Hsettle.
      destruct (generateText i modelName (summaryPrompt c));
        [by destruct (pull (queue p))|done].
  - left. apply nextWorker_None in Hnext.
    destruct (consistent_finished p Hp Hsome Hnext) as [Hall ->]. done.
Qed.

Lemma generateChunkSummaries_outcome fuel schedule fullContent maxConcurrency :
  1 <= default 10 maxConcurrency -> (length chunks < fuel)%nat ->
  ((forall i c, chunks !! i = Some c ->
      exists text, generateText i modelName (summaryPrompt c) = Fulfilled text)
   /\ generateChunkSummaries generateText modelName fuel schedule chunks fullContent
        maxConcurrency
      = Some (Fulfilled (summarised generateText modelName chunks)))
  \/ exists i c message,
       chunks !! i = Some c
       /\ generateText i modelName (summaryPrompt c) = Rejected message
       /\ generateChunkSummaries generateText modelName fuel schedule chunks
            fullContent maxConcurrency
          = Some (Rejected message).
Proof.
  intros Hmc Hfuel. unfold generateChunkSummaries, initialPool.
  apply awaitAll_outcome.
  - apply consistent_startWorkers, consistent_initial.
  - destruct chunks as [|c cs] eqn:E; [by right|left].
    intros Hnil. apply (f_equal length) in Hnil.
    rewrite startWorkers_workers in Hnil. simpl in Hnil. lia.
  - rewrite startWorkers_pending. unfold pending. simpl.
    rewrite length_imap. unfold awaiting. simpl. lia.
Qed.

End PoolFacts.

(** C8. With at least one worker and fuel for one step per chunk, if the
    generation call for some chunk fails then, whatever the completion
    order, the operation is rejected: it returns no result array, complete
    or partial. *)
Theorem summary_failure_is_fatal
    (generateText : nat -> string -> string -> Settled string) (modelName : string)
    (fuel : nat) (schedule : list nat) (chunks : list MarkdownChunk)
    (fullContent : string) (maxConcurrency : option Z)
    (i : nat) (c : MarkdownChunk) (message : string) :
  1 <= default 10 maxConcurrency ->
  (length chunks < fuel)%nat ->
  chunks !! i = Some c ->
  generateText i modelName (Summarizer.summaryPrompt c) = Rejected message ->
  exists failure,
    Summarizer.generateChunkSummaries generateText modelName fuel schedule chunks
      fullContent maxConcurrency
    = Some (Rejected failure).
Proof.
  intros Hmc Hfuel Hc Hfail.
  destruct (generateChunkSummaries_outcome generateText modelName chunks fuel schedule
              fullContent maxConcurrency Hmc Hfuel)
    as [[Hall _]|(j & c' & failure & _ & _ & Hrun)].
  - destruct (Hall i c Hc) as [text Htext]. congruence.
  - by exists failure.
Qed.

Lemma summary_failure_is_fatal_witness :
  exists failure,
    Summarizer.generateChunkSummaries Summarizer.flakyTransport "gpt-5-mini" 4 [1; 0]%nat
      Summarizer.exampleChunks "alpha beta gamma" (Some 2)
    = Some (Rejected failure).
Proof.
  apply (summary_failure_is_fatal Summarizer.flakyTransport "gpt-5-mini" 4 [1; 0]%nat
           Summarizer.exampleChunks "alpha beta gamma" (Some 2) 1
           (mkChunk "beta" 1 4 8 3) "rate limited");
    [simpl; lia|simpl; lia|reflexivity|reflexivity].
Defined.

(** C9. With at least one worker, fuel for one step per chunk and every
    call answered, the operation returns, for every completion order and
    every worker count, the same array: slot [i] holds chunk [i] of the
    input with the summary generated for slot [i]. The order of the result
    is the order of the input, and so the order of [chunkIndex]. *)
Theorem summaries_in_chunk_order
    (generateText : nat -> string -> string -> Settled string) (modelName : string)
    (fuel : nat) (schedule : list nat) (chunks : list MarkdownChunk)
    (fullContent : string) (maxConcurrency : option Z) :
  1 <= default 10 maxConcurrency ->
  (length chunks < fuel)%nat ->
  (forall i c, chunks !! i = Some c ->
     exists text, generateText i modelName (Summarizer.summaryPrompt c) = Fulfilled text) ->
  exists results,
    Summarizer.generateChunkSummaries generateText modelName fuel schedule chunks
      fullContent maxConcurrency
    = Some (Fulfilled results)
    /\ results = Summarizer.summarised generateText modelName chunks
    /\ length results = length chunks
    /\ (forall i c, chunks !! i = Some c ->
          exists text,
            generateText i modelName (Summarizer.summaryPrompt c) = Fulfilled text
            /\ results !! i = Some (Some (mkSummarised c text)))
    /\ (fun slot => chunkIndex <$> (chunk <$> slot)) <$> results
       = (fun c => Some (chunkIndex c)) <$> chunks.
Proof.
  intros Hmc Hfuel Hall.
  destruct (generateChunkSummaries_outcome generateText modelName chunks fuel schedule
              fullContent maxConcurrency Hmc Hfuel)
    as [[_ Hrun]|(j & c' & failure & Hj & Hfail & _)].
  - eexists. split; [exact Hrun|]. split; [done|].
    unfold Summarizer.summarised. split; [apply length_imap|]. split.
    + intros i c Hc. destruct (Hall i c Hc) as [text Htext]. exists text.
      split; [done|]. rewrite list_lookup_imap, Hc. simpl. by rewrite Htext.
    + apply list_eq. intros i.
      rewrite !list_lookup_fmap, list_lookup_imap. by destruct (chunks !! i).
  - destruct (Hall j c' Hj) as [text Htext]. congruence.
Qed.

Lemma summaries_in_chunk_order_witness :
  exists results,
    Summarizer.generateChunkSummaries Summarizer.steadyTransport "gpt-5-mini" 4
      [2; 0; 1]%nat Summarizer.exampleChunks "alpha beta gamma" (Some 8)
    = Some (Fulfilled results)
    /\ results = Summarizer.summarised Summarizer.steadyTransport "gpt-5-mini"
                   Summarizer.exampleChunks
    /\ length results = length Summarizer.exampleChunks
    /\ (forall i c, Summarizer.exampleChunks !! i = Some c ->
          exists text,
            Summarizer.steadyTransport i "gpt-5-mini" (Summarizer.summaryPrompt c)
            = Fulfilled text
            /\ results !! i = Some (Some (mkSummarised c text)))
    /\ (fun slot => chunkIndex <$> (chunk <$> slot)) <$> results
       = (fun c => Some (chunkIndex c)) <$> Summarizer.exampleChunks.
Proof.
  apply (summaries_in_chunk_order Summarizer.steadyTransport "gpt-5-mini" 4
           [2; 0; 1]%nat Summarizer.exampleChunks "alpha beta gamma" (Some 8));
    [simpl; lia|simpl; lia|].
  intros i c _. by eexists.
Defined.

(** The same chunks under one worker and under eight, with different
    completion orders. *)
Example summaries_one_worker_or_eight :
  Summarizer.generateChunkSummaries Summarizer.steadyTransport "gpt-5-mini" 4 []
    Summarizer.exampleChunks "alpha beta gamma" (Some 1)
  = Summarizer.generateChunkSummaries Summarizer.steadyTransport "gpt-5-mini" 4
      [2; 1; 0]%nat Summarizer.exampleChunks "alpha beta gamma" (Some 8)
  /\ Summarizer.generateChunkSummaries Summarizer.steadyTransport "gpt-5-mini" 4
       [2; 1; 0]%nat Summarizer.exampleChunks "alpha beta gamma" (Some 8)
     = Some (Fulfilled
               [Some (mkSummarised (mkChunk "alpha" 0 0 5 3) "summary of slot 0");
                Some (mkSummarised (mkChunk "beta" 1 4 8 3) "summary of slot 1");
                Some (mkSummarised (mkChunk "gamma" 2 7 12 3) "summary of slot 2")]).
Proof. split; reflexivity. Qed.

(** Without a worker nothing is awaited and the array comes back with
    every slot empty. *)
Example summaries_without_workers :
  Summarizer.generateChunkSummaries Summarizer.steadyTransport "gpt-5-mini" 4 []
    Summarizer.exampleChunks "alpha beta gamma" (Some 0)
  = Some (Fulfilled [None; None; None]).
Proof. reflexivity. Qed.

(** ** Benchmark *)

(** C10. Whatever was extracted and whatever the tolerance, the comparison
    against an empty ground-truth string is a match (with no error value). *)
Theorem compareNumerical_empty_ground_truth
    {number : Type} `{Benchmark.JSNumber number}
    (extracted : string) (tolerance : option number) :
  Benchmark.match_ (Benchmark.compareNumerical extracted "" tolerance) = true
  /\ Benchmark.compareNumerical extracted "" tolerance
     = Benchmark.mkComparison true None.
Proof. split; reflexivity. Qed.


(** * Further properties *)

(** ** Chunker: spans, count and reassembly *)

Section ChunkShape.
Import JS Chunker Rejoin.

Variable markdown : string.
Variables chunkSize overlap : Z.
Hypothesis overlap_nonneg : 0 <= overlap.
Hypothesis overlap_small : overlap < chunkSize.

Lemma chunkMarkdown_windows fuel :
  chunkSize < strLength markdown -> (String.length markdown <= fuel)%nat ->
  exists new,
    chunkMarkdown fuel markdown chunkSize overlap = Some (setTotalChunks new)
    /\ windows markdown chunkSize (chunkSize - overlap) 0 0 new.
Proof.
  intros Hlong Hfuel. unfold chunkMarkdown.
  destruct (strLength markdown <=? chunkSize) eqn:E; [lia|].
  destruct (chunkLoop_windows markdown chunkSize (chunkSize - overlap) fuel 0 [])
    as (new & Hrun & Hwin); [lia|lia|lia|unfold strLength in *; lia|].
  simpl in Hrun, Hwin. rewrite Hrun. by exists new.
Qed.

Lemma windows_spans i k new :
  0 <= i < strLength markdown ->
  windows markdown chunkSize (chunkSize - overlap) i k new ->
  (forall j c, new !! j = Some c ->
     startChar c = i + Z.of_nat j * (chunkSize - overlap)
     /\ endChar c = Z.min (startChar c + chunkSize) (strLength markdown)
     /\ 0 <= startChar c < endChar c
     /\ strLength (content c) = endChar c - startChar c)
  /\ (exists c, last new = Some c /\ endChar c = strLength markdown).
Proof.
  intros Hi Hwin. revert Hi.
  induction Hwin as [i k Hlast|i k rest Hmore Hrest IH]; intros Hi.
  - split.
    + intros [|j] c Hj; [|done]. injection Hj as <-. simpl.
      rewrite strLength_slice by lia. repeat split; lia.
    + eexists. split; [done|]. done.
  - destruct IH as [IHspans IHlast]; [lia|]. split.
    + intros [|j] c Hj.
      * injection Hj as <-. simpl. rewrite strLength_slice by lia.
        repeat split; lia.
      * simpl in Hj. destruct (IHspans j c Hj) as (Hs & He & Hord & Hlen).
        repeat split; try done; lia.
    + destruct IHlast as (c & Hc & Hend). exists c. split; [|done].
      rewrite last_cons. by rewrite Hc.
Qed.

Lemma windows_count i k new :
  0 < chunkSize - overlap ->
  windows markdown chunkSize (chunkSize - overlap) i k new ->
  Z.of_nat (length new)
  = if strLength markdown <=? i + chunkSize then 1
    else (strLength markdown - i - chunkSize + (chunkSize - overlap) - 1)
           / (chunkSize - overlap) + 1.
Proof.
  intros Hstep. set (step := chunkSize - overlap) in *.
  induction 1 as [i k Hlast|i k rest Hmore Hrest IH].
  - destruct (Z.leb_spec (strLength markdown) (i + chunkSize)); [done|lia].
  - destruct (Z.leb_spec (strLength markdown) (i + chunkSize)); [lia|].
    simpl length. rewrite Nat2Z.inj_succ, IH.
    destruct (Z.leb_spec (strLength markdown) (i + step + chunkSize)).
    + assert ((strLength markdown - i - chunkSize + step - 1) / step = 1) as ->; [|lia].
      symmetry. apply Z.div_unique with (strLength markdown - i - chunkSize - 1); lia.
    + replace (strLength markdown - i - chunkSize + step - 1)
        with ((strLength markdown - (i + step) - chunkSize + step - 1) + 1 * step)
        by lia.
      rewrite Z.div_add by lia. lia.
Qed.

End ChunkShape.

Section SubstringFacts.
Import JS Rejoin.

Lemma append_empty_r s : s +:+ "" = s.
Proof.
  induction s as [|c s IH]; [done|].
  change (String c (s +:+ "") = String c s). by rewrite IH.
Qed.

Lemma append_assoc s t u : (s +:+ t) +:+ u = s +:+ t +:+ u.
Proof.
  induction s as [|c s IH]; [done|].
  change (String c ((s +:+ t) +:+ u) = String c (s +:+ t +:+ u)). by rewrite IH.
Qed.

Lemma append_cons c s t : String c s +:+ t = String c (s +:+ t).
Proof. done. Qed.

Lemma substring_empty n m : String.substring n m "" = "".
Proof. by destruct n, m. Qed.

Lemma substring_append n m1 m2 s :
  String.substring n m1 s +:+ String.substring (n + m1) m2 s
  = String.substring n (m1 + m2) s.
Proof.
  revert n m1 m2; induction s as [|c s IH]; intros n m1 m2.
  - by rewrite !substring_empty.
  - destruct n as [|n]; [destruct m1 as [|m1]|]; simpl.
    + done.
    + rewrite append_cons. f_equal. apply (IH 0%nat).
    + apply IH.
Qed.

Lemma substring_substring a b n m s :
  (a + b <= m)%nat ->
  String.substring a b (String.substring n m s) = String.substring (n + a) b s.
Proof.
  revert a b n m; induction s as [|c s IH]; intros a b n m Hle.
  - by rewrite !substring_empty.
  - destruct n as [|n]; simpl; [|by apply IH].
    destruct m as [|m].
    + assert (a = 0 /\ b = 0)%nat as [-> ->] by lia. done.
    + destruct a as [|a]; simpl.
      * destruct b as [|b]; [done|]. f_equal. apply (IH 0%nat b 0%nat m). lia.
      * apply (IH a b 0%nat m). lia.
Qed.

Lemma sliceFrom_slice s a b n :
  0 <= a -> 0 <= n -> a + n <= b -> b <= strLength s ->
  sliceFrom (slice s a b) n = slice s (a + n) b.
Proof.
  intros Ha Hn Hab Hb. unfold sliceFrom.
  rewrite strLength_slice by lia.
  rewrite (slice_inside s a b), (slice_inside s (a + n) b) by lia.
  rewrite slice_inside.
  - rewrite substring_substring by lia. f_equal; lia.
  - done.
  - lia.
  - unfold strLength. rewrite length_substring. unfold strLength in Hb. lia.
Qed.

Lemma slice_append s a b c :
  0 <= a -> a <= b -> b <= c -> c <= strLength s ->
  slice s a b +:+ slice s b c = slice s a c.
Proof.
  intros Ha Hab Hbc Hc. rewrite !slice_inside by lia.
  replace (Z.to_nat b) with (Z.to_nat a + Z.to_nat (b - a))%nat by lia.
  rewrite substring_append. f_equal. lia.
Qed.

End SubstringFacts.

Section RejoinFacts.
Import JS Chunker Rejoin.

Variable markdown : string.
Variables chunkSize overlap : Z.
Hypothesis overlap_nonneg : 0 <= overlap.
Hypothesis overlap_small : overlap < chunkSize.

Lemma rejoin_setTotalChunks chunks :
  rejoin overlap (setTotalChunks chunks) = rejoin overlap chunks.
Proof.
  destruct chunks as [|c rest]; [done|]. unfold setTotalChunks.
  generalize (Z.of_nat (length (c :: rest))). intros total. simpl. f_equal.
  induction rest as [|c' rest IH]; simpl; [done|]. by rewrite IH.
Qed.

Lemma windows_tail i k rest :
  0 <= i -> i + overlap < strLength markdown ->
  windows markdown chunkSize (chunkSize - overlap) i k rest ->
  foldr (fun c acc => sliceFrom (content c) overlap +:+ acc) "" rest
  = slice markdown (i + overlap) (strLength markdown).
Proof.
  intros Hi Hlt Hwin. revert Hi Hlt.
  induction Hwin as [i k Hlast|i k rest Hmore Hrest IH]; intros Hi Hlt; simpl.
  - rewrite append_empty_r. apply sliceFrom_slice; lia.
  - rewrite IH by lia. rewrite sliceFrom_slice by lia.
    replace (i + (chunkSize - overlap) + overlap) with (i + chunkSize) by lia.
    apply slice_append; lia.
Qed.

Lemma windows_rejoin new :
  0 < strLength markdown ->
  windows markdown chunkSize (chunkSize - overlap) 0 0 new ->
  rejoin overlap new = markdown.
Proof.
  intros Hlen Hwin. inversion Hwin as [i k Hlast|i k rest Hmore Hrest]; subst; simpl.
  - by rewrite append_empty_r, slice_whole.
  - rewrite (windows_tail (0 + (chunkSize - overlap)) 1%nat rest
               ltac:(lia) ltac:(lia) Hrest).
    replace (0 + (chunkSize - overlap) + overlap) with (0 + chunkSize) by lia.
    rewrite slice_append by lia. apply slice_whole.
Qed.

End RejoinFacts.

(** X1. For [0 <= overlap < chunkSize] and a non-empty text, chunk [j]
    starts at [j * (chunkSize - overlap)] and ends [chunkSize] characters
    later or at the end of the text, whichever comes first; it is never
    empty, its content is the slice of the text at its span and has exactly
    the length of the span (so at most [chunkSize]), and the last chunk ends
    where the text ends. *)
Theorem chunk_spans (fuel : nat) (markdown : string) (chunkSize overlap : Z) :
  0 <= overlap -> overlap < chunkSize -> 0 < JS.strLength markdown ->
  (String.length markdown <= fuel)%nat ->
  exists chunks,
    Chunker.chunkMarkdown fuel markdown chunkSize overlap = Some chunks
    /\ (forall j c, chunks !! j = Some c ->
          startChar c = Z.of_nat j * (chunkSize - overlap)
          /\ endChar c = Z.min (startChar c + chunkSize) (JS.strLength markdown)
          /\ 0 <= startChar c < endChar c
          /\ content c = JS.slice markdown (startChar c) (endChar c)
          /\ JS.strLength (content c) = endChar c - startChar c
          /\ JS.strLength (content c) <= chunkSize)
    /\ (exists c, last chunks = Some c /\ endChar c = JS.strLength markdown).
Proof.
  intros Hov Hlt Hlen Hfuel.
  destruct (Z.le_gt_cases (JS.strLength markdown) chunkSize) as [Hshort|Hlong].
  - exists [mkChunk markdown 0 0 (JS.strLength markdown) 1]. split; [|split].
    + unfold Chunker.chunkMarkdown.
      destruct (JS.strLength markdown <=? chunkSize) eqn:E; [done|lia].
    + intros [|j] c Hj; [|done]. injection Hj as <-. simpl.
      rewrite slice_whole. repeat split; lia.
    + eexists. split; [done|done].
  - destruct (chunkMarkdown_windows markdown chunkSize overlap Hov Hlt fuel)
      as (new & Hrun & Hwin); [lia|done|].
    destruct (windows_spans markdown chunkSize overlap Hov Hlt 0 0%nat new)
      as [Hspans (c & Hlast & Hend)]; [lia|done|].
    exists (Chunker.setTotalChunks new). split; [done|split].
    + intros j c' Hj. rewrite setTotalChunks_lookup in Hj.
      destruct (new !! j) as [d|] eqn:E; [|done]. injection Hj as <-. simpl.
      destruct (Hspans j d E) as (Hs & He & Hord & Hcontent).
      destruct (windows_fields markdown chunkSize (chunkSize - overlap) 0 0%nat new
                  ltac:(lia) ltac:(lia) ltac:(lia) Hwin j d E) as (_ & Hslice & _).
      repeat split; try done; lia.
    + exists (mkChunk (content c) (chunkIndex c) (startChar c) (endChar c)
                (Z.of_nat (length new))).
      split; [|done]. unfold Chunker.setTotalChunks.
      by rewrite fmap_last, Hlast.
Qed.

Lemma chunk_spans_witness :
  exists chunks,
    Chunker.chunkMarkdown 12 "abcdefghijkl" 5 1 = Some chunks
    /\ (forall j c, chunks !! j = Some c ->
          startChar c = Z.of_nat j * (5 - 1)
          /\ endChar c = Z.min (startChar c + 5) (JS.strLength "abcdefghijkl")
          /\ 0 <= startChar c < endChar c
          /\ content c = JS.slice "abcdefghijkl" (startChar c) (endChar c)
          /\ JS.strLength (content c) = endChar c - startChar c
          /\ JS.strLength (content c) <= 5)
    /\ (exists c, last chunks = Some c /\ endChar c = JS.strLength "abcdefghijkl").
Proof.
  apply (chunk_spans 12 "abcdefghijkl" 5 1); [lia|lia|vm_compute; reflexivity|simpl; lia].
Defined.

(** X2. For [0 <= overlap < chunkSize] the number of chunks, and with it
    every [totalChunks] field, is 1 when the text fits in one window and
    [ceil ((L - chunkSize) / stepSize) + 1] otherwise. *)
Theorem chunk_count (fuel : nat) (markdown : string) (chunkSize overlap : Z) :
  0 <= overlap -> overlap < chunkSize ->
  (String.length markdown <= fuel)%nat ->
  exists chunks,
    Chunker.chunkMarkdown fuel markdown chunkSize overlap = Some chunks
    /\ Z.of_nat (length chunks)
       = Rejoin.windowCount (JS.strLength markdown) chunkSize (chunkSize - overlap)
    /\ forall c, c ∈ chunks ->
         totalChunks c
         = Rejoin.windowCount (JS.strLength markdown) chunkSize (chunkSize - overlap).
Proof.
  intros Hov Hlt Hfuel. unfold Rejoin.windowCount.
  destruct (Z.leb_spec (JS.strLength markdown) chunkSize) as [Hshort|Hlong].
  - exists [mkChunk markdown 0 0 (JS.strLength markdown) 1]. split; [|split].
    + unfold Chunker.chunkMarkdown.
      destruct (JS.strLength markdown <=? chunkSize) eqn:E; [done|lia].
    + done.
    + intros c Hc. by apply list_elem_of_singleton in Hc as ->.
  - destruct (chunkMarkdown_windows markdown chunkSize overlap Hov Hlt fuel)
      as (new & Hrun & Hwin); [lia|done|].
    pose proof (windows_count markdown chunkSize overlap 0 0%nat new ltac:(lia) Hwin)
      as Hcount.
    destruct (Z.leb_spec (JS.strLength markdown) (0 + chunkSize)); [lia|].
    replace (JS.strLength markdown - 0 - chunkSize)
      with (JS.strLength markdown - chunkSize) in Hcount by lia.
    exists (Chunker.setTotalChunks new). split; [done|split].
    + by rewrite setTotalChunks_length.
    + intros c Hc. unfold Chunker.setTotalChunks in Hc.
      apply list_elem_of_fmap in Hc as (d & -> & _). done.
Qed.

Lemma chunk_count_witness :
  exists chunks,
    Chunker.chunkMarkdown 12 "abcdefghijkl" 5 1 = Some chunks
    /\ Z.of_nat (length chunks) = Rejoin.windowCount (JS.strLength "abcdefghijkl") 5 (5 - 1)
    /\ forall c, c ∈ chunks ->
         totalChunks c = Rejoin.windowCount (JS.strLength "abcdefghijkl") 5 (5 - 1).
Proof. apply (chunk_count 12 "abcdefghijkl" 5 1); [lia|lia|simpl; lia]. Defined.

(** X3. For [0 <= overlap < chunkSize] no text is lost or reordered: the
    first chunk followed by every later chunk without its first [overlap]
    characters is the text that was chunked. *)
Theorem chunks_rejoin (fuel : nat) (markdown : string) (chunkSize overlap : Z) :
  0 <= overlap -> overlap < chunkSize ->
  (String.length markdown <= fuel)%nat ->
  exists chunks,
    Chunker.chunkMarkdown fuel markdown chunkSize overlap = Some chunks
    /\ Rejoin.rejoin overlap chunks = markdown.
Proof.
  intros Hov Hlt Hfuel.
  destruct (Z.le_gt_cases (JS.strLength markdown) chunkSize) as [Hshort|Hlong].
  - exists [mkChunk markdown 0 0 (JS.strLength markdown) 1]. split.
    + unfold Chunker.chunkMarkdown.
      destruct (JS.strLength markdown <=? chunkSize) eqn:E; [done|lia].
    + simpl. apply append_empty_r.
  - destruct (chunkMarkdown_windows markdown chunkSize overlap Hov Hlt fuel)
      as (new & Hrun & Hwin); [lia|done|].
    exists (Chunker.setTotalChunks new). split; [done|].
    rewrite rejoin_setTotalChunks. apply windows_rejoin with chunkSize; [done..|lia|done].
Qed.

Lemma chunks_rejoin_witness :
  exists chunks,
    Chunker.chunkMarkdown 12 "abcdefghijkl" 5 1 = Some chunks
    /\ Rejoin.rejoin 1 chunks = "abcdefghijkl".
Proof. apply (chunks_rejoin 12 "abcdefghijkl" 5 1); [lia|lia|simpl; lia]. Defined.


(** ** Tools: counters, events and search edge cases *)

Section ToolEffects.
Import JS Tools Tally.

Lemma execute_stats doc call ctx :
  stats (snd (execute doc call ctx)) = tally [call] <$> stats ctx.
Proof.
  destruct ctx as [[s|] evs]; destruct call as [a b|url q reply|url reply|text m];
    unfold execute, bind, readContent, readFigure, readTable, searchContent,
           withStats, emitEvent, ret, bind; simpl;
    repeat case_match; simplify_eq/=; try done;
    unfold tally, count, countContentRead, countFigureAnalysis, countToolCall; simpl;
    do 2 f_equal; lia.
Qed.

Lemma tally_cons call calls s : tally (call :: calls) s = tally calls (tally [call] s).
Proof.
  unfold tally, count. simpl. rewrite !filter_cons, !filter_nil.
  f_equal; repeat case_decide; simpl; lia.
Qed.

Lemma executeAll_stats doc calls : forall ctx,
  stats (snd (executeAll doc calls ctx)) = tally calls <$> stats ctx.
Proof.
  induction calls as [|call calls IH]; intros ctx.
  - simpl. destruct (stats ctx) as [s|]; [|done]. simpl. f_equal.
    destruct s. unfold tally, count. simpl. f_equal; lia.
  - simpl. unfold bind.
    pose proof (execute_stats doc call ctx) as Hcall.
    destruct (execute doc call ctx) as [u ctx']. simpl in Hcall.
    rewrite IH, Hcall. destruct (stats ctx) as [s|]; [|done]. simpl.
    by rewrite (tally_cons call calls s).
Qed.

End ToolEffects.

(** X4. The counters count: after any sequence of tool calls, [tool_calls]
    has grown by the number of calls, [content_reads] by the number of
    [readContent] calls and [figure_analyses] by the number of [readFigure]
    calls, whether the calls succeeded or failed; [readTable] and
    [searchContent] count as tool calls only, and [search_iterations] is
    left alone. *)
Theorem executeAll_counts (fullContent : string) (calls : list Tools.ToolCall)
    (s : Stats) (emitted : option (list Event)) :
  Tools.stats (snd (Tools.executeAll fullContent calls (Tools.mkContext (Some s) emitted)))
  = Some (mkStats (tool_calls s + Z.of_nat (length calls))
            (content_reads s + Tally.count Tally.isReadContent calls)
            (figure_analyses s + Tally.count Tally.isReadFigure calls)
            (search_iterations s)).
Proof. by rewrite executeAll_stats. Qed.

(** X5. How a session ends. When the reasoning call returns, the last
    events are the exploration_complete status, the answer with the returned
    text verbatim, the metadata event if and only if [include_metadata] is
    set, and complete. The statistics reported in the status and in the
    metadata are the counts of the tool calls made and the number of
    reasoning steps, and the processing time is the difference of the two
    clock readings. When the call fails the last event is the error, with
    the failure's message or a default when that is empty. *)
Theorem session_tail
    (generateText : Controller.GenerateRequest -> Controller.Reasoning)
    (question fullContent : string) (chunks : list MarkdownChunkWithSummary)
    (options : Controller.AgenticReaderOptions) (startTime finishTime : Z) :
  let result :=
    generateText
      (Controller.mkRequest (default "gpt-5-mini" (Controller.model options))
         (Controller.systemPrompt question chunks) (Controller.userPrompt question)
         (Controller.max_iterations options)) in
  let events :=
    Controller.agenticReaderWithEvents generateText question fullContent chunks
      options startTime finishTime in
  match Controller.settled result with
  | Fulfilled (text, steps) =>
      let stats :=
        mkStats (Z.of_nat (length (Controller.toolCalls result)))
          (Tally.count Tally.isReadContent (Controller.toolCalls result))
          (Tally.count Tally.isReadFigure (Controller.toolCalls result))
          (Z.of_nat steps) in
      exists before,
        events
        = before
          ++ [mkEvent "status"
                (StatusData "exploration_complete"
                   ("Agent completed exploration in " +:+ JS.show (Z.of_nat steps)
                      +:+ " steps")
                   None (Some stats));
              mkEvent "answer" (AnswerData text)]
          ++ (if default false (Controller.include_metadata options)
              then [mkEvent "metadata" (MetadataData (finishTime - startTime) stats)]
              else [])
          ++ [mkEvent "complete"
                (CompleteData "Agentic reading completed successfully")]
  | Rejected message =>
      exists before,
        events
        = before
          ++ [mkEvent "error"
                (ErrorData (if String.eqb message ""
                            then "An error occurred during reading" else message))]
  end.
Proof.
  intros result events. subst events.
  unfold Controller.agenticReaderWithEvents. fold result.
  destruct (Controller.settled result) as [[text steps]|message];
    unfold Tools.bind at 1 2 3; simpl; unfold Tools.bind at 1;
    set (ctx0 := Tools.mkContext _ _);
    destruct (quiet_executeAll fullContent (Controller.toolCalls result) ctx0)
      as (toolEvents & Hemitted & _);
    pose proof (executeAll_stats fullContent (Controller.toolCalls result) ctx0)
      as Hstats;
    destruct (Tools.executeAll fullContent (Controller.toolCalls result) ctx0)
      as [[] ctx];
    simpl in Hemitted, Hstats.
  - destruct (default false (Controller.include_metadata options));
      eexists (_ :: _ :: _ :: toolEvents);
      unfold Tools.bind, Tools.withStats, Controller.currentStats, Tools.emitEvent,
             Tools.ret; cbn [fst snd Tools.stats Tools.emitted];
      rewrite Hemitted, Hstats; cbn [default fmap option_fmap option_map from_option id];
      rewrite <- !app_assoc; reflexivity.
  - eexists (_ :: _ :: _ :: toolEvents). unfold Tools.emitEvent.
    cbn [fst snd Tools.stats Tools.emitted]. rewrite Hemitted. reflexivity.
Qed.


Section SearchEdges.
Import JS Tools.

Variables fullContent searchText : string.
Variable maxResults : Z.

(** Why the loop stopped: the cap was reached, or the flag computed from
    the final position is false. *)
Lemma searchLoop_stop fuel : forall cur acc res final,
  searchLoop fuel fullContent searchText (toLowerCase searchText) maxResults cur acc
    = Some (res, final) ->
  maxResults <= Z.of_nat (length res)
  \/ (final <? strLength fullContent)
     && negb (indexOf (toLowerCase fullContent) (toLowerCase searchText) final =? -1)
     = false.
Proof.
  induction fuel as [|fuel IH]; intros cur acc res final; [done|]. simpl.
  destruct (Z.ltb_spec (Z.of_nat (length acc)) maxResults) as [Hroom|Hfull]; simpl.
  - destruct (Z.ltb_spec cur (strLength fullContent)) as [Hin|Hout].
    + destruct (Z.eqb_spec
                  (indexOf (toLowerCase fullContent) (toLowerCase searchText) cur) (-1))
        as [Hnone|Hsome].
      * intros [= <- <-]. right.
        apply andb_false_iff. right. rewrite Hnone. done.
      * apply IH.
    + intros [= <- <-]. right. apply andb_false_iff. left. lia.
  - intros [= <- <-]. by left.
Qed.

Lemma index_empty_pattern s : String.index 0 "" s = Some 0%nat.
Proof. by destruct s. Qed.

End SearchEdges.

Lemma searchLoop_empty_text fullContent maxResults fuel : forall acc,
  0 < JS.strLength fullContent ->
  (Z.to_nat (maxResults - Z.of_nat (length acc)) < fuel)%nat ->
  Tools.searchLoop fuel fullContent "" "" maxResults 0 acc
  = Some (acc ++ replicate (Z.to_nat (maxResults - Z.of_nat (length acc)))
                    (Tools.mkHit 0 (Tools.contextAround fullContent "" 0)), 0).
Proof.
  induction fuel as [|fuel IH]; intros acc Hlen Hfuel; [lia|]. simpl.
  destruct (Z.ltb_spec (Z.of_nat (length acc)) maxResults) as [Hroom|Hfull]; simpl.
  - destruct (Z.ltb_spec 0 (JS.strLength fullContent)); [|lia].
    unfold JS.indexOf. rewrite length_toLowerCase_Z.
    rewrite Z.max_l, Z.min_l by lia. simpl Z.to_nat.
    rewrite index_empty_pattern. simpl.
    change (0 + JS.strLength "") with 0.
    rewrite IH; [|done|rewrite length_app; simpl; lia].
    rewrite length_app. simpl length. rewrite <- app_assoc. do 2 f_equal.
    replace (Z.to_nat (maxResults - Z.of_nat (length acc)))
      with (S (Z.to_nat (maxResults - Z.of_nat (length acc + 1)))) by lia.
    done.
  - replace (Z.to_nat (maxResults - Z.of_nat (length acc))) with 0%nat by lia.
    simpl. by rewrite app_nil_r.
Qed.

(** X6. The empty search text matches at position 0 and the scan does not
    advance: on a non-empty document [searchContent] answers as many hits
    as the cap allows, every one at position 0 with the first 50 characters
    as context, and [hasMore] is true. *)
Theorem searchContent_empty_text (fuel : nat) (fullContent : string)
    (maxResults : option Z) (ctx : Tools.Context) :
  0 < JS.strLength fullContent ->
  (Z.to_nat (default 5%Z maxResults) < fuel)%nat ->
  fst (Tools.searchContent fuel fullContent "" maxResults ctx)
  = Some (Tools.mkSearchResult true ""
            (Z.of_nat (Z.to_nat (default 5 maxResults)))
            (replicate (Z.to_nat (default 5 maxResults))
               (Tools.mkHit 0
                  ("..." +:+ JS.slice fullContent 0
                               (Z.min (JS.strLength fullContent) 50) +:+ "...")))
            true).
Proof.
  intros Hlen Hfuel. unfold Tools.searchContent, Tools.bind. simpl.
  rewrite (searchLoop_empty_text fullContent (default 5 maxResults) fuel [] Hlen)
    by (simpl; lia).
  simpl. rewrite Z.sub_0_r, length_replicate.
  destruct (Z.ltb_spec 0 (JS.strLength fullContent)); [|lia].
  unfold JS.indexOf. rewrite length_toLowerCase_Z, Z.max_l, Z.min_l by lia.
  simpl Z.to_nat. rewrite index_empty_pattern. done.
Qed.

Lemma searchContent_empty_text_witness :
  fst (Tools.searchContent 3 "abc" "" (Some 2) (Tools.mkContext None None))
  = Some (Tools.mkSearchResult true ""
            (Z.of_nat (Z.to_nat (default 5 (Some 2))))
            (replicate (Z.to_nat (default 5 (Some 2)))
               (Tools.mkHit 0
                  ("..." +:+ JS.slice "abc" 0 (Z.min (JS.strLength "abc") 50) +:+ "...")))
            true).
Proof.
  apply (searchContent_empty_text 3 "abc" (Some 2) (Tools.mkContext None None));
    [vm_compute; reflexivity|simpl; lia].
Defined.

Lemma searchContent_run fuel fullContent searchText (maxResults : option Z) ctx :
  (Z.to_nat (default 5%Z maxResults) < fuel)%nat ->
  exists hits final,
    Tools.searchLoop fuel fullContent searchText (JS.toLowerCase searchText)
      (default 5 maxResults) 0 [] = Some (hits, final)
    /\ Tools.scan fullContent searchText 0 hits final
    /\ (length hits <= Z.to_nat (default 5%Z maxResults))%nat
    /\ fst (Tools.searchContent fuel fullContent searchText maxResults ctx)
       = Some (Tools.mkSearchResult true searchText (Z.of_nat (length hits)) hits
                 ((final <? JS.strLength fullContent)
                  && negb (JS.indexOf (JS.toLowerCase fullContent)
                             (JS.toLowerCase searchText) final =? -1))).
Proof.
  intros Hfuel.
  destruct (searchLoop_scan fullContent searchText (default 5 maxResults) fuel 0 [])
    as (hits & final & Hrun & Hscan & Hlen); [lia|simpl; lia|].
  simpl in Hrun, Hlen. exists hits, final.
  split; [done|]. split; [done|]. split; [lia|].
  unfold Tools.searchContent, Tools.bind. simpl. by rewrite Hrun.
Qed.

(** X7. On texts in the Latin-1 range, where lower-casing replaces unit
    by unit, [searchContent] returns exactly the greedy scan from left to
    right. For a non-empty search text and enough fuel for one iteration per
    permitted result: there are at most [maxResults] (default 5) hits;
    every hit is a case-insensitive occurrence of the text inside the
    document; the first hit is the first occurrence and each later hit the
    first occurrence at or after the end of the one before, so positions
    strictly ascend and hits do not overlap; [hasMore] is true iff the text
    occurs again at or after the end of the last hit; and the scan stops
    only at the cap or for want of occurrences, so that a text that occurs
    is found whenever the cap is at least 1. *)
Theorem searchContent_finds_every_match (fuel : nat) (fullContent searchText : string)
    (maxResults : option Z) (ctx : Tools.Context) :
  searchText <> "" ->
  (Z.to_nat (default 5%Z maxResults) < fuel)%nat ->
  exists r,
    fst (Tools.searchContent fuel fullContent searchText maxResults ctx) = Some r
    /\ Tools.success r = true
    /\ Tools.resultsFound r = Z.of_nat (length (Tools.results r))
    /\ Z.of_nat (length (Tools.results r)) <= Z.max 0 (default 5 maxResults)
    /\ (forall h, h ∈ Tools.results r ->
          Tools.occursAt fullContent searchText (Tools.position h)
          /\ Tools.position h + JS.strLength searchText <= JS.strLength fullContent)
    /\ (forall h, head (Tools.results r) = Some h ->
          forall q, 0 <= q < Tools.position h ->
            ~ Tools.occursAt fullContent searchText q)
    /\ (forall j h1 h2,
          Tools.results r !! j = Some h1 -> Tools.results r !! S j = Some h2 ->
          Tools.position h1 < Tools.position h2
          /\ Tools.position h1 + JS.strLength searchText <= Tools.position h2
          /\ forall q,
               Tools.position h1 + JS.strLength searchText <= q < Tools.position h2 ->
               ~ Tools.occursAt fullContent searchText q)
    /\ (Tools.hasMore r = true <->
        exists p, Tools.resumeAt searchText (Tools.results r) <= p
                  /\ Tools.occursAt fullContent searchText p)
    /\ (Z.of_nat (length (Tools.results r)) < default 5 maxResults ->
        forall p, Tools.resumeAt searchText (Tools.results r) <= p ->
          ~ Tools.occursAt fullContent searchText p)
    /\ (1 <= default 5 maxResults ->
        forall p, Tools.occursAt fullContent searchText p ->
          exists h, head (Tools.results r) = Some h /\ Tools.position h <= p).
Proof.
  intros Hne Hfuel.
  destruct (searchContent_run fuel fullContent searchText maxResults ctx Hfuel)
    as (hits & final & Hrun & Hscan & Hlen & Hres).
  eexists. split; [exact Hres|]. simpl.
  split; [done|]. split; [done|]. split; [lia|].
  pose proof (length_nonempty searchText Hne) as Hpos.
  pose proof (searchLoop_stop _ _ _ _ _ _ _ _ Hrun) as Hstop.
  pose proof (scan_final_ge _ _ _ _ _ Hscan) as Hfinal.
  pose proof (scan_resume _ _ _ _ _ Hscan) as Hresume.
  assert (Z.of_nat (length hits) < default 5 maxResults ->
          forall p, Tools.resumeAt searchText hits <= p ->
            ~ Tools.occursAt fullContent searchText p) as Hcomplete.
  { intros Hroom p Hp Hocc. destruct Hstop as [Hcap|Hflag]; [lia|].
    assert (exists q, final <= q /\ Tools.occursAt fullContent searchText q) as Hex.
    { exists p. split; [|done]. unfold Tools.resumeAt in Hp. by rewrite Hresume. }
    apply (hasMore_spec fullContent searchText final Hne ltac:(lia)) in Hex.
    congruence. }
  split; [|split; [|split; [|split; [|split]]]].
  - intros h Hh. destruct (scan_occurs _ _ _ _ _ Hscan h Hh) as [Hocc _].
    split; [done|]. by apply occursAt_in_range.
  - intros h Hh. by apply (scan_first _ _ _ _ _ Hscan).
  - intros j h1 h2 H1 H2.
    destruct (scan_order _ _ _ _ _ Hscan j h1 h2 H1 H2) as [Hord Hgap].
    split; [unfold JS.strLength in Hord; lia|done].
  - rewrite hasMore_spec by done.
    unfold Tools.resumeAt. by rewrite Hresume.
  - exact Hcomplete.
  - intros Hcap p Hp. destruct hits as [|h hits].
    + destruct (Hcomplete ltac:(simpl; lia) p); [|done].
      unfold Tools.resumeAt. simpl. by destruct Hp.
    + exists h. split; [done|].
      destruct (scan_first _ _ _ _ _ Hscan h eq_refl) as [_ Hnone].
      destruct (Z.le_gt_cases (Tools.position h) p) as [|Hlt]; [done|].
      destruct (Hnone p); [|done]. destruct Hp. lia.
Qed.

Lemma searchContent_finds_every_match_witness :
  exists r,
    fst (Tools.searchContent 3 "Yield, yield and YIELD" "yield" (Some 2)
           (Tools.mkContext None None)) = Some r
    /\ Tools.success r = true
    /\ Tools.resultsFound r = Z.of_nat (length (Tools.results r))
    /\ Z.of_nat (length (Tools.results r)) <= Z.max 0 (default 5 (Some 2))
    /\ (forall h, h ∈ Tools.results r ->
          Tools.occursAt "Yield, yield and YIELD" "yield" (Tools.position h)
          /\ Tools.position h + JS.strLength "yield"
             <= JS.strLength "Yield, yield and YIELD")
    /\ (forall h, head (Tools.results r) = Some h ->
          forall q, 0 <= q < Tools.position h ->
            ~ Tools.occursAt "Yield, yield and YIELD" "yield" q)
    /\ (forall j h1 h2,
          Tools.results r !! j = Some h1 -> Tools.results r !! S j = Some h2 ->
          Tools.position h1 < Tools.position h2
          /\ Tools.position h1 + JS.strLength "yield" <= Tools.position h2
          /\ forall q,
               Tools.position h1 + JS.strLength "yield" <= q < Tools.position h2 ->
               ~ Tools.occursAt "Yield, yield and YIELD" "yield" q)
    /\ (Tools.hasMore r = true <->
        exists p, Tools.resumeAt "yield" (Tools.results r) <= p
                  /\ Tools.occursAt "Yield, yield and YIELD" "yield" p)
    /\ (Z.of_nat (length (Tools.results r)) < default 5 (Some 2) ->
        forall p, Tools.resumeAt "yield" (Tools.results r) <= p ->
          ~ Tools.occursAt "Yield, yield and YIELD" "yield" p)
    /\ (1 <= default 5 (Some 2) ->
        forall p, Tools.occursAt "Yield, yield and YIELD" "yield" p ->
          exists h, head (Tools.results r) = Some h /\ Tools.position h <= p).
Proof.
  apply (searchContent_finds_every_match 3 "Yield, yield and YIELD" "yield" (Some 2)
           (Tools.mkContext None None)); [discriminate|simpl; lia].
Defined.

(** X8. [hasMore] is only raised at the cap: for every search text, empty
    or not, a result with [hasMore] true holds exactly [maxResults] hits (none
    when the cap is below 1); a result with fewer hits than the cap has
    [hasMore] false. *)
Theorem searchContent_hasMore_at_cap (fuel : nat) (fullContent searchText : string)
    (maxResults : option Z) (ctx : Tools.Context) :
  (Z.to_nat (default 5%Z maxResults) < fuel)%nat ->
  exists r,
    fst (Tools.searchContent fuel fullContent searchText maxResults ctx) = Some r
    /\ (Tools.hasMore r = true ->
        Z.of_nat (length (Tools.results r)) = Z.max 0 (default 5 maxResults))
    /\ (Z.of_nat (length (Tools.results r)) < default 5 maxResults ->
        Tools.hasMore r = false).
Proof.
  intros Hfuel.
  destruct (searchContent_run fuel fullContent searchText maxResults ctx Hfuel)
    as (hits & final & Hrun & Hscan & Hlen & Hres).
  eexists. split; [exact Hres|]. simpl.
  destruct (searchLoop_stop _ _ _ _ _ _ _ _ Hrun) as [Hcap|Hflag].
  - split; [lia|lia].
  - rewrite Hflag. split; [done|done].
Qed.

Lemma searchContent_hasMore_at_cap_witness :
  exists r,
    fst (Tools.searchContent 3 "Yield, yield and YIELD" "yield" (Some 2)
           (Tools.mkContext None None)) = Some r
    /\ (Tools.hasMore r = true ->
        Z.of_nat (length (Tools.results r)) = Z.max 0 (default 5 (Some 2)))
    /\ (Z.of_nat (length (Tools.results r)) < default 5 (Some 2) ->
        Tools.hasMore r = false).
Proof.
  apply (searchContent_hasMore_at_cap 3 "Yield, yield and YIELD" "yield" (Some 2)
           (Tools.mkContext None None)). simpl. lia.
Defined.


Section EmittedEvents.
Import Tools Tally.

Lemma emitting_ret {A} (a : A) : emitting (ret a) 0 0.
Proof.
  intros ctx. exists []. split; [|done]. simpl.
  destruct (emitted ctx); simpl; by rewrite ?app_nil_r.
Qed.

Lemma emitting_withStats f : emitting (withStats f) 0 0.
Proof.
  intros ctx. exists []. split; [|done]. simpl.
  destruct (emitted ctx); simpl; by rewrite ?app_nil_r.
Qed.

Lemma emitting_emitEvent name d :
  emitting (emitEvent name d) (if String.eqb name "tool_call" then 1 else 0) 1.
Proof.
  intros ctx. exists [mkEvent name d]. split; [done|]. split; [|done].
  unfold Controller.countEvents, isToolCall. rewrite filter_cons, filter_nil. simpl.
  destruct (String.eqb name "tool_call"); by case_decide.
Qed.

Lemma emitting_bind {A B} (m : M A) (k : A -> M B) c1 b1 c2 b2 :
  emitting m c1 b1 -> (forall a, emitting (k a) c2 b2) ->
  emitting (bind m k) (c1 + c2) (b1 + b2).
Proof.
  intros Hm Hk ctx. unfold bind.
  destruct (Hm ctx) as (new1 & E1 & C1 & B1).
  destruct (m ctx) as [a ctx1]. simpl in E1.
  destruct (Hk a ctx1) as (new2 & E2 & C2 & B2).
  exists (new1 ++ new2). split; [|split].
  - rewrite E2, E1. destruct (emitted ctx); simpl; by rewrite ?app_assoc.
  - rewrite countEvents_app. lia.
  - rewrite length_app. lia.
Qed.

Lemma emitting_le {A} (m : M A) c b b' :
  (b <= b')%nat -> emitting m c b -> emitting m c b'.
Proof.
  intros Hle Hm ctx. destruct (Hm ctx) as (new & E & C & B).
  exists new. repeat split; [done..|lia].
Qed.

(** A tool emits its tool_call event and at most one more event. *)
Ltac emitting_tool :=
  apply (emitting_bind _ _ 0 0 1 2); [apply emitting_withStats|intros _];
  apply (emitting_bind _ _ 1 1 0 1); [apply emitting_emitEvent|intros _].

Lemma emitting_leaf {A} (a : A) : emitting (ret a) 0 1.
Proof. apply emitting_le with 0%nat; [lia|apply emitting_ret]. Qed.

Lemma emitting_result {A} name d (a : A) :
  String.eqb name "tool_call" = false ->
  emitting (bind (emitEvent name d) (fun _ => ret a)) 0 1.
Proof.
  intros Hname. apply (emitting_bind _ _ 0 1 0 0); [|intros _; apply emitting_ret].
  pose proof (emitting_emitEvent name d) as H. by rewrite Hname in H.
Qed.

Lemma emitting_execute doc call : emitting (execute doc call) 1 2.
Proof.
  destruct call as [a b|url q reply|url reply|text m]; simpl;
    (apply (emitting_bind _ _ 1 2 0 0); [|intros _; apply emitting_ret]).
  - unfold readContent. emitting_tool.
    repeat case_match; first [apply emitting_leaf | by apply emitting_result].
  - unfold readFigure. emitting_tool.
    destruct reply; first [apply emitting_leaf | by apply emitting_result].
  - unfold readTable. emitting_tool.
    destruct reply; first [apply emitting_leaf | by apply emitting_result].
  - unfold searchContent. emitting_tool.
    destruct (searchLoop _ _ _ _ _ _ _) as [[hits final]|];
      first [apply emitting_leaf | by apply emitting_result].
Qed.

Lemma emitting_executeAll doc calls :
  emitting (executeAll doc calls) (length calls) (2 * length calls).
Proof.
  induction calls as [|call calls IH]; [apply emitting_ret|].
  apply emitting_le with (2 + 2 * length calls)%nat; [simpl; lia|].
  apply (emitting_bind _ _ 1 2 (length calls) (2 * length calls));
    [apply emitting_execute|done].
Qed.

End EmittedEvents.

Lemma session_events
    (generateText : Controller.GenerateRequest -> Controller.Reasoning)
    (question fullContent : string) (chunks : list MarkdownChunkWithSummary)
    (options : Controller.AgenticReaderOptions) (startTime finishTime : Z) :
  exists first toolEvents tail,
    Controller.agenticReaderWithEvents generateText question fullContent chunks
      options startTime finishTime
    = first ++ toolEvents ++ tail
    /\ Controller.countEvents Tally.isToolCall first = 0%nat
    /\ length first = 3%nat
    /\ Controller.countEvents Tally.isToolCall toolEvents
       = length (Controller.toolCalls
                   (generateText
                      (Controller.mkRequest
                         (default "gpt-5-mini" (Controller.model options))
                         (Controller.systemPrompt question chunks)
                         (Controller.userPrompt question)
                         (Controller.max_iterations options))))
    /\ (length toolEvents
        <= 2 * length (Controller.toolCalls
                         (generateText
                            (Controller.mkRequest
                               (default "gpt-5-mini" (Controller.model options))
                               (Controller.systemPrompt question chunks)
                               (Controller.userPrompt question)
                               (Controller.max_iterations options)))))%nat
    /\ Controller.countEvents Tally.isToolCall tail = 0%nat
    /\ (length tail <= 4)%nat.
Proof.
  unfold Controller.agenticReaderWithEvents.
  set (result := generateText _).
  destruct (Controller.settled result) as [[text steps]|message];
    unfold Tools.bind at 1 2 3; simpl; unfold Tools.bind at 1;
    set (ctx0 := Tools.mkContext _ _);
    destruct (emitting_executeAll fullContent (Controller.toolCalls result) ctx0)
      as (toolEvents & Hemitted & Hcount & Hbound);
    destruct (Tools.executeAll fullContent (Controller.toolCalls result) ctx0)
      as [[] ctx];
    simpl in Hemitted.
  - destruct (default false (Controller.include_metadata options));
      eexists [_; _; _], toolEvents, _;
      (split;
       [unfold Tools.bind, Tools.withStats, Controller.currentStats, Tools.emitEvent,
               Tools.ret; cbn [fst snd Tools.stats Tools.emitted];
        rewrite Hemitted; cbn [default fmap option_fmap option_map from_option id];
        rewrite <- !app_assoc; reflexivity|]);
      (split; [reflexivity|]); (split; [done|]); (split; [exact Hcount|]);
      (split; [exact Hbound|]); (split; [reflexivity|simpl; lia]).
  - eexists [_; _; _], toolEvents, _.
    split.
    + unfold Tools.emitEvent. cbn [fst snd Tools.stats Tools.emitted].
      rewrite Hemitted. reflexivity.
    + split; [reflexivity|]. split; [done|]. split; [exact Hcount|].
      split; [exact Hbound|]. split; [reflexivity|simpl; lia].
Qed.

(** X9. In the events of a session there is exactly one tool_call event
    per tool call the reasoning model made, so their number is the
    [tool_calls] counter the session reports; each call adds at most one
    further event, and the session itself at most seven, which bounds the
    stream by [2 * calls + 7] events. *)
Theorem session_tool_call_events
    (generateText : Controller.GenerateRequest -> Controller.Reasoning)
    (question fullContent : string) (chunks : list MarkdownChunkWithSummary)
    (options : Controller.AgenticReaderOptions) (startTime finishTime : Z) :
  let result :=
    generateText
      (Controller.mkRequest (default "gpt-5-mini" (Controller.model options))
         (Controller.systemPrompt question chunks) (Controller.userPrompt question)
         (Controller.max_iterations options)) in
  let events :=
    Controller.agenticReaderWithEvents generateText question fullContent chunks
      options startTime finishTime in
  Controller.countEvents Tally.isToolCall events = length (Controller.toolCalls result)
  /\ (length events <= 2 * length (Controller.toolCalls result) + 7)%nat.
Proof.
  intros result events. subst events result.
  destruct (session_events generateText question fullContent chunks options
              startTime finishTime)
    as (first & toolEvents & tail & -> & Hc1 & Hl1 & Hc2 & Hl2 & Hc3 & Hl3).
  rewrite !countEvents_app, !length_app. lia.
Qed.

(** ** Controller: the truncation step *)

Lemma messagesForStep_long {Message : Type} (first : Message) (rest : list Message) :
  (20 <= length rest)%nat ->
  Controller.messagesForStep (first :: rest) = first :: drop (length rest - 20) rest.
Proof.
  intros Hlong. unfold Controller.messagesForStep, Controller.prepareStep.
  destruct (Z.ltb_spec 20 (Z.of_nat (length (first :: rest)))); [|simpl in *; lia].
  assert (length (first :: rest) - 20 = S (length rest - 20))%nat as ->
    by (simpl; lia).
  done.
Qed.

Lemma messagesForStep_short {Message : Type} (messages : list Message) :
  (length messages <= 20)%nat -> Controller.messagesForStep messages = messages.
Proof.
  intros Hshort. unfold Controller.messagesForStep, Controller.prepareStep.
  destruct (Z.ltb_spec 20 (Z.of_nat (length messages))); [lia|done].
Qed.

(** X10. Truncation bounds the history and is stable: the list handed to a
    reasoning call never holds more than 21 messages, and truncating an
    already truncated list changes nothing. *)
Theorem messagesForStep_idempotent {Message : Type} (messages : list Message) :
  (length (Controller.messagesForStep messages) <= 21)%nat
  /\ Controller.messagesForStep (Controller.messagesForStep messages)
     = Controller.messagesForStep messages.
Proof.
  destruct (Nat.le_gt_cases (length messages) 20) as [Hshort|Hlong].
  - rewrite !messagesForStep_short by done. split; [lia|done].
  - destruct messages as [|first rest]; [simpl in Hlong; lia|]. simpl in Hlong.
    rewrite messagesForStep_long by lia.
    set (recent := drop (length rest - 20) rest).
    assert (length recent = 20%nat) as Hrecent
      by (unfold recent; rewrite length_drop; lia).
    split; [simpl; lia|].
    rewrite messagesForStep_long by lia.
    rewrite Hrecent. done.
Qed.


(** ** Summarizer: workers, outcomes and the whole preparation *)

Section PoolInvariants.
Import Summarizer PoolRun.

Variable generateText : nat -> string -> string -> Settled string.
Variable modelName : string.
Variable chunks : list MarkdownChunk.

Lemma startWorkers_completed count : forall p,
  completed (startWorkers count p) = completed p.
Proof.
  induction count as [|count IH]; intros p; [done|]. simpl.
  destruct (pull (queue p)) as [w queue']. by rewrite IH.
Qed.

Lemma settle_completed w p p' :
  settle generateText modelName w p = Some (Fulfilled p') ->
  completed p' = S (completed p).
Proof.
  unfold settle. destruct (workers p !! w) as [[[c i]|]|]; [|done..].
  destruct (generateText i modelName (summaryPrompt c)); [|done].
  destruct (pull (queue p)). by intros [= <-].
Qed.

Lemma awaiting_le ws : (awaiting ws <= length ws)%nat.
Proof. unfold awaiting. apply length_filter. Qed.

Lemma settle_counts w p p' :
  settle generateText modelName w p = Some (Fulfilled p') ->
  length (workers p') = length (workers p) /\ S (pending p') = pending p.
Proof.
  unfold settle. destruct (workers p !! w) as [[[c i]|]|] eqn:Hw; [|done..].
  destruct (generateText i modelName (summaryPrompt c)); [|done].
  pose proof (awaiting_insert (workers p) w (c, i)) as Hins.
  unfold pending.
  destruct (queue p) as [|item rest]; simpl; intros [= <-]; simpl;
    rewrite length_insert.
  - specialize (Hins Finished Hw). simpl in Hins. split; [done|lia].
  - specialize (Hins (Awaiting item) Hw). simpl in Hins. split; [done|lia].
Qed.

Lemma abandon_counts w p message :
  settle generateText modelName w p = Some (Rejected message) ->
  length (workers (abandon w p)) = length (workers p)
  /\ S (pending (abandon w p)) = pending p
  /\ completed (abandon w p) = completed p.
Proof.
  unfold settle. destruct (workers p !! w) as [[[c i]|]|] eqn:Hw; [|done..].
  intros _. unfold abandon, pending. simpl. rewrite length_insert.
  pose proof (awaiting_insert (workers p) w (c, i) Finished Hw) as Hins.
  simpl in Hins. split; [done|]. split; [lia|done].
Qed.

Lemma reachable_invariant maxConcurrency rejected p :
  reachable generateText modelName (initialPool chunks maxConcurrency) rejected p ->
  length (workers p)
  = Z.to_nat (Z.min maxConcurrency (Z.of_nat (length chunks)))
  /\ (completed p + pending p + rejected = length chunks)%nat.
Proof.
  induction 1 as [|rejected p w p' Hreach [Hws Hsum] Hsettle
                  |rejected p w message Hreach [Hws Hsum] Hsettle].
  - unfold initialPool. split.
    + rewrite startWorkers_workers. simpl. lia.
    + rewrite startWorkers_completed, startWorkers_pending. unfold pending. simpl.
      rewrite length_imap. unfold awaiting. simpl. lia.
  - destruct (settle_counts w p p' Hsettle) as [Hws' Hpending].
    pose proof (settle_completed w p p' Hsettle). split; lia.
  - destruct (abandon_counts w p message Hsettle) as (Hws' & Hpending & Hdone).
    split; lia.
Qed.

End PoolInvariants.

(** X11. Bounded concurrency and bookkeeping, also after a failure. In
    every state the shared variables pass through, whether or not a call
    has been rejected on the way (the other workers go on after a
    rejection), the number of workers is [min maxConcurrency chunks.length]
    (none for a non-positive [maxConcurrency]), so at most [maxConcurrency]
    calls are in flight; and the [completed] counter, the calls still queued
    or in flight and the calls rejected so far add up to the number of
    chunks: no chunk is called for twice, and only a chunk whose call was
    rejected is dropped. *)
Theorem pool_bounded
    (generateText : nat -> string -> string -> Settled string) (modelName : string)
    (chunks : list MarkdownChunk) (maxConcurrency : Z) (rejected : nat)
    (p : Summarizer.Pool) :
  PoolRun.reachable generateText modelName
    (Summarizer.initialPool chunks maxConcurrency) rejected p ->
  length (Summarizer.workers p)
  = Z.to_nat (Z.min maxConcurrency (Z.of_nat (length chunks)))
  /\ Z.of_nat (Summarizer.awaiting (Summarizer.workers p)) <= Z.max 0 maxConcurrency
  /\ (Summarizer.completed p + Summarizer.pending p + rejected = length chunks)%nat.
Proof.
  intros Hreach.
  destruct (reachable_invariant generateText modelName chunks maxConcurrency rejected p
              Hreach) as (Hws & Hsum).
  pose proof (awaiting_le (Summarizer.workers p)). split; [done|]. split; [lia|done].
Qed.

(** The run of the witness: two workers on three chunks; the call for
    slot 1 is rejected, then the call for slot 0 is answered and its worker
    pulls the last chunk. *)
Lemma pool_bounded_witness :
  let p :=
    Summarizer.mkPool []
      [Some (mkSummarised (mkChunk "alpha" 0 0 5 3) "summary of slot 0"); None; None]
      [Summarizer.Awaiting (mkChunk "gamma" 2 7 12 3, 2%nat); Summarizer.Finished]
      1 in
  length (Summarizer.workers p)
  = Z.to_nat (Z.min 2 (Z.of_nat (length Summarizer.exampleChunks)))
  /\ Z.of_nat (Summarizer.awaiting (Summarizer.workers p)) <= Z.max 0 2
  /\ (Summarizer.completed p + Summarizer.pending p + 1
      = length Summarizer.exampleChunks)%nat.
Proof.
  apply (pool_bounded Summarizer.flakyTransport "gpt-5-mini" Summarizer.exampleChunks 2).
  apply (PoolRun.reachable_settle _ _ _ 1%nat
           (PoolRun.abandon 1 (Summarizer.initialPool Summarizer.exampleChunks 2))
           0%nat); [|reflexivity].
  apply (PoolRun.reachable_reject _ _ _ 0%nat
           (Summarizer.initialPool Summarizer.exampleChunks 2) 1%nat "rate limited");
    [|reflexivity].
  apply PoolRun.reachable_start.
Defined.

(** X12. Without a worker nothing is summarized and nothing fails: for a
    [maxConcurrency] of 0 or less the operation resolves, whatever the
    transport would answer, with an array of [chunks.length] empty slots. *)
Theorem summaries_without_worker
    (generateText : nat -> string -> string -> Settled string) (modelName : string)
    (fuel : nat) (schedule : list nat) (chunks : list MarkdownChunk)
    (fullContent : string) (maxConcurrency : option Z) :
  default 10 maxConcurrency <= 0 -> (0 < fuel)%nat ->
  Summarizer.generateChunkSummaries generateText modelName fuel schedule chunks
    fullContent maxConcurrency
  = Some (Fulfilled (replicate (length chunks) None)).
Proof.
  intros Hmc Hfuel. unfold Summarizer.generateChunkSummaries, Summarizer.initialPool.
  replace (Z.to_nat (Z.min (default 10 maxConcurrency) (Z.of_nat (length chunks))))
    with 0%nat by lia.
  destruct fuel as [|fuel]; [lia|]. simpl.
  unfold Summarizer.nextWorker. by destruct (hd 0%nat schedule).
Qed.

Lemma summaries_without_worker_witness :
  Summarizer.generateChunkSummaries Summarizer.flakyTransport "gpt-5-mini" 1 []
    Summarizer.exampleChunks "alpha beta gamma" (Some (-1))
  = Some (Fulfilled (replicate (length Summarizer.exampleChunks) None)).
Proof.
  apply (summaries_without_worker Summarizer.flakyTransport "gpt-5-mini" 1 []
           Summarizer.exampleChunks "alpha beta gamma" (Some (-1))); [simpl; lia|lia].
Defined.

(** X13. With at least one worker the operation always settles, whatever
    the completion order, and in one of two ways: resolved, and then every
    call was answered and every slot holds its chunk with its summary; or
    rejected, and then the rejection carries the message of a call that
    failed. A rejection never comes from anything but a failed call. *)
Theorem summaries_settle
    (generateText : nat -> string -> string -> Settled string) (modelName : string)
    (fuel : nat) (schedule : list nat) (chunks : list MarkdownChunk)
    (fullContent : string) (maxConcurrency : option Z) :
  1 <= default 10 maxConcurrency -> (length chunks < fuel)%nat ->
  exists outcome,
    Summarizer.generateChunkSummaries generateText modelName fuel schedule chunks
      fullContent maxConcurrency = Some outcome
    /\ match outcome with
       | Fulfilled results =>
           results = Summarizer.summarised generateText modelName chunks
           /\ forall i c, chunks !! i = Some c ->
                exists text,
                  generateText i modelName (Summarizer.summaryPrompt c) = Fulfilled text
       | Rejected message =>
           exists i c,
             chunks !! i = Some c
             /\ generateText i modelName (Summarizer.summaryPrompt c) = Rejected message
       end.
Proof.
  intros Hmc Hfuel.
  destruct (generateChunkSummaries_outcome generateText modelName chunks fuel schedule
              fullContent maxConcurrency Hmc Hfuel)
    as [[Hall Hrun]|(i & c & message & Hc & Hfail & Hrun)].
  - eexists. split; [exact Hrun|]. by split.
  - eexists. split; [exact Hrun|]. by exists i, c.
Qed.

Lemma summaries_settle_witness :
  exists outcome,
    Summarizer.generateChunkSummaries Summarizer.flakyTransport "gpt-5-mini" 4 [0; 1]%nat
      Summarizer.exampleChunks "alpha beta gamma" (Some 3) = Some outcome
    /\ match outcome with
       | Fulfilled results =>
           results = Summarizer.summarised Summarizer.flakyTransport "gpt-5-mini"
                       Summarizer.exampleChunks
           /\ forall i c, Summarizer.exampleChunks !! i = Some c ->
                exists text,
                  Summarizer.flakyTransport i "gpt-5-mini" (Summarizer.summaryPrompt c)
                  = Fulfilled text
       | Rejected message =>
           exists i c,
             Summarizer.exampleChunks !! i = Some c
             /\ Summarizer.flakyTransport i "gpt-5-mini" (Summarizer.summaryPrompt c)
                = Rejected message
       end.
Proof.
  apply (summaries_settle Summarizer.flakyTransport "gpt-5-mini" 4 [0; 1]%nat
           Summarizer.exampleChunks "alpha beta gamma" (Some 3)); simpl; lia.
Defined.

Section PreparationFacts.
Import JS Chunker Rejoin.

Variable markdown : string.
Variables chunkSize overlap : Z.
Hypothesis overlap_nonneg : 0 <= overlap.
Hypothesis overlap_small : overlap < chunkSize.

Lemma windows_length i k new :
  0 <= i < strLength markdown ->
  windows markdown chunkSize (chunkSize - overlap) i k new ->
  Z.of_nat (length new) <= strLength markdown - i.
Proof.
  intros Hi Hwin. revert Hi.
  induction Hwin as [i k Hlast|i k rest Hmore Hrest IH]; intros Hi; simpl length.
  - lia.
  - specialize (IH ltac:(lia)). lia.
Qed.

(** Everything later proofs need to know about the chunks of a text. *)
Lemma chunkMarkdown_shape fuel :
  (String.length markdown <= fuel)%nat ->
  exists chunks,
    chunkMarkdown fuel markdown chunkSize overlap = Some chunks
    /\ rejoin overlap chunks = markdown
    /\ (length chunks <= S (String.length markdown))%nat
    /\ forall j c, chunks !! j = Some c ->
         chunkIndex c = Z.of_nat j
         /\ content c = slice markdown (startChar c) (endChar c).
Proof.
  intros Hfuel.
  destruct (Z.le_gt_cases (strLength markdown) chunkSize) as [Hshort|Hlong].
  - exists [mkChunk markdown 0 0 (strLength markdown) 1].
    split; [|split; [|split]].
    + unfold chunkMarkdown.
      destruct (strLength markdown <=? chunkSize) eqn:E; [done|lia].
    + simpl. apply append_empty_r.
    + simpl. lia.
    + intros [|j] c Hj; [|done]. injection Hj as <-. simpl.
      by rewrite slice_whole.
  - destruct (chunkMarkdown_windows markdown chunkSize overlap overlap_nonneg
                overlap_small fuel) as (new & Hrun & Hwin); [lia|done|].
    exists (setTotalChunks new). split; [done|]. split; [|split].
    + rewrite rejoin_setTotalChunks.
      apply windows_rejoin with chunkSize; [done..|lia|done].
    + rewrite setTotalChunks_length.
      pose proof (windows_length 0 0%nat new ltac:(lia) Hwin) as Hlen.
      unfold strLength in Hlen. lia.
    + intros j c Hj. rewrite setTotalChunks_lookup in Hj.
      destruct (new !! j) as [d|] eqn:E; [|done]. injection Hj as <-. simpl.
      destruct (windows_fields markdown chunkSize (chunkSize - overlap) 0 0%nat new
                  ltac:(lia) ltac:(lia) ltac:(lia) Hwin j d E) as (Hk & Hcontent & _).
      done.
Qed.

End PreparationFacts.

(** X14. The document record that the preparation writes is consistent.
    With [0 <= overlap < chunkSize], at least one worker, enough fuel and a
    transport that answers, [htmlToMarkdownChunksWithSummaries] resolves,
    for every completion order, with the converted text as [fullContent]
    and one filled slot per chunk of that text, in order: slot [i] holds the
    chunk numbered [i], whose content is the slice of [fullContent] at its
    span, with the summary generated for it; and the chunks put back
    together give [fullContent]. *)
Theorem prepared_document_is_consistent
    (turndown : string -> string)
    (generateText : nat -> string -> string -> Settled string)
    (fuel : nat) (schedule : list nat) (html : string)
    (chunkSize overlap : option Z) (modelName : option string)
    (maxConcurrency : option Z) :
  0 <= default 1000 overlap -> default 1000 overlap < default 5000 chunkSize ->
  1 <= default 10 maxConcurrency ->
  (S (String.length (turndown html)) < fuel)%nat ->
  (forall i prompt, exists text,
     generateText i (default "gpt-5-mini" modelName) prompt = Fulfilled text) ->
  exists slots,
    Pipeline.htmlToMarkdownChunksWithSummaries turndown generateText fuel schedule html
      chunkSize overlap modelName maxConcurrency
    = Some (Fulfilled (Pipeline.mkDocument (turndown html) (Some <$> slots)))
    /\ Rejoin.rejoin (default 1000 overlap) (chunk <$> slots) = turndown html
    /\ forall i s, slots !! i = Some s ->
         chunkIndex (chunk s) = Z.of_nat i
         /\ content (chunk s)
            = JS.slice (turndown html) (startChar (chunk s)) (endChar (chunk s))
         /\ generateText i (default "gpt-5-mini" modelName)
              (Summarizer.summaryPrompt (chunk s))
            = Fulfilled (summary s).
Proof.
  intros Hov Hlt Hmc Hfuel Hall.
  destruct (chunkMarkdown_shape (turndown html) (default 5000 chunkSize)
              (default 1000 overlap) Hov Hlt fuel ltac:(lia))
    as (chunks & Hchunks & Hrejoin & Hlen & Hfields).
  set (model := default "gpt-5-mini" modelName) in *.
  destruct (generateChunkSummaries_outcome generateText model chunks fuel schedule
              (turndown html) (Some (default 10 maxConcurrency)) Hmc ltac:(lia))
    as [[_ Hrun]|(j & c & failure & _ & Hfail & _)].
  2:{ destruct (Hall j (Summarizer.summaryPrompt c)) as [text Htext]. congruence. }
  exists (imap (fun index c =>
                  mkSummarised c
                    (Summarizer.textOf
                       (generateText index model (Summarizer.summaryPrompt c))))
               chunks).
  split; [|split].
  - unfold Pipeline.htmlToMarkdownChunksWithSummaries, Chunker.htmlToMarkdownChunks,
      Chunker.htmlToMarkdown.
    simpl default. fold model. rewrite Hchunks, Hrun. do 3 f_equal.
    unfold Summarizer.summarised. apply list_eq. intros i.
    rewrite list_lookup_fmap, !list_lookup_imap. by destruct (chunks !! i).
  - replace (chunk <$> imap _ chunks) with chunks; [done|].
    apply list_eq. intros i. rewrite list_lookup_fmap, list_lookup_imap.
    by destruct (chunks !! i).
  - intros i s Hs. rewrite list_lookup_imap in Hs.
    destruct (chunks !! i) as [c|] eqn:Hc; [|done]. injection Hs as <-. simpl.
    destruct (Hfields i c Hc) as [Hindex Hcontent].
    destruct (Hall i (Summarizer.summaryPrompt c)) as [text Htext].
    rewrite Htext. done.
Qed.

Lemma prepared_document_is_consistent_witness :
  exists slots,
    Pipeline.htmlToMarkdownChunksWithSummaries (fun html => html)
      Summarizer.steadyTransport 14 [1; 0]%nat "abcdefghijkl" (Some 5) (Some 1) None
      (Some 2)
    = Some (Fulfilled (Pipeline.mkDocument "abcdefghijkl" (Some <$> slots)))
    /\ Rejoin.rejoin (default 1000 (Some 1)) (chunk <$> slots) = "abcdefghijkl"
    /\ forall i s, slots !! i = Some s ->
         chunkIndex (chunk s) = Z.of_nat i
         /\ content (chunk s)
            = JS.slice "abcdefghijkl" (startChar (chunk s)) (endChar (chunk s))
         /\ Summarizer.steadyTransport i (default "gpt-5-mini" None)
              (Summarizer.summaryPrompt (chunk s))
            = Fulfilled (summary s).
Proof.
  apply (prepared_document_is_consistent (fun html => html) Summarizer.steadyTransport
           14 [1; 0]%nat "abcdefghijkl" (Some 5) (Some 1) None (Some 2));
    [simpl; lia|simpl; lia|simpl; lia|simpl; lia|].
  intros i prompt. by eexists.
Defined.

(** ** CSV: reading lines and files *)

Section TextFacts.
Import Text.

Lemma trimStart_startsClean s : startsClean (trimStart s).
Proof.
  induction s as [|c s IH]; simpl; [done|].
  destruct (isSpace c) eqn:E; [done|]. simpl. done.
Qed.

Lemma trimStart_clean s : startsClean s -> trimStart s = s.
Proof. destruct s as [|c s]; simpl; [done|]. by intros ->. Qed.

Lemma trimEnd_cons c s :
  trimEnd (String c s)
  = match trimEnd s with
    | EmptyString => if isSpace c then EmptyString else String c EmptyString
    | t => String c t
    end.
Proof. done. Qed.

Lemma trimEnd_startsClean s : startsClean s -> startsClean (trimEnd s).
Proof.
  destruct s as [|c s]; [done|]. intros Hc. rewrite trimEnd_cons.
  destruct (trimEnd s); simpl in *; by rewrite ?Hc.
Qed.

Lemma trimEnd_endsClean s : endsClean (trimEnd s).
Proof.
  induction s as [|c s IH]; [done|]. rewrite trimEnd_cons.
  destruct (trimEnd s) as [|c' t] eqn:E.
  - destruct (isSpace c) eqn:Hc; simpl; done.
  - simpl in *. done.
Qed.

Lemma trimEnd_clean s : endsClean s -> trimEnd s = s.
Proof.
  induction s as [|c s IH]; [done|]. intros Hclean. rewrite trimEnd_cons.
  destruct s as [|c' s'].
  - simpl in *. by rewrite Hclean.
  - rewrite IH by done. done.
Qed.

Lemma trim_clean s : startsClean s -> endsClean s -> trim s = s.
Proof. intros Hs He. unfold trim. rewrite trimStart_clean by done. by apply trimEnd_clean. Qed.

Lemma trim_is_clean s : startsClean (trim s) /\ endsClean (trim s).
Proof.
  unfold trim. split; [|apply trimEnd_endsClean].
  apply trimEnd_startsClean, trimStart_startsClean.
Qed.

Lemma trim_idempotent s : trim (trim s) = trim s.
Proof. destruct (trim_is_clean s). by apply trim_clean. Qed.

Lemma occurs_append c s t : occurs c (s +:+ t) = occurs c s || occurs c t.
Proof.
  induction s as [|c' s IH]; [done|].
  rewrite append_cons. simpl. rewrite IH. by rewrite orb_assoc.
Qed.

Lemma occurs_trimStart c s : occurs c (trimStart s) = true -> occurs c s = true.
Proof.
  induction s as [|c' s IH]; simpl; [done|].
  destruct (isSpace c'); [|done]. intros H. rewrite IH by done. apply orb_true_r.
Qed.

Lemma occurs_trimEnd c s : occurs c (trimEnd s) = true -> occurs c s = true.
Proof.
  induction s as [|c' s IH]; [done|]. rewrite trimEnd_cons.
  destruct (trimEnd s) as [|c'' t] eqn:E.
  - destruct (isSpace c'); simpl; [done|]. rewrite orb_false_r. by intros ->.
  - simpl in *. destruct (Ascii.eqb c' c); [done|]. simpl. apply IH.
Qed.

Lemma occurs_trim c s : occurs c s = false -> occurs c (trim s) = false.
Proof.
  intros Hs. apply not_true_is_false. intros Ht.
  apply occurs_trimEnd, occurs_trimStart in Ht. congruence.
Qed.

End TextFacts.

Section LineFacts.
Import Text Csv.

Lemma parsedValue_trim current :
  occurs doubleQuote current = false -> parsedValue (trim current).
Proof. intros H. split; [by apply occurs_trim|apply trim_idempotent]. Qed.

Lemma parseLoop_values line : forall values current inQuotes,
  Forall parsedValue values -> occurs doubleQuote current = false ->
  parseLoop line values current inQuotes <> []
  /\ Forall parsedValue (parseLoop line values current inQuotes).
Proof.
  induction line as [|char rest IH]; intros values current inQuotes Hvalues Hcurrent;
    simpl.
  - split; [by destruct values|].
    apply Forall_app. split; [done|].
    constructor; [by apply parsedValue_trim|constructor].
  - destruct (Ascii.eqb char doubleQuote) eqn:Hq; [by apply IH|].
    destruct (Ascii.eqb char comma && negb inQuotes).
    + apply IH; [|done]. apply Forall_app. split; [done|].
      constructor; [by apply parsedValue_trim|constructor].
    + apply IH; [done|]. rewrite occurs_append. simpl. by rewrite Hcurrent, Hq.
Qed.

Lemma split_nonempty sep s : split sep s <> [].
Proof.
  destruct s as [|c s]; simpl; [done|].
  destruct (Ascii.eqb c sep); [done|]. by destruct (split sep s).
Qed.

Lemma parseLoop_plain line : forall values current,
  occurs doubleQuote line = false ->
  parseLoop line values current false
  = values ++ (trim <$> extendFirst current (split comma line)).
Proof.
  induction line as [|char rest IH]; intros values current Hquote; simpl.
  - by rewrite append_empty_r.
  - simpl in Hquote. apply orb_false_iff in Hquote as [Hq Hrest]. rewrite Hq.
    destruct (Ascii.eqb char comma) eqn:Hc; simpl.
    + rewrite IH by done. rewrite append_empty_r, <- app_assoc. simpl.
      do 2 f_equal. pose proof (split_nonempty comma rest).
      by destruct (split comma rest).
    + rewrite IH by done. f_equal. pose proof (split_nonempty comma rest).
      destruct (split comma rest) as [|part parts]; [done|]. simpl.
      by rewrite append_assoc.
Qed.

End LineFacts.

(** X15. Whatever the line, [parseCSVLine] returns at least one value (the
    empty line gives one empty value), no returned value contains a double
    quote, and every returned value is trimmed. *)
Theorem parseCSVLine_values (line : string) :
  Csv.parseCSVLine line <> []
  /\ forall v, v ∈ Csv.parseCSVLine line ->
       Text.occurs Text.doubleQuote v = false /\ Text.trim v = v.
Proof.
  destruct (parseLoop_values line [] "" false) as [Hne Hall]; [done|done|].
  split; [done|]. intros v Hv. rewrite Forall_forall in Hall. by apply Hall.
Qed.

(** X16. On a line without double quotes [parseCSVLine] is [split(',')]
    followed by [trim] of every part, which is how [parseCSV] reads the
    header line: headers and cells are then read alike. *)
Theorem parseCSVLine_without_quotes (line : string) :
  Text.occurs Text.doubleQuote line = false ->
  Csv.parseCSVLine line = Text.trim <$> Text.split Text.comma line.
Proof.
  intros Hquote. unfold Csv.parseCSVLine. rewrite parseLoop_plain by done. simpl.
  pose proof (split_nonempty Text.comma line).
  by destruct (Text.split Text.comma line).
Qed.

Lemma parseCSVLine_without_quotes_witness :
  Csv.parseCSVLine " label , 450,,0.5 "
  = Text.trim <$> Text.split Text.comma " label , 450,,0.5 ".
Proof. apply (parseCSVLine_without_quotes " label , 450,,0.5 "). reflexivity. Defined.

Section EscapeFacts.
Import Text Csv.

Lemma includes_char s c : includes s (String c "") = occurs c s.
Proof.
  unfold includes, JS.indexOf.
  replace (Z.to_nat (Z.min (Z.max 0 0) (JS.strLength s))) with 0%nat
    by (pose proof (strLength_nonneg s); lia).
  induction s as [|b s IH]; [done|]. simpl.
  destruct (ascii_dec c b) as [->|Hne].
  - rewrite Ascii.eqb_refl. by destruct s.
  - destruct (Ascii.eqb_spec b c) as [->|_]; [done|]. simpl. rewrite <- IH.
    destruct (String.index 0 (String c "") s); simpl; [|done].
    by destruct (Z.eqb_spec (Z.of_nat (S n)) (-1)), (Z.eqb_spec (Z.of_nat n) (-1)); try lia.
Qed.

Lemma withoutQuotes_plain s : occurs doubleQuote s = false -> withoutQuotes s = s.
Proof.
  induction s as [|c s IH]; [done|]. simpl. intros [Hc Hs]%orb_false_iff.
  rewrite Hc. by rewrite IH.
Qed.

(** Characters that are no quote, and no comma outside quotes, are collected. *)
Lemma parseLoop_collect s : forall rest values current inQuotes,
  occurs doubleQuote s = false ->
  inQuotes = true \/ occurs comma s = false ->
  parseLoop (s +:+ rest) values current inQuotes
  = parseLoop rest values (current +:+ s) inQuotes.
Proof.
  induction s as [|c s IH]; intros rest values current inQuotes Hquote Hcomma.
  - by rewrite append_empty_r.
  - rewrite append_cons. simpl. simpl in Hquote.
    apply orb_false_iff in Hquote as [Hq Hs]. rewrite Hq.
    assert (Ascii.eqb c comma && negb inQuotes = false) as ->.
    { destruct Hcomma as [->|Hcomma]; [apply andb_false_r|].
      simpl in Hcomma. apply orb_false_iff in Hcomma as [-> _]. done. }
    rewrite IH; [|done|].
    + by rewrite append_assoc.
    + destruct Hcomma as [?|Hcomma]; [by left|right].
      simpl in Hcomma. by apply orb_false_iff in Hcomma as [_ ?].
Qed.

(** Inside quotes a doubled quote toggles twice and leaves no character. *)
Lemma parseLoop_doubled s : forall rest values current,
  parseLoop (doubleQuotes s +:+ rest) values current true
  = parseLoop rest values (current +:+ withoutQuotes s) true.
Proof.
  induction s as [|c s IH]; intros rest values current.
  - by rewrite append_empty_r.
  - simpl. destruct (Ascii.eqb c doubleQuote) eqn:Hc.
    + rewrite !append_cons. simpl. apply IH.
    + rewrite append_cons. simpl. rewrite Hc, andb_false_r. rewrite IH.
      by rewrite append_assoc.
Qed.

Lemma parseLoop_quote rest values current inQuotes :
  parseLoop (String doubleQuote rest) values current inQuotes
  = parseLoop rest values current (negb inQuotes).
Proof. done. Qed.

Lemma parseLoop_escaped text rest values current :
  parseLoop (escapeCsvValue (JsString text) +:+ rest) values current false
  = parseLoop rest values (current +:+ withoutQuotes text) false.
Proof.
  unfold escapeCsvValue. cbn [toText]. rewrite !includes_char.
  destruct (occurs comma text || occurs doubleQuote text || occurs lineFeed text)
    eqn:Hany.
  - rewrite !append_assoc. rewrite (append_cons doubleQuote ""), parseLoop_quote.
    change (negb false) with true.
    change ("" +:+ doubleQuotes text +:+ String doubleQuote "" +:+ rest)
      with (doubleQuotes text +:+ String doubleQuote rest).
    by rewrite parseLoop_doubled, parseLoop_quote.
  - apply orb_false_iff in Hany as [[Hcomma Hquote]%orb_false_iff _].
    rewrite parseLoop_collect by auto. by rewrite withoutQuotes_plain.
Qed.

Lemma join_cons sep part parts :
  parts <> [] -> join sep (part :: parts) = part +:+ sep +:+ join sep parts.
Proof. by destruct parts. Qed.

Lemma parseLoop_escaped_cells cells : forall values,
  cells <> [] ->
  parseLoop (join "," ((fun text => escapeCsvValue (JsString text)) <$> cells))
    values "" false
  = values ++ ((fun text => trim (withoutQuotes text)) <$> cells).
Proof.
  induction cells as [|text cells IH]; intros values Hne; [done|].
  destruct cells as [|text' cells].
  - simpl. rewrite <- (append_empty_r (escapeCsvValue (JsString text))).
    by rewrite parseLoop_escaped.
  - rewrite fmap_cons, join_cons by done. rewrite parseLoop_escaped.
    rewrite append_cons. simpl parseLoop at 1.
    rewrite IH by done. by rewrite <- app_assoc.
Qed.

Lemma escapeCsvValue_cell inheritedText row header :
  escapeCsvValue (cellValue inheritedText row header)
  = escapeCsvValue (JsString (cellText inheritedText row header)).
Proof.
  unfold cellText, cellValue.
  destruct (member inheritedText row header) as [| |s|[] text];
    cbn [truthy]; try done.
  by destruct (negb (String.eqb s "")).
Qed.

Lemma member_own inheritedText row header :
  header ∉ inheritedNames ->
  member inheritedText row header = default JsUndefined (row !! header).
Proof.
  intros Hown. unfold member. destruct (row !! header); [done|].
  by rewrite bool_decide_eq_false_2.
Qed.

End EscapeFacts.

(** X17. A line written by joining escaped cells with commas, as
    [convertToCSV] writes every row, is read back by [parseCSVLine] as the
    same number of cells, each the written text without its double quotes
    and trimmed: commas and line feeds inside a cell survive, double quotes
    and surrounding white space do not. *)
Theorem parseCSVLine_reads_escaped_cells (cells : list string) :
  cells <> [] ->
  Csv.parseCSVLine
    (Text.join "," ((fun text => Csv.escapeCsvValue (Csv.JsString text)) <$> cells))
  = (fun text => Text.trim (Text.withoutQuotes text)) <$> cells.
Proof. intros Hne. unfold Csv.parseCSVLine. by rewrite parseLoop_escaped_cells. Qed.

Lemma parseCSVLine_reads_escaped_cells_witness :
  Csv.parseCSVLine
    (Text.join ","
       ((fun text => Csv.escapeCsvValue (Csv.JsString text))
          <$> ["label"; "450, 470"; " padded "]))
  = (fun text => Text.trim (Text.withoutQuotes text))
      <$> ["label"; "450, 470"; " padded "].
Proof. apply (parseCSVLine_reads_escaped_cells ["label"; "450, 470"; " padded "]). done. Defined.

Section FileFacts.
Import Text Csv.

Lemma assignCells_is_Some headers : forall index values obj key,
  is_Some (assignCells headers index values obj !! key)
  <-> (key ∈ headers /\ key <> "__proto__") \/ is_Some (obj !! key).
Proof.
  induction headers as [|header headers IH]; intros index values obj key; simpl.
  - rewrite elem_of_nil. tauto.
  - rewrite IH, elem_of_cons.
    destruct (String.eqb_spec header "__proto__") as [->|Hproto].
    + split; [tauto|]. intros [[[->|?] ?]|?]; [done|tauto|tauto].
    + rewrite lookup_insert_is_Some.
      destruct (decide (header = key)) as [->|Hne]; [tauto|].
      split; [intros [?|[?|[_ ?]]]; tauto|].
      intros [[[?|?] ?]|?]; [congruence|tauto|tauto].
Qed.

Lemma assignCells_absent headers : forall index values obj key,
  key ∉ headers ->
  assignCells headers index values obj !! key = obj !! key.
Proof.
  induction headers as [|header headers IH]; intros index values obj key Hkey;
    [done|].
  apply not_elem_of_cons in Hkey as [Hne Hkey]. simpl. rewrite IH by done.
  destruct (String.eqb header "__proto__"); [done|]. by rewrite lookup_insert_ne.
Qed.

(** A header that is not repeated further right keeps the cell of its
    column. *)
Lemma assignCells_column headers : forall index values obj i header,
  headers !! i = Some header -> header <> "__proto__" ->
  (forall j, (i < j)%nat -> headers !! j <> Some header) ->
  assignCells headers index values obj !! header
  = Some (default "" (values !! (index + i)%nat)).
Proof.
  induction headers as [|h headers IH]; intros index values obj i header Hi Hproto
    Hlast; [done|].
  destruct i as [|i]; simpl.
  - injection Hi as ->. rewrite assignCells_absent.
    + destruct (String.eqb_spec header "__proto__"); [done|].
      by rewrite lookup_insert_eq, Nat.add_0_r.
    + intros (j & Hj)%list_elem_of_lookup. apply (Hlast (S j)); [lia|done].
  - simpl in Hi. replace (index + S i)%nat with (S index + i)%nat by lia.
    apply IH; [done|done|]. intros j Hj. apply (Hlast (S j)). lia.
Qed.

Lemma assignCells_lookup (cell : string -> string) headers :
  forall index values obj key,
  "__proto__" ∉ headers ->
  (forall k header, headers !! k = Some header ->
     default "" (values !! (index + k)%nat) = cell header) ->
  assignCells headers index values obj !! key
  = if decide (key ∈ headers) then Some (cell key) else obj !! key.
Proof.
  induction headers as [|header headers IH]; intros index values obj key Hproto
    Hcells; simpl.
  - destruct (decide (key ∈ [])) as [Hin|_]; [by apply elem_of_nil in Hin|done].
  - apply not_elem_of_cons in Hproto as [Hheader Hproto].
    destruct (String.eqb_spec header "__proto__") as [->|_]; [done|].
    rewrite IH; [|done|].
    2:{ intros k h Hk. rewrite <- (Hcells (S k) h Hk). do 2 f_equal. lia. }
    specialize (Hcells 0%nat header eq_refl). rewrite Nat.add_0_r in Hcells.
    rewrite Hcells.
    destruct (decide (key ∈ headers)) as [Hin|Hnotin].
    + rewrite decide_True; [done|]. rewrite elem_of_cons. by right.
    + destruct (decide (key = header)) as [->|Hne].
      * rewrite decide_True by (rewrite elem_of_cons; by left).
        by rewrite lookup_insert_eq.
      * rewrite decide_False; [by rewrite lookup_insert_ne|].
        rewrite elem_of_cons. tauto.
Qed.

Lemma foldl_rows headers lines : forall results,
  foldl (fun results line =>
           if String.eqb (trim line) "" then results
           else results ++ [assignCells headers 0 (parseCSVLine line) ∅])
        results lines
  = results ++ (parsedRow headers <$> filter (fun line => trim line <> "") lines).
Proof.
  induction lines as [|line lines IH]; intros results; simpl.
  - by rewrite app_nil_r.
  - rewrite IH. destruct (String.eqb_spec (trim line) "") as [Heq|Hne].
    + rewrite filter_cons_False; [done|]. by intros ?.
    + rewrite filter_cons_True by done. by rewrite <- app_assoc.
Qed.

End FileFacts.

(** X18. What [parseCSV] returns, for every content. The trimmed content
    always has a first line; its comma-separated parts, trimmed, are the
    headers. There is one object for every later line that is not blank, in
    the order of the lines. The members of the object are the headers other
    than [__proto__], whatever the number of cells on its line: a header
    that is not repeated further right holds the cell of its column as
    [parseCSVLine] reads it, the empty string when the line has no such
    cell, and cells beyond the last header are dropped. *)
Theorem parseCSV_rows_follow_headers (content : string) :
  exists first rest,
    Text.split Text.lineFeed (Text.trim content) = first :: rest
    /\ let headers := Text.trim <$> Text.split Text.comma first in
       let lines := filter (fun line => Text.trim line <> "") rest in
       length (Csv.parseCSV content) = length lines
       /\ forall k line, lines !! k = Some line ->
            exists row,
              Csv.parseCSV content !! k = Some row
              /\ (forall key, is_Some (row !! key)
                              <-> key ∈ headers /\ key <> "__proto__")
              /\ (forall i header,
                    headers !! i = Some header -> header <> "__proto__" ->
                    (forall j, (i < j)%nat -> headers !! j <> Some header) ->
                    row !! header
                    = Some (default "" (Csv.parseCSVLine line !! i))).
Proof.
  unfold Csv.parseCSV.
  pose proof (split_nonempty Text.lineFeed (Text.trim content)) as Hne.
  destruct (Text.split Text.lineFeed (Text.trim content)) as [|first rest];
    [done|].
  exists first, rest. split; [done|]. cbn zeta. rewrite foldl_rows. simpl. split.
  - by rewrite length_fmap.
  - intros k line Hline. eexists. split.
    + rewrite list_lookup_fmap, Hline. done.
    + unfold Csv.parsedRow. split.
      * intros key. rewrite assignCells_is_Some, lookup_empty.
        split; [intros [?|[? ?]]; [done|done]|by left].
      * intros i header Hi Hproto Hlast.
        by rewrite (assignCells_column _ 0%nat _ _ i header Hi Hproto Hlast).
Qed.

Section RoundTripFacts.
Import Text Csv.

Lemma occurs_doubleQuotes c s : occurs c (doubleQuotes s) = occurs c s.
Proof.
  induction s as [|c' s IH]; [done|]. cbn [doubleQuotes occurs].
  destruct (Ascii.eqb_spec c' doubleQuote) as [->|_]; cbn [occurs]; rewrite IH;
    [|done].
  by destruct (Ascii.eqb doubleQuote c).
Qed.

Lemma occurs_join c sep parts :
  occurs c sep = false -> Forall (fun part => occurs c part = false) parts ->
  occurs c (join sep parts) = false.
Proof.
  intros Hsep. induction 1 as [|part parts Hpart _ IH]; [done|].
  destruct parts as [|part' parts]; [done|].
  rewrite join_cons by done. by rewrite !occurs_append, Hpart, Hsep, IH.
Qed.

Lemma occurs_escaped c text :
  c <> doubleQuote -> occurs c (escapeCsvValue (JsString text)) = occurs c text.
Proof.
  intros Hc. unfold escapeCsvValue. cbn [toText].
  destruct (_ || _); [|done].
  rewrite !occurs_append, occurs_doubleQuotes. cbn [occurs].
  destruct (Ascii.eqb_spec doubleQuote c) as [<-|_]; [done|].
  by rewrite !orb_false_r.
Qed.

Lemma escaped_plain text :
  occurs comma text = false -> occurs doubleQuote text = false ->
  occurs lineFeed text = false -> escapeCsvValue (JsString text) = text.
Proof.
  intros Hcomma Hquote Hfeed. unfold escapeCsvValue. cbn [toText].
  by rewrite !includes_char, Hcomma, Hquote, Hfeed.
Qed.

Lemma split_plain sep s : occurs sep s = false -> split sep s = [s].
Proof.
  induction s as [|c s IH]; [done|]. simpl. intros [-> Hs]%orb_false_iff.
  by rewrite IH.
Qed.

Lemma split_append sep part rest :
  occurs sep part = false ->
  split sep (part +:+ String sep rest) = part :: split sep rest.
Proof.
  induction part as [|c part IH]; intros Hpart.
  - simpl. by rewrite Ascii.eqb_refl.
  - simpl in Hpart. apply orb_false_iff in Hpart as [Hc Hpart].
    rewrite append_cons. simpl. by rewrite Hc, IH.
Qed.

Lemma split_join sep parts :
  parts <> [] -> Forall (fun part => occurs sep part = false) parts ->
  split sep (join (String sep "") parts) = parts.
Proof.
  intros Hne Hparts. induction Hparts as [|part parts Hpart _ IH]; [done|].
  destruct parts as [|part' parts]; [by apply split_plain|].
  rewrite join_cons by done. rewrite append_cons.
  change ("" +:+ join (String sep "") (part' :: parts))
    with (join (String sep "") (part' :: parts)).
  rewrite split_append by done. by rewrite IH.
Qed.

Lemma startsClean_append s t : s <> "" -> startsClean s -> startsClean (s +:+ t).
Proof. by destruct s. Qed.

Lemma endsClean_append s t :
  endsClean t -> (t = "" -> endsClean s) -> endsClean (s +:+ t).
Proof.
  intros Ht Hs. induction s as [|c s IH]; [done|].
  rewrite append_cons. destruct (s +:+ t) as [|c' u] eqn:E.
  - destruct s as [|c0 s0]; [|by rewrite append_cons in E].
    change (t = "") in E. subst t. by apply Hs.
  - change (endsClean (String c' u)). apply IH. intros ->. specialize (Hs eq_refl).
    rewrite append_empty_r in E. subst s. done.
Qed.

Lemma endsClean_join_cells cells :
  Forall endsClean cells -> endsClean (join "," cells).
Proof.
  induction 1 as [|cell cells Hcell _ IH]; [done|].
  destruct cells as [|cell' cells]; [done|].
  rewrite join_cons by done. apply endsClean_append; [|done].
  apply endsClean_append; [done|]. by intros _.
Qed.

Lemma endsClean_join_lines lines :
  lines <> [] -> Forall (fun line => line <> "" /\ endsClean line) lines ->
  join (String lineFeed "") lines <> "" /\ endsClean (join (String lineFeed "") lines).
Proof.
  intros Hne Hlines. induction Hlines as [|line lines [Hline Hclean] _ IH]; [done|].
  destruct lines as [|line' lines]; [done|].
  rewrite join_cons by done. destruct IH as [IHne IHclean]; [done|]. split.
  - by destruct line.
  - apply endsClean_append; [|done]. apply endsClean_append; [done|done].
Qed.

Lemma occurs_join_two c cell cell' cells :
  occurs c (join (String c "") (cell :: cell' :: cells)) = true.
Proof.
  rewrite join_cons by done. rewrite occurs_append. simpl.
  by rewrite Ascii.eqb_refl, orb_true_r.
Qed.

Lemma occurs_trimStart_true c s :
  isSpace c = false -> occurs c s = true -> occurs c (trimStart s) = true.
Proof.
  intros Hc. induction s as [|c' s IH]; [done|]. simpl.
  destruct (isSpace c') eqn:Hc'; [|done].
  destruct (Ascii.eqb_spec c' c) as [->|_]; [congruence|]. apply IH.
Qed.

Lemma occurs_trimEnd_true c s :
  isSpace c = false -> occurs c s = true -> occurs c (trimEnd s) = true.
Proof.
  intros Hc. induction s as [|c' s IH]; [done|]. rewrite trimEnd_cons. simpl.
  destruct (Ascii.eqb_spec c' c) as [->|Hne]; simpl.
  - intros _. rewrite Hc. destruct (trimEnd s); simpl; by rewrite Ascii.eqb_refl.
  - intros Hs. specialize (IH Hs).
    destruct (trimEnd s) as [|c'' t]; [done|].
    cbn [occurs] in *. by rewrite IH, orb_true_r.
Qed.

Lemma trim_nonempty c s : isSpace c = false -> occurs c s = true -> trim s <> "".
Proof.
  intros Hc Hs Hempty.
  pose proof (occurs_trimEnd_true c _ Hc (occurs_trimStart_true c _ Hc Hs)) as H.
  unfold trim in Hempty. by rewrite Hempty in H.
Qed.

Lemma plainText_clean text : plainText text -> startsClean text /\ endsClean text.
Proof. intros (_ & _ & <-). apply trim_is_clean. Qed.

Lemma escaped_endsClean text : plainText text -> endsClean (escapeCsvValue (JsString text)).
Proof.
  intros Hplain. unfold escapeCsvValue. cbn [toText].
  destruct (_ || _); [|by apply plainText_clean].
  rewrite <- append_assoc. by apply endsClean_append.
Qed.

Lemma filter_kept {A} (P : A -> Prop) `{forall x, Decision (P x)} (l : list A) :
  Forall P l -> filter P l = l.
Proof.
  induction 1 as [|x l Hx _ IH]; [done|]. by rewrite filter_cons_True, IH.
Qed.

Lemma fmap_id_on {A} (f : A -> A) (l : list A) :
  Forall (fun x => f x = x) l -> f <$> l = l.
Proof. induction 1 as [|x l Hx _ IH]; [done|]. by rewrite fmap_cons, Hx, IH. Qed.

Section Written.
Variable inheritedText : string -> string.
Variable rows : list (gmap string JsValue).
Variable headers : list string.
Hypothesis two_columns : (2 <= length headers)%nat.
Hypothesis plain_headers : Forall plainHeader headers.
Hypothesis plain_cells :
  forall row header, row ∈ rows -> header ∈ headers -> plainText (cellText inheritedText row header).

Lemma writtenLine_escaped row :
  writtenLine inheritedText headers row
  = join "," ((fun text => escapeCsvValue (JsString text)) <$> (cellText inheritedText row <$> headers)).
Proof.
  unfold writtenLine. f_equal. rewrite <- list_fmap_compose.
  apply list_fmap_ext. intros _ header _. apply escapeCsvValue_cell.
Qed.

Lemma header_row :
  join "," ((fun header => escapeCsvValue (JsString header)) <$> headers)
  = join "," headers.
Proof.
  f_equal. apply fmap_id_on. eapply Forall_impl; [exact plain_headers|].
  intros header (_ & Hcomma & Hquote & Hfeed & _). by apply escaped_plain.
Qed.

Lemma header_row_parts : trim <$> split comma (join "," headers) = headers.
Proof.
  rewrite split_join.
  - apply fmap_id_on. eapply Forall_impl; [exact plain_headers|].
    by intros header (_ & _ & _ & _ & Htrim).
  - destruct headers; [simpl in two_columns; lia|done].
  - eapply Forall_impl; [exact plain_headers|]. by intros header (_ & Hcomma & _).
Qed.

Lemma header_row_clean :
  join "," headers <> "" /\ startsClean (join "," headers)
  /\ endsClean (join "," headers) /\ occurs lineFeed (join "," headers) = false.
Proof.
  destruct headers as [|header [|header' others]]; [simpl in two_columns; lia..|].
  pose proof plain_headers as Hplain.
  apply Forall_cons in Hplain as [(Hne & _ & Hheader) _].
  split; [|split; [|split]].
  - rewrite join_cons by done. by destruct header.
  - rewrite join_cons by done. apply startsClean_append; [done|].
    by apply plainText_clean.
  - apply endsClean_join_cells. eapply Forall_impl; [exact plain_headers|].
    intros h (_ & _ & Hh). by apply plainText_clean.
  - apply occurs_join; [done|]. eapply Forall_impl; [exact plain_headers|].
    by intros h (_ & _ & _ & Hfeed & _).
Qed.

Lemma writtenLine_clean row :
  row ∈ rows ->
  writtenLine inheritedText headers row <> "" /\ endsClean (writtenLine inheritedText headers row)
  /\ occurs lineFeed (writtenLine inheritedText headers row) = false /\ trim (writtenLine inheritedText headers row) <> "".
Proof.
  intros Hrow. rewrite writtenLine_escaped.
  assert (Forall (fun header => plainText (cellText inheritedText row header)) headers) as Hcells.
  { apply Forall_forall. intros header Hheader. by apply plain_cells. }
  assert (occurs comma
            (join "," ((fun text => escapeCsvValue (JsString text))
                         <$> (cellText inheritedText row <$> headers))) = true) as Hcomma.
  { destruct headers as [|header [|header' others]]; [simpl in two_columns; lia..|].
    rewrite !fmap_cons. apply (occurs_join_two comma). }
  split; [|split; [|split]].
  - intros Hempty. by rewrite Hempty in Hcomma.
  - apply endsClean_join_cells. rewrite <- list_fmap_compose.
    apply Forall_fmap. eapply Forall_impl; [exact Hcells|].
    intros header Hplain. by apply escaped_endsClean.
  - apply occurs_join; [done|]. rewrite <- list_fmap_compose.
    apply Forall_fmap. eapply Forall_impl; [exact Hcells|].
    intros header (_ & Hfeed & _). cbn [compose]. by rewrite occurs_escaped.
  - by apply (trim_nonempty comma).
Qed.

Lemma writtenLine_parsed row :
  row ∈ rows -> parseCSVLine (writtenLine inheritedText headers row) = cellText inheritedText row <$> headers.
Proof.
  intros Hrow. rewrite writtenLine_escaped. unfold parseCSVLine.
  rewrite parseLoop_escaped_cells.
  2:{ destruct headers; [simpl in two_columns; lia|done]. }
  simpl. rewrite <- list_fmap_compose. apply list_fmap_ext.
  intros _ header Hheader%list_elem_of_lookup_2. cbn [compose].
  destruct (plain_cells row header Hrow Hheader) as (Hquote & _ & Htrim).
  by rewrite withoutQuotes_plain.
Qed.

Lemma written_content :
  parseCSV (convertToCSV inheritedText rows headers)
  = (fun row => assignCells headers 0 (cellText inheritedText row <$> headers) ∅) <$> rows.
Proof.
  unfold convertToCSV. rewrite header_row.
  change (fun row => join "," ((fun header => escapeCsvValue (cellValue inheritedText row header))
                                 <$> headers)) with (writtenLine inheritedText headers).
  destruct header_row_clean as (Hne & Hstart & Hend & Hfeed).
  assert (Forall (fun line => line <> "" /\ endsClean line
                              /\ occurs lineFeed line = false /\ trim line <> "")
            (writtenLine inheritedText headers <$> rows)) as Hlines.
  { apply Forall_fmap, Forall_forall. intros row Hrow. by apply writtenLine_clean. }
  unfold parseCSV. rewrite trim_clean.
  - rewrite split_join; [|done|].
    2:{ constructor; [done|]. eapply Forall_impl; [exact Hlines|]. by intros ? (_&_&?&_). }
    rewrite header_row_parts, foldl_rows. simpl.
    rewrite filter_kept.
    2:{ eapply Forall_impl; [exact Hlines|]. by intros ? (_&_&_&?). }
    rewrite <- list_fmap_compose. apply list_fmap_ext.
    intros _ row Hrow%list_elem_of_lookup_2. cbn [compose]. unfold parsedRow.
    by rewrite writtenLine_parsed.
  - destruct rows as [|row others]; [done|].
    rewrite fmap_cons, join_cons by done. by apply startsClean_append.
  - apply endsClean_join_lines; [done|]. constructor; [done|].
    eapply Forall_impl; [exact Hlines|]. by intros ? (?&?&_).
Qed.

End Written.
End RoundTripFacts.

(** X19. Round trip of the extraction files. Take at least two headers
    that are non-empty, trimmed, free of comma, double quote and line feed
    and that are no names of members of [Object.prototype], and rows that
    are plain objects whose written cells are trimmed and free of double
    quote and line feed. Then [parseCSV (convertToCSV rows headers)] has one
    object per row, in order, whose members are the headers and whose value
    under a header is the text of the row's member: commas inside cells
    survive. A member the row lacks, and a member that is falsy (0, false,
    null, the empty string), come back as the empty string. *)
Theorem csv_round_trip (inheritedText : string -> string)
    (rows : list (gmap string Csv.JsValue)) (headers : list string) :
  (2 <= length headers)%nat ->
  Forall Csv.plainHeader headers ->
  Forall (fun header => header ∉ Csv.inheritedNames) headers ->
  (forall row header, row ∈ rows -> header ∈ headers ->
     Csv.plainText (Csv.cellText inheritedText row header)) ->
  length (Csv.parseCSV (Csv.convertToCSV inheritedText rows headers)) = length rows
  /\ forall i row, rows !! i = Some row ->
       exists parsed,
         Csv.parseCSV (Csv.convertToCSV inheritedText rows headers) !! i = Some parsed
         /\ forall key,
              parsed !! key
              = if decide (key ∈ headers)
                then Some (match row !! key with
                           | Some value =>
                               if Csv.truthy value then Csv.toText value else ""
                           | None => ""
                           end)
                else None.
Proof.
  intros Htwo Hheaders Hown Hcells. rewrite written_content by done. split.
  - by rewrite length_fmap.
  - intros i row Hrow. eexists. split.
    + rewrite list_lookup_fmap, Hrow. done.
    + intros key. rewrite (assignCells_lookup (Csv.cellText inheritedText row)).
      * destruct (decide (key ∈ headers)) as [Hkey|]; [|done]. f_equal.
        rewrite Forall_forall in Hown.
        unfold Csv.cellText, Csv.cellValue. rewrite member_own by auto.
        destruct (row !! key) as [value|]; [|done]. simpl.
        by destruct (Csv.truthy value).
      * intros Hproto. rewrite Forall_forall in Hown.
        apply (Hown _ Hproto). unfold Csv.inheritedNames.
        rewrite !elem_of_cons. tauto.
      * intros k header Hk. simpl. by rewrite list_lookup_fmap, Hk.
Qed.

Lemma csv_round_trip_witness :
  length (Csv.parseCSV
            (Csv.convertToCSV Csv.nativeText [Csv.exampleRow] Csv.exampleHeaders))
  = 1%nat
  /\ exists parsed,
       Csv.parseCSV
         (Csv.convertToCSV Csv.nativeText [Csv.exampleRow] Csv.exampleHeaders)
         !! 0%nat
       = Some parsed
       /\ parsed !! "label" = Some "dye 1, in water"
       /\ parsed !! "absorption_max_nm" = Some "450"
       /\ parsed !! "quantum_yield" = Some ""
       /\ parsed !! "lifetime_ns" = None.
Proof.
  destruct (csv_round_trip Csv.nativeText [Csv.exampleRow] Csv.exampleHeaders)
    as [Hlength Hrows].
  - simpl. lia.
  - repeat constructor; done.
  - apply Forall_forall. intros header Hheader Hin.
    unfold Csv.exampleHeaders in Hheader. unfold Csv.inheritedNames in Hin.
    rewrite !elem_of_cons, elem_of_nil in Hheader.
    rewrite !elem_of_cons, elem_of_nil in Hin.
    destruct Hheader as [->|[->|[->|[]]]]; intuition discriminate.
  - intros row header ->%list_elem_of_singleton Hheader.
    unfold Csv.exampleHeaders in Hheader.
    rewrite !elem_of_cons, elem_of_nil in Hheader.
    destruct Hheader as [->|[->|[->|[]]]]; by vm_compute.
  - split; [done|]. destruct (Hrows 0%nat Csv.exampleRow eq_refl) as (parsed & Hparsed & Hkeys).
    exists parsed. split; [done|]. rewrite !Hkeys. by vm_compute.
Defined.

(** ** Waiting for a parsing task *)

Section Polling.
Import Mineru.
Variable getTask : nat -> Settled TaskData.

Lemma waitLoop_step fuel request timeWaited :
  waitLoop getTask (S fuel) request timeWaited
  = match verdict (getTask request) with
    | Some outcome => Some outcome
    | None =>
        if maxTimeToWait <? timeWaited + requestPeriod
        then Some (Rejected timeoutMessage)
        else waitLoop getTask fuel (S request) (timeWaited + requestPeriod)
    end.
Proof.
  cbn [waitLoop]. unfold verdict.
  destruct (getTask request) as [data|message]; [|done].
  destruct (state data); try done.
  destruct (full_zip_url data) as [url|]; [|done]. by destruct (String.eqb url "").
Qed.

Lemma waitLoop_undecided n : forall fuel request,
  (forall j, (j < n)%nat -> verdict (getTask (request + j)) = None) ->
  (request + n <= 300)%nat ->
  waitLoop getTask (n + fuel) request (requestPeriod * Z.of_nat request)
  = waitLoop getTask fuel (request + n) (requestPeriod * Z.of_nat (request + n)).
Proof.
  induction n as [|n IH]; intros fuel request Hnone Hle.
  - by rewrite Nat.add_0_r.
  - change (S n + fuel)%nat with (S (n + fuel)). rewrite waitLoop_step.
    pose proof (Hnone 0%nat ltac:(lia)) as H0. rewrite Nat.add_0_r in H0.
    rewrite H0. unfold maxTimeToWait, requestPeriod.
    destruct (Z.ltb_spec (10 * 60 * 1000) (2000 * Z.of_nat request + 2000)); [lia|].
    replace (2000 * Z.of_nat request + 2000) with (requestPeriod * Z.of_nat (S request))
      by (unfold requestPeriod; lia).
    rewrite IH; [|intros j Hj|lia].
    + by replace (S request + n)%nat with (request + S n)%nat by lia.
    + replace (S request + j)%nat with (request + S j)%nat by lia. apply Hnone. lia.
Qed.

End Polling.

(** X20. The wait for a parsing task always ends within 301 requests. The
    first response among them that is decisive (a rejected request, a failed
    task, a done task with or without result address) settles the outcome;
    when none of the first 301 responses is decisive the wait fails with the
    timeout message, after the 301st request and 602 seconds of pauses. *)
Theorem waitForParsingResult_polls (getTask : nat -> Settled Mineru.TaskData)
    (fuel : nat) :
  (301 <= fuel)%nat ->
  (forall k outcome,
     (k <= 300)%nat ->
     (forall j, (j < k)%nat -> Mineru.verdict (getTask j) = None) ->
     Mineru.verdict (getTask k) = Some outcome ->
     Mineru.waitForParsingResult getTask fuel = Some outcome)
  /\ ((forall j, (j <= 300)%nat -> Mineru.verdict (getTask j) = None) ->
      Mineru.waitForParsingResult getTask fuel
      = Some (Rejected Mineru.timeoutMessage)).
Proof.
  intros Hfuel. unfold Mineru.waitForParsingResult. split.
  - intros k outcome Hk Hbefore Hdecisive.
    replace fuel with (k + S (fuel - k - 1))%nat by lia.
    change 0 with (Mineru.requestPeriod * Z.of_nat 0).
    rewrite waitLoop_undecided; [|done|lia].
    rewrite waitLoop_step. simpl plus. by rewrite Hdecisive.
  - intros Hnone.
    replace fuel with (300 + S (fuel - 301))%nat by lia.
    change 0 with (Mineru.requestPeriod * Z.of_nat 0).
    rewrite waitLoop_undecided; [|intros j Hj; apply Hnone; lia|lia].
    rewrite waitLoop_step. simpl plus. rewrite Hnone by lia. done.
Qed.

Lemma waitForParsingResult_polls_witness :
  Mineru.waitForParsingResult Mineru.exampleTask 301
  = Some (Fulfilled "https://cdn.example/result.zip").
Proof.
  apply (proj1 (waitForParsingResult_polls Mineru.exampleTask 301 (le_n 301)) 2%nat).
  - lia.
  - intros [|[|j]] Hj; [done|done|lia].
  - done.
Defined.

(** ** The batch drivers *)

Section Drivers.
Import Tools Controller Batch.

Lemma sink_ongoing events : forall answer,
  Forall ongoing events -> foldl sink answer events = answer.
Proof.
  induction events as [|e events IH]; intros answer Hongoing; [done|].
  apply Forall_cons in Hongoing as [[Hanswer _] Hrest]. simpl.
  unfold sink at 2. unfold isAnswer in Hanswer. rewrite Hanswer. by apply IH.
Qed.

Lemma captured_answer generateText question fullContent chunks options
    startTime finishTime :
  capture (agenticReaderWithEvents generateText question fullContent chunks options
             startTime finishTime)
  = match settled (generateText
                     (mkRequest (default "gpt-5-mini" (model options))
                        (systemPrompt question chunks) (userPrompt question)
                        (max_iterations options))) with
    | Fulfilled (text, _) => text
    | Rejected _ => ""
    end.
Proof.
  destruct (session_trace generateText question fullContent chunks options
              startTime finishTime) as (toolEvents & tail & -> & Hongoing & Htail).
  unfold capture. rewrite !foldl_app. cbn [foldl].
  unfold sink at 3 4 5. cbn [event String.eqb Ascii.eqb Bool.eqb].
  rewrite (sink_ongoing toolEvents) by done.
  destruct (settled _) as [[text steps]|message].
  - destruct Htail as (status & stats & Hstatus & ->).
    rewrite !foldl_app. cbn [foldl]. unfold sink at 3 4. rewrite Hstatus.
    cbn [event data String.eqb Ascii.eqb Bool.eqb].
    destruct (default false (include_metadata options)); done.
  - by rewrite Htail.
Qed.

End Drivers.

(** X21. What [processHtmlJsonFile] answers for a file without CSV is
    decided by the reasoning call alone: when that call fails, or returns
    the empty text, the result is the failure No answer was generated (the
    message of the failed call is not reported, the reader having turned it
    into an event); otherwise the result is that of the extraction on the
    returned text. A file whose CSV exists is skipped without any call. *)
Theorem processHtmlJsonFile_outcome
    (generateText : Controller.GenerateRequest -> Controller.Reasoning)
    (extractToCSV : string -> string -> Settled Z) (file : Batch.FileInput) :
  Batch.processHtmlJsonFile generateText extractToCSV file
  = if Batch.csvExists file then Batch.mkFileResult true true None None
    else
      match Controller.settled
              (generateText
                 (Controller.mkRequest "gpt-5"
                    (Controller.systemPrompt Batch.question (Batch.chunks file))
                    (Controller.userPrompt Batch.question) (Some 30))) with
      | Fulfilled (text, _) =>
          if String.eqb text "" then
            Batch.mkFileResult false false (Some "No answer was generated") None
          else
            match extractToCSV (Batch.jsonPath file) text with
            | Fulfilled rows => Batch.mkFileResult true false None (Some rows)
            | Rejected message => Batch.mkFileResult false false (Some message) None
            end
      | Rejected _ =>
          Batch.mkFileResult false false (Some "No answer was generated") None
      end.
Proof.
  unfold Batch.processHtmlJsonFile. destruct (Batch.csvExists file); [done|].
  rewrite captured_answer. cbn [Controller.model Controller.max_iterations
    Batch.options default from_option id].
  destruct (Controller.settled _) as [[text steps]|message]; [|done].
  by destruct (String.eqb text "").
Qed.

Section DriverCounts.
Import Batch.

Lemma tally_partition (results : list FileResult) :
  Forall (fun r => skipped r = true -> success r = true) results ->
  (length (filter (fun r => success r && negb (skipped r) = true) results)
   + length (filter (fun r => skipped r = true) results)
   + length (filter (fun r => negb (success r) = true) results)
   = length results)%nat.
Proof.
  induction 1 as [|r results Hr _ IH]; [done|].
  rewrite !filter_cons. cbn [length]. rewrite <- IH.
  destruct (success r), (skipped r); simpl in *;
    repeat case_decide; try done; simpl; try lia.
Qed.

Lemma processHtmlJsonFile_skipped generateText extractToCSV file :
  skipped (processHtmlJsonFile generateText extractToCSV file) = csvExists file
  /\ (csvExists file = true ->
      success (processHtmlJsonFile generateText extractToCSV file) = true).
Proof.
  unfold processHtmlJsonFile. destruct (csvExists file); [done|].
  destruct (negb _); [destruct (extractToCSV _ _)|]; done.
Qed.

End DriverCounts.

(** X22. The three counts that [processAllHtmlJsonFiles] prints add up to
    the number of files: every result is counted as successful, skipped or
    failed and never twice, a skipped file not counting as successful. The
    skipped count is the number of files whose CSV exists. *)
Theorem processAllHtmlJsonFiles_counts
    (generateText : Controller.GenerateRequest -> Controller.Reasoning)
    (extractToCSV : string -> string -> Settled Z) (files : list Batch.FileInput) :
  exists successful skipped failed,
    Batch.processAllHtmlJsonFiles generateText extractToCSV files
    = (successful, skipped, failed)
    /\ (successful + skipped + failed)%nat = length files
    /\ skipped = length (filter (fun file => Batch.csvExists file = true) files).
Proof.
  unfold Batch.processAllHtmlJsonFiles. eexists _, _, _. split; [reflexivity|]. split.
  - rewrite tally_partition; [by rewrite length_fmap|].
    apply Forall_fmap, Forall_forall. intros file _. cbn [compose].
    destruct (processHtmlJsonFile_skipped generateText extractToCSV file) as [-> Hs].
    done.
  - induction files as [|file files IH]; [done|].
    rewrite fmap_cons, !filter_cons.
    destruct (processHtmlJsonFile_skipped generateText extractToCSV file) as [-> _].
    destruct (Batch.csvExists file); repeat case_decide; try done; simpl; by rewrite IH.
Qed.

(** X23. [runAgenticReader] writes an answer file exactly when the
    reasoning call returned a non-empty text, and the file then holds that
    text; a failed reasoning call leaves no file and is not passed on as a
    failure of the run. *)
Theorem runAgenticReader_writes_answer
    (generateText : Controller.GenerateRequest -> Controller.Reasoning)
    (file : Batch.FileInput) :
  Batch.runAgenticReader generateText file
  = match Controller.settled
            (generateText
               (Controller.mkRequest "gpt-5"
                  (Controller.systemPrompt Batch.readerQuestion (Batch.chunks file))
                  (Controller.userPrompt Batch.readerQuestion) (Some 30))) with
    | Fulfilled (text, _) => if String.eqb text "" then None else Some text
    | Rejected _ => None
    end.
Proof.
  unfold Batch.runAgenticReader. rewrite captured_answer.
  cbn [Controller.model Controller.max_iterations Batch.options default
       from_option id].
  destruct (Controller.settled _) as [[text steps]|message]; [|done].
  by destruct (String.eqb text "").
Qed.

Section DatasetCounts.
Import Dataset.
Variable jsonExists : string -> bool.
Variable pdfToJSON : string -> Settled string.

Lemma convertLoop_counts files : forall counters,
  convertLoop jsonExists pdfToJSON files counters
  = mkCounters
      (converted counters
       + Z.of_nat (length (filter (fun file =>
                                     negb (jsonExists file)
                                     && match pdfToJSON file with
                                        | Fulfilled _ => true
                                        | Rejected _ => false
                                        end = true) files)))
      (skipped counters
       + Z.of_nat (length (filter (fun file => jsonExists file = true) files)))
      (failed counters
       + Z.of_nat (length (filter (fun file =>
                                     negb (jsonExists file)
                                     && match pdfToJSON file with
                                        | Fulfilled _ => false
                                        | Rejected _ => true
                                        end = true) files))).
Proof.
  induction files as [|file files IH]; intros [c s f].
  - simpl. f_equal; lia.
  - cbn [convertLoop]. rewrite !filter_cons.
    destruct (jsonExists file); [|destruct (pdfToJSON file)]; rewrite IH;
      repeat case_decide; try done; cbn [converted skipped failed length];
      f_equal; lia.
Qed.

End DatasetCounts.

(** X24. [convertDataset] accounts for every PDF file once: the counters
    converted, skipped and failed add up to the number of files whose
    lower-cased name ends with .pdf; skipped counts those whose JSON exists,
    failed those among the others whose conversion is rejected, and a
    rejected conversion does not stop the loop. *)
Theorem convertDataset_counts (jsonExists : string -> bool)
    (pdfToJSON : string -> Settled string) (files : list string) :
  let counters := Dataset.convertDataset jsonExists pdfToJSON files in
  Dataset.converted counters + Dataset.skipped counters + Dataset.failed counters
  = Z.of_nat (length (Dataset.pdfFiles files))
  /\ Dataset.skipped counters
     = Z.of_nat (length (filter (fun file => jsonExists file = true)
                           (Dataset.pdfFiles files)))
  /\ Dataset.failed counters
     = Z.of_nat (length (filter (fun file =>
                                   negb (jsonExists file)
                                   && match pdfToJSON file with
                                      | Fulfilled _ => false
                                      | Rejected _ => true
                                      end = true) (Dataset.pdfFiles files)))
  /\ 0 <= Dataset.converted counters.
Proof.
  cbn zeta. unfold Dataset.convertDataset. rewrite convertLoop_counts.
  cbn [Dataset.converted Dataset.skipped Dataset.failed].
  split; [|split; [done|split; [done|lia]]].
  induction (Dataset.pdfFiles files) as [|file pdfs IH]; [done|].
  rewrite !filter_cons.
  destruct (jsonExists file); [|destruct (pdfToJSON file)];
    repeat case_decide; try done; cbn [length]; lia.
Qed.

(** ** Scoring *)

Section NameFacts.
Import Text Scoring.

Lemma substring_prefix s t : String.substring 0 (String.length s) (s +:+ t) = s.
Proof.
  induction s as [|c s IH]; [by destruct t|].
  rewrite append_cons. simpl. by rewrite IH.
Qed.

Lemma substring_suffix s t :
  String.substring (String.length s) (String.length t) (s +:+ t) = t.
Proof.
  induction s as [|c s IH]; [apply substring_all|].
  rewrite append_cons. simpl. apply IH.
Qed.

Lemma replaceFirst_absent from to s :
  occurs from s = false -> replaceFirst from to s = s.
Proof.
  induction s as [|c s IH]; [done|]. simpl. intros [-> Hs]%orb_false_iff.
  by rewrite IH.
Qed.

Lemma matchExtracted_stem stem :
  stem <> "" -> anyChar isLineTerminator stem = false ->
  matchExtracted (stem +:+ extractedSuffix) = Some stem.
Proof.
  intros Hne Hline. unfold matchExtracted. rewrite length_append.
  replace (String.length stem + String.length extractedSuffix
           - String.length extractedSuffix)%nat with (String.length stem) by lia.
  rewrite substring_prefix, substring_suffix, Hline, String.eqb_refl.
  destruct (Nat.ltb_spec (String.length extractedSuffix)
              (String.length stem + String.length extractedSuffix)) as [_|Hle];
    [done|].
  destruct stem; [done|]. simpl in Hle. lia.
Qed.

Lemma includes_empty s : includes s "" = true.
Proof.
  unfold includes, JS.indexOf.
  replace (Z.to_nat (Z.min (Z.max 0 0) (JS.strLength s))) with 0%nat
    by (pose proof (strLength_nonneg s); lia).
  by rewrite index_empty_pattern.
Qed.

End NameFacts.

(** X25. [extractDOI] on the name of an extraction file, a non-empty stem
    without line break followed by .html_extracted.csv, returns the stem
    with its first hyphen, and only that one, turned into a slash. A stem
    without hyphen is returned as it is: a colon in it stays a colon. *)
Theorem extractDOI_of_extracted_name (stem : string) :
  stem <> "" ->
  Scoring.anyChar Scoring.isLineTerminator stem = false ->
  Scoring.extractDOI (stem +:+ Scoring.extractedSuffix)
  = Scoring.replaceFirst "-" "/" stem
  /\ (Text.occurs "-" stem = false ->
      Scoring.extractDOI (stem +:+ Scoring.extractedSuffix) = stem).
Proof.
  intros Hne Hline. unfold Scoring.extractDOI.
  rewrite matchExtracted_stem by done. split; [done|].
  intros Hhyphen. by apply replaceFirst_absent.
Qed.

Lemma extractDOI_of_extracted_name_witness :
  Scoring.extractDOI ("10.1021:cm400945h" +:+ Scoring.extractedSuffix)
  = "10.1021:cm400945h".
Proof.
  apply (extractDOI_of_extracted_name "10.1021:cm400945h"); done.
Defined.

(** X26. A file whose name does not match the pattern of [extractDOI] has
    the empty DOI, which every link includes: its entries are then scored
    against every ground-truth entry that has a link and an absorption
    value, whatever the article. Names such as paper_extracted.csv pass the
    file filter of the benchmark and do not match. *)
Theorem benchmark_without_doi (filename : string)
    (groundTruth : list (gmap string string)) :
  Scoring.matchExtracted filename = None ->
  Scoring.relevantGroundTruth (Scoring.extractDOI filename) groundTruth
  = List.filter
      (fun entry =>
         match entry !! "link" with
         | Some link => negb (String.eqb link "")
         | None => false
         end
         && negb (bool_decide (entry !! "Absorption max (nm)" = Some "")))
      groundTruth.
Proof.
  intros Hnone. unfold Scoring.extractDOI, Scoring.relevantGroundTruth.
  rewrite Hnone. apply List.filter_ext. intros entry. unfold Scoring.relevant.
  destruct (entry !! "link") as [link|]; [|done].
  by rewrite includes_empty, andb_true_r.
Qed.

Lemma benchmark_without_doi_witness :
  Scoring.relevantGroundTruth (Scoring.extractDOI "paper_extracted.csv")
    [ {[ "link" := "https://doi.org/10.1021/cm400945h";
         "Absorption max (nm)" := "450" ]};
      {[ "link" := "https://doi.org/10.1039/c3sc50290b";
         "Absorption max (nm)" := "" ]};
      {[ "link" := "https://doi.org/10.1002/anie.201207773";
         "Absorption max (nm)" := "512" ]} ]
  = [ {[ "link" := "https://doi.org/10.1021/cm400945h";
         "Absorption max (nm)" := "450" ]};
      {[ "link" := "https://doi.org/10.1002/anie.201207773";
         "Absorption max (nm)" := "512" ]} ].
Proof.
  rewrite (benchmark_without_doi "paper_extracted.csv"); [|done].
  by vm_compute.
Defined.

Section ScoreFacts.
Import Scoring.
Context {number : Type} `{Benchmark.JSNumber number}.

Lemma scoreEntry_scored relevantEntries state extracted :
  scored state ->
  scored (scoreEntry relevantEntries state extracted)
  /\ length (scoreEntry relevantEntries state extracted).2 = S (length state.2).
Proof.
  destruct state as [matchedCount results]. intros [Hcount Hsound].
  cbn [fst snd] in *. unfold scoreEntry.
  destruct (List.find _ relevantEntries) as [groundTruthEntry|].
  - set (a := Benchmark.match_ (Benchmark.compareNumerical _ _ None)).
    set (b := Benchmark.match_ (Benchmark.compareNumerical _ _ None)).
    set (c := Benchmark.match_ (Benchmark.compareNumerical _ _ None)).
    set (d := Benchmark.match_ (Benchmark.compareNumerical _ _ None)).
    split; [split|]; cbn [fst snd].
    + rewrite filter_app, length_app, filter_cons, filter_nil.
      change (allMatch (mkMatchResult (extracted !! "label") a b c d true))
        with (a && b && c && d).
      destruct (a && b && c && d); case_decide; try done; simpl; lia.
    + apply Forall_app. split; [done|]. by constructor.
    + rewrite length_app. simpl. lia.
  - split; [split|]; cbn [fst snd].
    + rewrite filter_app, length_app, filter_cons, filter_nil.
      case_decide; [done|]. simpl. lia.
    + apply Forall_app. split; [done|]. by constructor.
    + rewrite length_app. simpl. lia.
Qed.

Lemma scoreEntries_scored relevantEntries extractedData : forall state,
  scored state ->
  scored (foldl (scoreEntry relevantEntries) state extractedData)
  /\ length (foldl (scoreEntry relevantEntries) state extractedData).2
     = (length state.2 + length extractedData)%nat.
Proof.
  induction extractedData as [|extracted rest IH]; intros state Hstate.
  - simpl. split; [done|lia].
  - destruct (scoreEntry_scored relevantEntries state extracted Hstate)
      as [Hnext Hlength].
    destruct (IH _ Hnext) as [Hscored Hlen]. simpl. split; [done|].
    rewrite Hlen, Hlength. simpl. lia.
Qed.

End ScoreFacts.

(** X27. The counts of [benchmarkFile], for any arithmetic of numbers:
    there is one match record per extracted entry; an entry without
    ground-truth partner has all four comparisons false; [matched_entries]
    is the number of records whose four comparisons all hold, hence at most
    [total_extracted]; and [total_ground_truth] is at most the size of the
    ground truth. *)
Theorem benchmarkFile_counts {number : Type} `{Benchmark.JSNumber number}
    (filename extractedContent : string) (groundTruth : list (gmap string string)) :
  let result := Scoring.benchmarkFile filename extractedContent groundTruth in
  Scoring.total_extracted result = length (Csv.parseCSV extractedContent)
  /\ length (Scoring.matches result) = Scoring.total_extracted result
  /\ Scoring.matched_entries result
     = Z.of_nat (length (filter (fun m => Scoring.allMatch m = true)
                           (Scoring.matches result)))
  /\ 0 <= Scoring.matched_entries result <= Z.of_nat (Scoring.total_extracted result)
  /\ (forall m, m ∈ Scoring.matches result ->
        Scoring.found_in_ground_truth m = false ->
        Scoring.absorption_match m = false /\ Scoring.emission_match m = false
        /\ Scoring.lifetime_match m = false /\ Scoring.quantum_yield_match m = false)
  /\ (Scoring.total_ground_truth result <= length groundTruth)%nat.
Proof.
  cbn zeta. unfold Scoring.benchmarkFile.
  destruct (scoreEntries_scored
              (Scoring.relevantGroundTruth (Scoring.extractDOI filename) groundTruth)
              (Csv.parseCSV extractedContent) (0, []))
    as [[Hcount Hsound] Hlength]; [by split|].
  destruct (foldl _ _ _) as [matchedCount results].
  cbn [fst snd Scoring.total_extracted Scoring.matches Scoring.matched_entries
       Scoring.total_ground_truth length] in *.
  split; [done|]. split; [done|]. split; [done|]. split; [|split].
  - rewrite Hcount. simpl in Hlength.
    pose proof (length_filter (fun m => Scoring.allMatch m = true) results). lia.
  - intros m Hm Hfound. rewrite Forall_forall in Hsound.
    by destruct (Hsound m Hm Hfound) as (_ & ? & ? & ? & ?).
  - unfold Scoring.relevantGroundTruth. apply List.filter_length_le.
Qed.

(** ** The tools and the chunks *)

Lemma chunkMarkdown_readable (fuel : nat) (markdown : string) (chunkSize overlap : Z) :
  0 <= overlap -> overlap < chunkSize -> 0 < JS.strLength markdown ->
  (String.length markdown <= fuel)%nat ->
  exists chunks,
    Chunker.chunkMarkdown fuel markdown chunkSize overlap = Some chunks
    /\ forall j c, chunks !! j = Some c ->
         startChar c = Z.of_nat j * (chunkSize - overlap)
         /\ 0 <= startChar c < endChar c
         /\ endChar c <= JS.strLength markdown
         /\ content c = JS.slice markdown (startChar c) (endChar c).
Proof.
  intros Hov Hlt Hlen Hfuel.
  destruct (Z.le_gt_cases (JS.strLength markdown) chunkSize) as [Hshort|Hlong].
  - exists [mkChunk markdown 0 0 (JS.strLength markdown) 1]. split.
    + unfold Chunker.chunkMarkdown.
      destruct (JS.strLength markdown <=? chunkSize) eqn:E; [done|lia].
    + intros [|j] c Hj; [|done]. injection Hj as <-. simpl.
      rewrite slice_whole. repeat split; lia.
  - destruct (chunkMarkdown_windows markdown chunkSize overlap Hov Hlt fuel)
      as (new & Hrun & Hwin); [lia|done|].
    destruct (windows_spans markdown chunkSize overlap Hov Hlt 0 0%nat new)
      as [Hspans _]; [lia|done|].
    exists (Chunker.setTotalChunks new). split; [done|].
    intros j c' Hj. rewrite setTotalChunks_lookup in Hj.
    destruct (new !! j) as [d|] eqn:E; [|done]. injection Hj as <-. simpl.
    destruct (Hspans j d E) as (Hs & He & Hord & _).
    destruct (windows_fields markdown chunkSize (chunkSize - overlap) 0 0%nat new
                ltac:(lia) ltac:(lia) ltac:(lia) Hwin j d E) as (_ & Hcontent & _).
    repeat split; try done; lia.
Qed.

(** X28. The spans shown to the agent can be read back. For
    [0 <= overlap < chunkSize] and a non-empty text, [readContent] called
    with the [startChar] and [endChar] of any chunk succeeds and returns
    exactly that chunk's content; it reports more text before the span for
    every chunk but the first. *)
Theorem readContent_returns_chunk (fuel : nat) (markdown : string)
    (chunkSize overlap : Z) (ctx : Tools.Context) :
  0 <= overlap -> overlap < chunkSize -> 0 < JS.strLength markdown ->
  (String.length markdown <= fuel)%nat ->
  exists chunks,
    Chunker.chunkMarkdown fuel markdown chunkSize overlap = Some chunks
    /\ forall j c, chunks !! j = Some c ->
         fst (Tools.readContent markdown (startChar c) (endChar c) ctx)
         = Tools.ReadSuccess (content c)
             (Tools.mkReadMetadata (startChar c) (endChar c)
                (JS.strLength (content c)) (JS.strLength markdown)
                (negb (Nat.eqb j 0)) (endChar c <? JS.strLength markdown)).
Proof.
  intros Hov Hlt Hlen Hfuel.
  destruct (chunkMarkdown_readable fuel markdown chunkSize overlap Hov Hlt Hlen Hfuel)
    as (chunks & Hrun & Hchunks).
  exists chunks. split; [done|]. intros j c Hj.
  destruct (Hchunks j c Hj) as (Hstart & Hord & Hend & Hcontent).
  unfold Tools.readContent, Tools.bind, Tools.withStats, Tools.emitEvent, Tools.ret.
  cbn [fst snd].
  destruct (Z.ltb_spec (startChar c) 0); [lia|].
  destruct (Z.gtb_spec (startChar c) (JS.strLength markdown)); [lia|].
  destruct (Z.ltb_spec (endChar c) 0); [lia|].
  destruct (Z.gtb_spec (endChar c) (JS.strLength markdown)); [lia|].
  destruct (Z.geb_spec (startChar c) (endChar c)); [lia|].
  cbn [orb fst]. rewrite <- Hcontent. do 2 f_equal.
  destruct j as [|j]; simpl negb.
  - destruct (Z.gtb_spec (startChar c) 0); [lia|done].
  - destruct (Z.gtb_spec (startChar c) 0); [done|]. nia.
Qed.

Lemma readContent_returns_chunk_witness :
  exists chunks,
    Chunker.chunkMarkdown 12 "abcdefghijkl" 5 1 = Some chunks
    /\ forall j c, chunks !! j = Some c ->
         fst (Tools.readContent "abcdefghijkl" (startChar c) (endChar c)
                (Tools.mkContext None None))
         = Tools.ReadSuccess (content c)
             (Tools.mkReadMetadata (startChar c) (endChar c)
                (JS.strLength (content c)) (JS.strLength "abcdefghijkl")
                (negb (Nat.eqb j 0)) (endChar c <? JS.strLength "abcdefghijkl")).
Proof.
  apply (readContent_returns_chunk 12 "abcdefghijkl" 5 1 (Tools.mkContext None None));
    [lia|lia|vm_compute; reflexivity|simpl; lia].
Defined.

